(** * Zone memory allocation (src/z_zone.c)

    A shallow embedding of PrBoom's tagged, purgeable allocator and the
    properties its specification states about it.

    Data model.  The C unit is read on an LP64 platform: [size_t] and
    pointers are 64-bit unsigned, [int] is 32-bit two's complement,
    [unsigned char] is 8-bit.  Every wrap-around and conversion is written
    out on [Z].  Block headers ([memblock_t]) live in a finite map keyed by
    block address; payload bytes live in a flat byte memory; caller-held
    destination slots ([void **user]) live in a separate store of pointer
    cells.  The extent of a piece of storage is not part of the model: only
    its address is.

    Effects.  The three globals ([blockbytag], [memory_size],
    [free_memory]) and the heap are threaded through a state-and-error
    monad.  The calls that leave the unit ([malloc], [free], [I_Error]) are
    modelled at the boundary: [malloc] answers from a script held in the
    state, every call to [malloc] and [free] is appended to a trace, and
    [I_Error] ends the run. *)

From Stdlib Require Import ZArith Lia.
From stdpp Require Import base tactics option list list_numbers gmap functions.

Local Open Scope Z_scope.
#[local] Set Warnings "-clear-no-such-hyp".

(** ** Machine integers *)

Definition wrap64 (x : Z) : Z := x mod 2 ^ 64.

(** Conversion to [int]: reduction modulo 2^32 into the signed range. *)
Definition sint32 (x : Z) : Z := (x + 2 ^ 31) mod 2 ^ 32 - 2 ^ 31.

(** Conversion to [unsigned char]. *)
Definition uchar (x : Z) : Z := x mod 256.

Definition ptr_add (p n : Z) : Z := wrap64 (p + n).
Definition ptr_sub (p n : Z) : Z := wrap64 (p - n).

(** ** Tunables and the block header *)

Definition CHUNK_SIZE : Z := 32.

(** [typedef struct memblock { struct memblock *next,*prev; size_t size;
    unsigned char tag; } memblock_t;] *)
Record memblock_t : Type := Memblock {
  m_next : Z;
  m_prev : Z;
  m_size : Z;
  m_tag : Z
}.

(** [sizeof(memblock_t)] under LP64: 8 + 8 + 8 + 1, padded to 8-byte
    alignment. *)
Definition sizeof_memblock : Z := 32.

(** [(x + CHUNK_SIZE-1) & ~(CHUNK_SIZE-1)] in [size_t] arithmetic. *)
Definition round_chunk (x : Z) : Z :=
  Z.land (wrap64 (x + (CHUNK_SIZE - 1))) (Z.lnot (CHUNK_SIZE - 1)).

Definition HEADER_SIZE : Z := Eval cbv in round_chunk sizeof_memblock.

(** The largest request for which neither the rounding of line 148 nor
    the addition of the header at line 169 wraps around. *)
Definition MAX_REQUEST : Z := 2 ^ 64 - CHUNK_SIZE - HEADER_SIZE.

Definition with_next (v : Z) (b : memblock_t) : memblock_t :=
  Memblock v (m_prev b) (m_size b) (m_tag b).
Definition with_prev (v : Z) (b : memblock_t) : memblock_t :=
  Memblock (m_next b) v (m_size b) (m_tag b).
Definition with_size (v : Z) (b : memblock_t) : memblock_t :=
  Memblock (m_next b) (m_prev b) v (m_tag b).
Definition with_tag (v : Z) (b : memblock_t) : memblock_t :=
  Memblock (m_next b) (m_prev b) (m_size b) v.

(** The purge tags come from z_zone.h, which is not part of the unit under
    study; they are taken as parameters.  [tags_ok] is what the code relies
    on: the tags index [blockbytag], fit the [unsigned char] field, and
    [PU_CACHE] lies above [PU_FREE]. *)
Class purge_tags : Type := PurgeTags {
  PU_FREE : Z;
  PU_CACHE : Z;
  PU_MAX : Z
}.

Definition tags_ok `{purge_tags} : Prop :=
  0 <= PU_FREE ∧ PU_FREE < PU_CACHE ∧ PU_CACHE < PU_MAX ∧ PU_MAX <= 256.

(** The instance the concrete runs use: seven tags with [PU_FREE] first
    and [PU_CACHE] last, as PrBoom declares them (PU_FREE, PU_STATIC,
    PU_SOUND, PU_MUSIC, PU_LEVEL, PU_LEVSPEC, PU_CACHE, PU_MAX). *)
Definition doom_tags : purge_tags := PurgeTags 0 6 7.

(** ** State *)

(** Calls into the external allocator. *)
Inductive event : Type :=
  | EvMalloc (n : Z) (r : Z)
  | EvFree (a : Z).

Record zone : Type := Zone {
  blockbytag : Z → Z;             (* static memblock_t *blockbytag[PU_MAX] *)
  memory_size : Z;                (* static int memory_size *)
  free_memory : Z;                (* static int free_memory *)
  heap : gmap Z memblock_t;       (* headers of the live storage *)
  mem : Z → Z;                    (* payload bytes *)
  slots : gmap Z Z;               (* caller-held pointer cells *)
  script : list Z;                (* addresses the allocator will offer *)
  trace : list event              (* calls made to the allocator so far *)
}.

Definition set_blockbytag (f : (Z → Z) → Z → Z) (s : zone) : zone :=
  Zone (f (blockbytag s)) (memory_size s) (free_memory s) (heap s) (mem s)
       (slots s) (script s) (trace s).
Definition set_free_memory (v : Z) (s : zone) : zone :=
  Zone (blockbytag s) (memory_size s) v (heap s) (mem s)
       (slots s) (script s) (trace s).
Definition set_heap (f : gmap Z memblock_t → gmap Z memblock_t) (s : zone) : zone :=
  Zone (blockbytag s) (memory_size s) (free_memory s) (f (heap s)) (mem s)
       (slots s) (script s) (trace s).
Definition set_mem (f : (Z → Z) → Z → Z) (s : zone) : zone :=
  Zone (blockbytag s) (memory_size s) (free_memory s) (heap s) (f (mem s))
       (slots s) (script s) (trace s).
Definition set_slots (f : gmap Z Z → gmap Z Z) (s : zone) : zone :=
  Zone (blockbytag s) (memory_size s) (free_memory s) (heap s) (mem s)
       (f (slots s)) (script s) (trace s).
Definition set_script (l : list Z) (s : zone) : zone :=
  Zone (blockbytag s) (memory_size s) (free_memory s) (heap s) (mem s)
       (slots s) l (trace s).
Definition log (e : event) (s : zone) : zone :=
  Zone (blockbytag s) (memory_size s) (free_memory s) (heap s) (mem s)
       (slots s) (script s) (trace s ++ [e]).

(** The state before any allocation: every bucket NULL, nothing charged. *)
Definition zone_init (ceiling : Z) (m : Z → Z) (sl : gmap Z Z) (sc : list Z) : zone :=
  Zone (λ _, 0) ceiling 0 ∅ m sl sc [].

(** ** The monad *)

Inductive outcome (A : Type) : Type :=
  | Ret (a : A) (s : zone)   (* the call returned *)
  | Fatal (s : zone)         (* I_Error was called: no return *)
  | Undef                    (* undefined behaviour: wild pointer or index *)
  | Timeout.                 (* a loop exhausted its fuel *)
Arguments Ret {A} a s.
Arguments Fatal {A} s.
Arguments Undef {A}.
Arguments Timeout {A}.

Definition M (A : Type) : Type := zone → outcome A.

Definition ret {A} (a : A) : M A := λ s, Ret a s.
Definition bind {A B} (c : M A) (k : A → M B) : M B := λ s,
  match c s with
  | Ret a s' => k a s'
  | Fatal s' => Fatal s'
  | Undef => Undef
  | Timeout => Timeout
  end.

Declare Scope zone_scope.
Delimit Scope zone_scope with zone.
Notation "'let*' x := c 'in' k" := (bind c (λ x, k))
  (at level 10, x pattern, c at level 100, k at level 200) : zone_scope.
Notation "c ;;; k" := (bind c (λ _, k))
  (at level 100, k at level 200, right associativity) : zone_scope.
Local Open Scope zone_scope.

Definition gets {A} (f : zone → A) : M A := λ s, Ret (f s) s.
Definition modify (f : zone → zone) : M unit := λ s, Ret () (f s).
Definition undef {A} : M A := λ _, Undef.
Definition timeout {A} : M A := λ _, Timeout.

(** Modelled from the spec: [I_Error] is declared in lprintf.h and defined
    outside this unit; it is the fatal-error facility, which
    unconditionally terminates execution with a message. *)
Definition I_Error {A} : M A := λ s, Fatal s.

(** ** Memory primitives *)

Definition load (a : Z) : M memblock_t := λ s,
  match heap s !! a with Some b => Ret b s | None => Undef end.

Definition store (a : Z) (f : memblock_t → memblock_t) : M unit := λ s,
  match heap s !! a with
  | Some b => Ret () (set_heap (<[a := f b]>) s)
  | None => Undef
  end.

Section Zone.
Context `{PT : purge_tags}.

(** [blockbytag[t]] as an rvalue and as an lvalue. *)
Definition get_bucket (t : Z) : M Z :=
  if bool_decide (0 <= t < PU_MAX) then gets (λ s, blockbytag s t) else undef.
Definition set_bucket (t v : Z) : M unit :=
  if bool_decide (0 <= t < PU_MAX) then modify (set_blockbytag (<[t := v]>))
  else undef.

(** ** The external allocator

    [malloc] either fails or returns storage that is not live and whose
    payload address is representable; which of the two, and where, is read
    from the script (an exhausted script fails).  The header found in fresh
    storage is indeterminate; every field is written before it is read.
    The number of bytes asked for goes to the trace and nowhere else:
    storage has no extent here, so that a request too small for the header
    that will be written to it is not told apart.  That takes a size
    above [MAX_REQUEST], which the statements about usable storage
    exclude. *)
Definition junk : memblock_t := Memblock 0 0 0 0.

Definition ext_malloc (n : Z) : M Z := λ s,
  match script s with
  | [] => Ret 0 (log (EvMalloc n 0) s)
  | c :: rest =>
      if bool_decide (0 < c ∧ c + HEADER_SIZE < 2 ^ 64 ∧ heap s !! c = None)
      then Ret c (log (EvMalloc n c) (set_script rest (set_heap (<[c := junk]>) s)))
      else Ret 0 (log (EvMalloc n 0) (set_script rest s))
  end.

Definition ext_free (a : Z) : M unit := λ s,
  match heap s !! a with
  | Some _ => Ret () (log (EvFree a) (set_heap (delete a) s))
  | None => Undef
  end.

(** ** Z_Free *)

(** Lines 209-215 (and, with the same text, 269-275). *)
Definition unlink (block : Z) : M unit :=
  let* b := load block in
  (if bool_decide (block = m_next b) then set_bucket (m_tag b) 0
   else
     let* h := get_bucket (m_tag b) in
     if bool_decide (h = block) then set_bucket (m_tag b) (m_next b)
     else ret ()) ;;;
  (* block->prev->next = block->next; *)
  (let* b := load block in store (m_prev b) (with_next (m_next b))) ;;;
  (* block->next->prev = block->prev; *)
  (let* b := load block in store (m_next b) (with_prev (m_prev b))).

Definition Z_Free (p : Z) : M unit :=
  let block := ptr_sub p HEADER_SIZE in
  if bool_decide (p = 0) || bool_decide (block = 0) then ret ()
  else
    unlink block ;;;
    (* free_memory += block->size; *)
    (let* b := load block in
     let* fm := gets free_memory in
     modify (set_free_memory (sint32 (fm + m_size b)))) ;;;
    ext_free block.

(** ** Z_FreeTags *)

(** The [while (1)] of lines 238-245. *)
Fixpoint free_chain (fuel : nat) (block end_block : Z) : M unit :=
  match fuel with
  | O => timeout
  | S fuel =>
      let* b := load block in
      let next := m_next b in
      Z_Free (ptr_add block HEADER_SIZE) ;;;
      if bool_decide (block = end_block) then ret ()
      else free_chain fuel next end_block
  end.

(** Every pass of a purge loop releases one block, so the number of live
    blocks bounds the passes. *)
Definition fuel_of (s : zone) : nat := S (S (base.size (heap s))).

Definition free_bucket (t : Z) : M unit :=
  let* block := get_bucket t in
  if bool_decide (block = 0) then ret ()
  else
    let* b := load block in
    let end_block := m_prev b in
    let* fuel := gets fuel_of in
    free_chain fuel block end_block.

Fixpoint for_tags (ts : list Z) (body : Z → M unit) : M unit :=
  match ts with
  | [] => ret ()
  | t :: ts => body t ;;; for_tags ts body
  end.

Definition clamp_low (lowtag : Z) : Z :=
  if bool_decide (lowtag <= PU_FREE) then PU_FREE + 1 else lowtag.
Definition clamp_high (hightag : Z) : Z :=
  if bool_decide (hightag > PU_CACHE) then PU_CACHE else hightag.

Definition Z_FreeTags (lowtag hightag : Z) : M unit :=
  let lowtag := clamp_low lowtag in
  let hightag := clamp_high hightag in
  for_tags (seqZ lowtag (hightag - lowtag + 1)) free_bucket.

(** ** Z_Malloc *)

(** Lines 177-188 (and, with the same text, 277-288). *)
Definition link (tag block : Z) : M unit :=
  let* h := get_bucket tag in
  if bool_decide (h = 0) then
    set_bucket tag block ;;;
    (* block->next = block->prev = block; *)
    store block (with_prev block) ;;;
    store block (with_next block)
  else
    (* blockbytag[tag]->prev->next = block; *)
    (let* h := get_bucket tag in
     let* hb := load h in
     store (m_prev hb) (with_next block)) ;;;
    (* block->prev = blockbytag[tag]->prev; *)
    (let* h := get_bucket tag in
     let* hb := load h in
     store block (with_prev (m_prev hb))) ;;;
    (* block->next = blockbytag[tag]; *)
    (let* h := get_bucket tag in store block (with_next h)) ;;;
    (* blockbytag[tag]->prev = block; *)
    (let* h := get_bucket tag in store h (with_prev block)).

(** [(free_memory + memory_size) < (int)(size + HEADER_SIZE)]: the sum on
    the left is an [int] sum (taken to wrap around), the sum on the right a
    [size_t] sum converted to [int]. *)
Definition short_of (fm ms size : Z) : bool :=
  bool_decide (sint32 (fm + ms) < sint32 (wrap64 (size + HEADER_SIZE))).

(** The [while (1)] of lines 157-164. *)
Fixpoint purge_chain (fuel : nat) (size block end_block : Z) : M unit :=
  match fuel with
  | O => timeout
  | S fuel =>
      let* b := load block in
      let next := m_next b in
      Z_Free (ptr_add block HEADER_SIZE) ;;;
      let* fm := gets free_memory in
      let* ms := gets memory_size in
      if negb (short_of fm ms size) || bool_decide (block = end_block)
      then ret ()
      else purge_chain fuel size next end_block
  end.

(** Lines 150-167: the proactive pass. *)
Definition purge_pass (size : Z) : M unit :=
  let* ms := gets memory_size in
  let* fm := gets free_memory in
  if bool_decide (ms > 0) && short_of fm ms size then
    let* block := get_bucket PU_CACHE in
    if bool_decide (block = 0) then ret ()
    else
      let* b := load block in
      let end_block := m_prev b in
      let* fuel := gets fuel_of in
      purge_chain fuel size block end_block
  else ret ().

(** Lines 169-175: the request and its retries. *)
Fixpoint alloc_retry (fuel : nat) (size : Z) : M Z :=
  match fuel with
  | O => timeout
  | S fuel =>
      let* block := ext_malloc (wrap64 (size + HEADER_SIZE)) in
      if bool_decide (block = 0) then
        (let* c := get_bucket PU_CACHE in
         if bool_decide (c = 0) then I_Error else ret ()) ;;;
        Z_FreeTags PU_CACHE PU_CACHE ;;;
        alloc_retry fuel size
      else ret block
  end.

(** Lines 177-199: the new block is linked, filled in and handed out. *)
Definition register (size tag user block : Z) : M Z :=
  link tag block ;;;
  store block (with_size size) ;;;
  (* free_memory -= block->size; *)
  (let* b := load block in
   let* fm := gets free_memory in
   modify (set_free_memory (sint32 (fm - m_size b)))) ;;;
  store block (with_tag (uchar tag)) ;;;
  let p := ptr_add block HEADER_SIZE in
  (if bool_decide (user = 0) then ret ()
   else modify (set_slots (<[user := p]>))) ;;;
  ret p.

Definition Z_Malloc (size tag user : Z) : M Z :=
  if bool_decide (size = 0) then
    (if bool_decide (user = 0) then ret ()
     else modify (set_slots (<[user := 0]>))) ;;;
    ret 0
  else
    let size := round_chunk size in
    purge_pass size ;;;
    let* fuel := gets fuel_of in
    let* block := alloc_retry fuel size in
    register size tag user block.

(** ** Z_ChangeTag *)

Definition Z_ChangeTag (ptr tag : Z) : M unit :=
  let block := ptr_sub ptr HEADER_SIZE in
  if bool_decide (ptr = 0) then ret ()
  else
    let* b := load block in
    if bool_decide (tag = m_tag b) then ret ()
    else
      unlink block ;;;
      link tag block ;;;
      store block (with_tag (uchar tag)).

(** ** Z_Realloc and Z_Calloc *)

(** [memcpy(dst, src, n)] and [memset(dst, c, n)] on the payload bytes.
    Neither knows where a block ends; that the bytes written lie inside
    the block they are meant for is stated where it matters. *)
Definition memcpy (dst src n : Z) : M unit :=
  modify (set_mem (λ m a,
    if bool_decide (dst <= a < dst + n) then m (src + (a - dst)) else m a)).
Definition memset (dst c n : Z) : M unit :=
  modify (set_mem (λ m a,
    if bool_decide (dst <= a < dst + n) then c else m a)).

Definition Z_Realloc (ptr n tag user : Z) : M Z :=
  let* p := Z_Malloc n tag user in
  (if bool_decide (ptr = 0) then ret ()
   else
     let block := ptr_sub ptr HEADER_SIZE in
     (let* b := load block in
      if bool_decide (n <= m_size b) then memcpy p ptr n
      else
        memcpy p ptr (m_size b) ;;;
        let* b := load block in
        (* memset(p + block->size, 0, n - block->size), p as a char pointer *)
        memset (p + m_size b) 0 (wrap64 (n - m_size b))) ;;;
     Z_Free ptr ;;;
     if bool_decide (user = 0) then ret ()
     else modify (set_slots (<[user := p]>))) ;;;
  ret p.

Definition Z_Calloc (n1 n2 tag user : Z) : M Z :=
  let n1 := wrap64 (n1 * n2) in
  if bool_decide (n1 = 0) then ret 0
  else
    let* p := Z_Malloc n1 tag user in
    memset p 0 n1 ;;;
    ret p.

(** ** Z_Close and Z_Init *)

Definition set_memory_size (v : Z) (s : zone) : zone :=
  Zone (blockbytag s) v (free_memory s) (heap s) (mem s)
       (slots s) (script s) (trace s).

(** Lines 108-118.  [win32] tells whether [_WIN32] is defined, in which
    case nothing is released. *)
Definition Z_Close (win32 : bool) : M unit :=
  (if win32 then ret () else Z_FreeTags PU_FREE PU_MAX) ;;;
  modify (set_memory_size 0) ;;;
  modify (set_free_memory 0).

(** Conversion to [unsigned]. *)
Definition uint32 (x : Z) : Z := x mod 2 ^ 32.

(** Lines 120-127.  The counter is an [unsigned], to which [PU_MAX] is
    converted for the comparison. *)
Definition Z_Init : M bool :=
  for_tags (seqZ 0 (uint32 PU_MAX)) (λ i, set_bucket i 0) ;;;
  ret true.

(** ** Z_SetPurgeLimit *)

Definition MIN_MEMORY_SIZE : Z := 8 * 1024 * 1024.

(** The value [memory_size] starts with (lines 95-104). *)
Definition default_memory_size (memory_low : bool) : Z :=
  if memory_low then 16 * 1024 * 1024 else 0.

(** Lines 327-342.  [memory_low] tells whether [MEMORY_LOW] is defined;
    without it the body is empty. *)
Definition Z_SetPurgeLimit (memory_low : bool) (size : Z) : M unit :=
  if memory_low then
    let* ms := gets memory_size in
    if bool_decide (size = ms) then ret ()
    else
      let* size :=
        (if bool_decide (size < MIN_MEMORY_SIZE)
         then I_Error (A := unit) ;;; ret MIN_MEMORY_SIZE
         else ret size) in
      modify (set_memory_size size)
  else ret ().

(** ** Z_Strdup *)

(** [strlen(s)]: the number of bytes before the first NUL, looked for
    among the first [fuel] bytes. *)
Fixpoint strlen_from (fuel : nat) (m : Z → Z) (s n : Z) : option Z :=
  match fuel with
  | O => None
  | S fuel =>
      if bool_decide (m (s + n) = 0) then Some n
      else strlen_from fuel m s (n + 1)
  end.

Definition strlen (fuel : nat) (s : Z) : M Z := λ st,
  if bool_decide (s = 0) then Undef
  else
    match strlen_from fuel (mem st) s 0 with
    | Some n => Ret n st
    | None => Timeout
    end.

(** [strcpy(dst, src)]: the string and its NUL are copied and [dst] is
    returned; copying to NULL or between overlapping objects is
    undefined. *)
Definition strcpy (fuel : nat) (dst src : Z) : M Z :=
  let* n := strlen fuel src in
  if bool_decide (dst = 0)
     || bool_decide (dst < src + (n + 1) ∧ src < dst + (n + 1))
  then undef
  else memcpy dst src (n + 1) ;;; ret dst.

(** Lines 322-325: [strlen(s)+1] is a [size_t] sum. *)
Definition Z_Strdup (fuel : nat) (s tag user : Z) : M Z :=
  let* n := strlen fuel s in
  let* p := Z_Malloc (wrap64 (n + 1)) tag user in
  strcpy fuel p s.

(** * Vocabulary of the specification *)

(** ** Buckets as lists

    [dlseg h l p pp q qq]: the blocks of [l] are chained in [h] through
    [next] from [p] to [q] and through [prev] from [qq] back to [pp]. *)
Fixpoint dlseg (h : gmap Z memblock_t) (l : list Z) (p pp q qq : Z) : Prop :=
  match l with
  | [] => p = q ∧ pp = qq
  | a :: l' =>
      p = a ∧ ∃ b, h !! a = Some b ∧ m_prev b = pp ∧ dlseg h l' (m_next b) a q qq
  end.

(** A bucket: a segment closed on itself. *)
Definition cycle (h : gmap Z memblock_t) (l : list Z) : Prop :=
  ∃ p pp, dlseg h l p pp p pp.

(** [h'] holds the same blocks as [h], with the same size and tag, and the
    same links outside [X]. *)
Definition relinked (X : list Z) (h h' : gmap Z memblock_t) : Prop :=
  ∀ a, match h !! a, h' !! a with
       | Some b, Some b' =>
           m_size b' = m_size b ∧ m_tag b' = m_tag b ∧ (a ∉ X → b' = b)
       | None, None => True
       | _, _ => False
       end.

(** A recorded size is a [size_t] and a whole number of chunks. *)
Definition size_ok (z : Z) : Prop := 0 <= z < 2 ^ 64 ∧ z mod CHUNK_SIZE = 0.

(** The representation invariant.  [rep s L]: for every tag [t], [L t]
    lists the live blocks carrying [t], in bucket order from the head. *)
Record rep (s : zone) (L : Z → list Z) : Prop := Rep {
  rep_live : ∀ a b, heap s !! a = Some b → a ∈ L (m_tag b);
  rep_addr : ∀ a, is_Some (heap s !! a) → 0 < a ∧ a + HEADER_SIZE < 2 ^ 64;
  rep_tag : ∀ t a, a ∈ L t →
    0 <= t < PU_MAX ∧ ∃ b, heap s !! a = Some b ∧ m_tag b = t;
  rep_nodup : ∀ t, NoDup (L t);
  rep_cycle : ∀ t, cycle (heap s) (L t);
  rep_head : ∀ t, 0 <= t < PU_MAX → blockbytag s t = hd 0 (L t);
  rep_size : ∀ a b, heap s !! a = Some b → size_ok (m_size b)
}.

(** ** Evictions *)

(** The headers left when the blocks of [l] are gone. *)
Definition deletes (l : list Z) (h : gmap Z memblock_t) : gmap Z memblock_t :=
  foldr delete h l.

(** The recorded size of block [a]. *)
Definition size_of (h : gmap Z memblock_t) (a : Z) : Z :=
  default 0 (m_size <$> h !! a).

(** [free_memory] after the blocks of [l] have been credited in turn. *)
Definition credit (h : gmap Z memblock_t) (l : list Z) (fm : Z) : Z :=
  fold_left (λ fm a, sint32 (fm + size_of h a)) l fm.

(** The blocks carried by the tags of [ts], bucket after bucket. *)
Definition members (L : Z → list Z) (ts : list Z) : list Z :=
  concat (map L ts).

(** The buckets once those of [ts] have been emptied. *)
Definition emptied (ts : list Z) (L : Z → list Z) : Z → list Z :=
  λ t, if decide (t ∈ ts) then [] else L t.

(** The tags the [for] of line 231 goes through. *)
Definition tag_range (lowtag hightag : Z) : list Z :=
  seqZ (clamp_low lowtag) (clamp_high hightag - clamp_low lowtag + 1).

(** How many blocks of the bucket list [l] the pass of lines 157-164
    releases: it goes on while the comparison of line 161 still finds the
    headroom short, and stops at the end of the list at the latest. *)
Fixpoint purge_count (h : gmap Z memblock_t) (ms size : Z) (l : list Z)
    (fm : Z) : nat :=
  match l with
  | [] => 0
  | a :: l' =>
      let fm' := sint32 (fm + size_of h a) in
      if short_of fm' ms size then S (purge_count h ms size l' fm') else 1
  end.

(** The number of blocks the proactive pass of [Z_Malloc] releases from
    the CACHE bucket [l]. *)
Definition purge_plan (s : zone) (l : list Z) (size : Z) : nat :=
  if bool_decide (memory_size s > 0)
     && short_of (free_memory s) (memory_size s) size
  then purge_count (heap s) (memory_size s) size l (free_memory s)
  else 0%nat.

(** ** The allocator's answers *)

(** What the allocator is about to answer: the address it grants, or 0. *)
Definition offer (s : zone) : Z :=
  match script s with
  | [] => 0
  | c :: _ =>
      if bool_decide (0 < c ∧ c + HEADER_SIZE < 2 ^ 64 ∧ heap s !! c = None)
      then c else 0
  end.

(** The state after a request of [n] bytes was granted at [c], and after
    it was refused. *)
Definition granted (n c : Z) (s : zone) : zone :=
  log (EvMalloc n c) (set_script (tail (script s)) (set_heap (<[c := junk]>) s)).

Definition refused (n : Z) (s : zone) : zone :=
  log (EvMalloc n 0) (set_script (tail (script s)) s).

(** [h'] keeps nothing but blocks of [h], with their size and tag. *)
Definition survivors (h h' : gmap Z memblock_t) : Prop :=
  ∀ a b', h' !! a = Some b' →
    ∃ b, h !! a = Some b ∧ m_size b' = m_size b ∧ m_tag b' = m_tag b.

(** ** Sequences of calls *)

Inductive op : Type :=
  | OpMalloc (size tag user : Z)
  | OpFree (p : Z)
  | OpChangeTag (ptr tag : Z)
  | OpFreeTags (lowtag hightag : Z).

Definition exec (o : op) : M unit :=
  match o with
  | OpMalloc size tag user => Z_Malloc size tag user ;;; ret ()
  | OpFree p => Z_Free p
  | OpChangeTag ptr tag => Z_ChangeTag ptr tag
  | OpFreeTags lowtag hightag => Z_FreeTags lowtag hightag
  end.

Fixpoint run (ops : list op) : M unit :=
  match ops with
  | [] => ret ()
  | o :: ops => exec o ;;; run ops
  end.


(** ** The bucket invariant, in the words of the specification *)

(** Following [next] for [n] steps from [p]: the blocks visited, and where
    the walk ends. *)
Fixpoint walk (h : gmap Z memblock_t) (n : nat) (p : Z) : option (list Z * Z) :=
  match n with
  | O => Some ([], p)
  | S n =>
      match h !! p with
      | Some b =>
          match walk h n (m_next b) with
          | Some (l, q) => Some (p :: l, q)
          | None => None
          end
      | None => None
      end
  end.

(** The number of live blocks carrying tag [t]. *)
Definition live_count (s : zone) (t : Z) : nat :=
  length (filter (λ ab, m_tag ab.2 = t) (map_to_list (heap s))).

(** The bucket of [t] has a head exactly when the tag has live blocks, and
    [N] steps of [next] from the head, [N] the live count, visit each live
    block of the tag once and end at the head. *)
Definition bucket_valid (s : zone) (t : Z) : Prop :=
  let head := blockbytag s t in
  let N := live_count s t in
  (head ≠ 0 ↔ N ≠ 0%nat) ∧
  ∃ visited,
    walk (heap s) N head = Some (visited, head) ∧
    NoDup visited ∧
    ∀ a, a ∈ visited ↔ ∃ b, heap s !! a = Some b ∧ m_tag b = t.

(** ** Outcomes of an allocation *)

(** What one run of the loop of lines 169-175 does, started in [s1] with
    CACHE bucket [L1 PU_CACHE], for a request of [n] bytes. *)
Definition retry_protocol (fuel : nat) (sz : Z) (s1 : zone) (L1 : Z → list Z)
    : Prop :=
  let n := wrap64 (sz + HEADER_SIZE) in
  let l := L1 PU_CACHE in
  (* the request is satisfied at once *)
  (offer s1 ≠ 0 →
     alloc_retry fuel sz s1 = Ret (offer s1) (granted n (offer s1) s1)) ∧
  (* it fails while the CACHE bucket is empty *)
  (offer s1 = 0 → l = [] → alloc_retry fuel sz s1 = Fatal (refused n s1)) ∧
  (* it fails while the CACHE bucket holds l: all of l goes, head first,
     and the request is made once more *)
  (offer s1 = 0 → l ≠ [] →
     ∃ s2,
       Z_FreeTags PU_CACHE PU_CACHE (refused n s1) = Ret () s2 ∧
       rep s2 (<[PU_CACHE := []]> L1) ∧
       trace s2 = trace s1 ++ [EvMalloc n 0] ++ map EvFree l ∧
       (offer s2 ≠ 0 →
          alloc_retry fuel sz s1 = Ret (offer s2) (granted n (offer s2) s2)) ∧
       (offer s2 = 0 → alloc_retry fuel sz s1 = Fatal (refused n s2))).

(** [p] is a payload the caller can use for [size] bytes: it is not NULL,
    it is the payload of a live block of [s'] with the given tag, the
    recorded size of the block is [size] rounded up and no less than
    [size], and the storage of the block is what the allocator granted,
    in the last call made to it, to a request for the header and a payload
    of the recorded size. *)
Definition usable (s' : zone) (p tag size : Z) : Prop :=
  p ≠ 0 ∧
  ∃ b,
    let block := ptr_sub p HEADER_SIZE in
    heap s' !! block = Some b ∧ m_tag b = tag ∧
    m_size b = round_chunk size ∧ size <= m_size b ∧
    List.last (trace s') (EvFree 0) = EvMalloc (m_size b + HEADER_SIZE) block.

(** The call either hands out a usable payload or has ended in [I_Error]. *)
Definition returns_or_dies (o : outcome Z) (tag size : Z) : Prop :=
  match o with
  | Ret p s' => usable s' p tag size
  | Fatal _ => True
  | Undef | Timeout => False
  end.

(** ** The whole interface *)

(** [m] holds at [s] a string of [n] bytes, NUL not counted. *)
Definition cstring (m : Z → Z) (s n : Z) : Prop :=
  0 <= n ∧ (∀ i, 0 <= i < n → m (s + i) ≠ 0) ∧ m (s + n) = 0.

(** The bytes charged: the recorded sizes of the live blocks, added up. *)
Definition total (h : gmap Z memblock_t) : Z :=
  map_fold (λ _ z acc, z + acc) 0 (m_size <$> h).

(** [free_memory] is the negated number of bytes charged, as an [int]. *)
Definition charged (s : zone) : Prop :=
  free_memory s = sint32 (- total (heap s)).

(** No link of a live block and no bucket leads out of the live blocks,
    and [next] and [prev] undo each other. *)
Definition well_linked (s : zone) : Prop :=
  (∀ t, 0 <= t < PU_MAX → blockbytag s t ≠ 0 →
     ∃ b, heap s !! blockbytag s t = Some b ∧ m_tag b = t) ∧
  ∀ a b, heap s !! a = Some b →
    ∃ bn bp,
      heap s !! m_next b = Some bn ∧ heap s !! m_prev b = Some bp ∧
      m_prev bn = a ∧ m_next bp = a ∧
      m_tag bn = m_tag b ∧ m_tag bp = m_tag b.

(** Nothing in [s] refers to the block at [a]. *)
Definition unreferenced (s : zone) (a : Z) : Prop :=
  (∀ t, 0 <= t < PU_MAX → blockbytag s t ≠ a) ∧
  ∀ x b, heap s !! x = Some b → m_next b ≠ a ∧ m_prev b ≠ a.

(** The entry points of the unit, [Z_Init] apart. *)
Inductive call : Type :=
  | CallOp (o : op)
  | CallRealloc (ptr n tag user : Z)
  | CallCalloc (n1 n2 tag user : Z)
  | CallStrdup (fuel : nat) (s tag user : Z)
  | CallSetPurgeLimit (memory_low : bool) (size : Z)
  | CallClose (win32 : bool).

Definition exec_call (c : call) : M unit :=
  match c with
  | CallOp o => exec o
  | CallRealloc ptr n tag user => Z_Realloc ptr n tag user ;;; ret ()
  | CallCalloc n1 n2 tag user => Z_Calloc n1 n2 tag user ;;; ret ()
  | CallStrdup fuel s tag user => Z_Strdup fuel s tag user ;;; ret ()
  | CallSetPurgeLimit memory_low size => Z_SetPurgeLimit memory_low size
  | CallClose win32 => Z_Close win32
  end.

Fixpoint session (cs : list call) : M unit :=
  match cs with
  | [] => ret ()
  | c :: cs => exec_call c ;;; session cs
  end.

Definition is_close (c : call) : bool :=
  match c with CallClose _ => true | _ => false end.

End Zone.

(** * Concrete states

    The runs below use PrBoom's tags ([PU_FREE] = 0, [PU_STATIC] = 1,
    [PU_CACHE] = 6, [PU_MAX] = 7) and an allocator that hands out the
    addresses of its script, a 0 in the script being a refusal. *)

Section Runs.
#[local] Existing Instance doom_tags.

(** The state a run ends in (the initial state if it does not return). *)
Definition final (ops : list op) (s : zone) : zone :=
  match run ops s with
  | Ret _ s' => s'
  | _ => s
  end.

Definition no_bytes : Z → Z := λ _, 0.

(** Three CACHE blocks and a STATIC one, then one CACHE block retagged and
    one freed. *)
Definition mixed_ops : list op :=
  [OpMalloc 10 PU_CACHE 0; OpMalloc 40 1 77; OpMalloc 1 PU_CACHE 0;
   OpMalloc 100 PU_CACHE 0; OpChangeTag (8192 + 32) 1; OpFree (4096 + 32)].

Definition mixed_init : zone :=
  zone_init 0 no_bytes ∅ [4096; 12288; 8192; 16384].

Definition mixed_state : zone := final mixed_ops mixed_init.

(** Two CACHE blocks; the allocator will refuse the next request and grant
    the one after. *)
Definition cache_init : zone := zone_init 0 no_bytes ∅ [4096; 8192; 0; 12288].
Definition cache_ops : list op := [OpMalloc 10 PU_CACHE 0; OpMalloc 10 PU_CACHE 0].
Definition cache_state : zone := final cache_ops cache_init.

(** A ceiling of 16 MiB and one CACHE block. *)
Definition MiB : Z := 1024 * 1024.
Definition budget_init : zone := zone_init (16 * MiB) no_bytes ∅ [4096; 8192].
Definition budget_state : zone := final [OpMalloc 10 PU_CACHE 0] budget_init.

(** A ceiling of 256 bytes and three CACHE blocks of 64. *)
Definition tight_init : zone :=
  zone_init 256 no_bytes ∅ [4096; 8192; 12288; 16384].
Definition tight_ops : list op :=
  [OpMalloc 64 PU_CACHE 0; OpMalloc 64 PU_CACHE 0; OpMalloc 64 PU_CACHE 0].
Definition tight_state : zone := final tight_ops tight_init.

(** No ceiling, one CACHE block, and an allocator with storage left. *)
Definition roomy_init : zone := zone_init 0 no_bytes ∅ [4096; 8192].
Definition roomy_state : zone := final [OpMalloc 10 PU_CACHE 0] roomy_init.

(** An 8 MiB CACHE block under a 16 MiB ceiling. *)
Definition grow_init : zone :=
  zone_init (16 * MiB) no_bytes ∅ [4096; 4096 + 16 * MiB].
Definition grow_state : zone := final [OpMalloc (8 * MiB) PU_CACHE 0] grow_init.

(** A STATIC block of 64 bytes grown to 100. *)
Definition some_bytes : Z → Z := λ a, a mod 251.
Definition static_init : zone := zone_init 0 some_bytes ∅ [4096; 8192].
Definition static_state : zone := final [OpMalloc 40 1 0] static_init.

(** Three CACHE blocks and a STATIC one. *)
Definition three_init : zone :=
  zone_init 0 no_bytes ∅ [4096; 8192; 12288; 16384].
Definition three_ops : list op :=
  [OpMalloc 10 PU_CACHE 0; OpMalloc 20 PU_CACHE 0; OpMalloc 5 1 0;
   OpMalloc 30 PU_CACHE 0].
Definition three_state : zone := final three_ops three_init.

(** The state a sequence of calls ends in (the initial state if it does
    not return). *)
Definition final_session (cs : list call) (s : zone) : zone :=
  match session cs s with
  | Ret _ s' => s'
  | _ => s
  end.

Definition returned {A} (o : outcome A) : bool :=
  match o with Ret _ _ => true | _ => false end.

(** A memory that holds the string "hi" at address 100. *)
Definition hi_bytes : Z → Z := λ a,
  if bool_decide (a = 100) then 104
  else if bool_decide (a = 101) then 105 else 0.

Definition hi_init : zone := zone_init 0 hi_bytes ∅ [4096].

(** One call to each entry point: a CACHE block, a zeroed STATIC block that
    is then grown, a copy of the string, a ceiling of 16 MiB, and the CACHE
    block retagged. *)
Definition api_init : zone :=
  zone_init 0 hi_bytes ∅ [4096; 8192; 12288; 16384; 20480].
Definition api_calls : list call :=
  [CallOp (OpMalloc 10 PU_CACHE 0); CallCalloc 4 8 1 77;
   CallRealloc (8192 + 32) 100 1 77; CallStrdup 10 100 1 0;
   CallSetPurgeLimit true (16 * MiB); CallOp (OpChangeTag (4096 + 32) 1)].
Definition api_state : zone := final_session api_calls api_init.

(** An allocator with nothing to give and nothing to evict. *)
Definition dry_init : zone := zone_init 0 no_bytes ∅ [0].
Definition dry_state : zone :=
  match Z_Malloc 10 1 0 dry_init with
  | Fatal s' => s'
  | _ => dry_init
  end.

End Runs.

(** * Verification *)

(** ** Stepping through the monad *)

Lemma bind_eq {A B} (c : M A) (k : A → M B) s a s1 :
  c s = Ret a s1 → bind c k s = k a s1.
Proof. unfold bind. by intros ->. Qed.

Lemma bind_Ret_inv {A B} (c : M A) (k : A → M B) s r s' :
  bind c k s = Ret r s' → ∃ a s1, c s = Ret a s1 ∧ k a s1 = Ret r s'.
Proof. unfold bind. destruct (c s); try discriminate. eauto. Qed.

Lemma load_Some a b s : heap s !! a = Some b → load a s = Ret b s.
Proof. unfold load. by intros ->. Qed.

Lemma store_Some a f b s :
  heap s !! a = Some b → store a f s = Ret () (set_heap (<[a := f b]>) s).
Proof. unfold store. by intros ->. Qed.

(** ** Doubly-linked segments *)

Section Segments.
Implicit Types (h : gmap Z memblock_t) (l : list Z).

Lemma dlseg_app h l1 l2 p pp q qq :
  dlseg h (l1 ++ l2) p pp q qq ↔
  ∃ m mm, dlseg h l1 p pp m mm ∧ dlseg h l2 m mm q qq.
Proof.
  revert p pp. induction l1 as [|a l1 IH]; intros p pp; simpl.
  - split.
    + intros H. by exists p, pp.
    + by intros (m & mm & [-> ->] & H).
  - split.
    + intros [-> (b & Hb & Hp & H)]. apply IH in H as (m & mm & H1 & H2).
      exists m, mm. split; [|done]. split; [done|]. by exists b.
    + intros (m & mm & [-> (b & Hb & Hp & H1)] & H2). split; [done|].
      exists b. repeat split; try done. apply IH. by exists m, mm.
Qed.

Lemma dlseg_agree h h' l p pp q qq :
  (∀ a, a ∈ l → h' !! a = h !! a) →
  dlseg h l p pp q qq → dlseg h' l p pp q qq.
Proof.
  revert p pp. induction l as [|a l IH]; intros p pp Hag; simpl; [done|].
  intros [-> (b & Hb & Hp & H)]. split; [done|]. exists b.
  rewrite Hag by (left). repeat split; try done.
  apply IH; [|done]. intros x Hx. apply Hag. by right.
Qed.

Lemma dlseg_live h l p pp q qq a :
  dlseg h l p pp q qq → a ∈ l → is_Some (h !! a).
Proof.
  revert p pp. induction l as [|x l IH]; intros p pp; simpl.
  - intros _ Ha. by apply elem_of_nil in Ha.
  - intros [-> (b & Hb & _ & H)] [->|Ha]%elem_of_cons; eauto.
Qed.

(** The entry pointer is the first block. *)
Lemma dlseg_first h l p pp q qq : dlseg h l p pp q qq → p = hd q l.
Proof. destruct l; simpl; intros [H _]; exact H. Qed.

Lemma dlseg_snoc h l x p pp q qq :
  dlseg h (l ++ [x]) p pp q qq ↔
  ∃ b, dlseg h l p pp x (m_prev b) ∧ h !! x = Some b ∧ m_next b = q ∧ qq = x.
Proof.
  rewrite dlseg_app. simpl. split.
  - intros (m & mm & H1 & -> & b & Hb & <- & <- & <-). by exists b.
  - intros (b & H1 & Hb & <- & ->). exists x, (m_prev b). split; [done|].
    split; [done|]. by exists b.
Qed.

Lemma dlseg_set_last_next h l x b v p pp q qq :
  x ∉ l → h !! x = Some b →
  dlseg h (l ++ [x]) p pp q qq →
  dlseg (<[x := with_next v b]> h) (l ++ [x]) p pp v x.
Proof.
  intros Hx Hb. rewrite !dlseg_snoc.
  intros (b' & H1 & Hb' & _ & _). assert (b' = b) as -> by congruence.
  exists (with_next v b). rewrite lookup_insert_eq. repeat split; try done.
  simpl. eapply dlseg_agree; [|done].
  intros a Ha. rewrite lookup_insert_ne; [done|]. by intros ->.
Qed.

Lemma dlseg_set_first_prev h l x b v pp q qq :
  x ∉ l → h !! x = Some b →
  dlseg h (x :: l) x pp q qq →
  dlseg (<[x := with_prev v b]> h) (x :: l) x v q qq.
Proof.
  intros Hx Hb [_ (b' & Hb' & _ & H)]. assert (b' = b) as -> by congruence.
  split; [done|]. exists (with_prev v b). rewrite lookup_insert_eq.
  repeat split; try done. simpl. eapply dlseg_agree; [|done].
  intros a Ha. rewrite lookup_insert_ne; [done|]. by intros ->.
Qed.

Lemma cycle_nil h : cycle h [].
Proof. by exists 0, 0. Qed.

Lemma cycle_rotate h l1 l2 : cycle h (l1 ++ l2) → cycle h (l2 ++ l1).
Proof.
  intros (p & pp & H). apply dlseg_app in H as (m & mm & H1 & H2).
  exists m, mm. apply dlseg_app. by exists p, pp.
Qed.

Lemma cycle_agree h h' l :
  (∀ a, a ∈ l → h' !! a = h !! a) → cycle h l → cycle h' l.
Proof. intros Hag (p & pp & H). exists p, pp. by eapply dlseg_agree. Qed.

Lemma cycle_cons h a l :
  cycle h (a :: l) ↔ ∃ pp, dlseg h (a :: l) a pp a pp.
Proof.
  split.
  - intros (p & pp & H). pose proof H as [-> _]. by exists pp.
  - intros (pp & H). by exists a, pp.
Qed.

Lemma relinked_refl X h : relinked X h h.
Proof. intros a. by destruct (h !! a). Qed.

Lemma relinked_trans X h1 h2 h3 :
  relinked X h1 h2 → relinked X h2 h3 → relinked X h1 h3.
Proof.
  intros H12 H23 a. specialize (H12 a). specialize (H23 a).
  destruct (h1 !! a), (h2 !! a), (h3 !! a); try done.
  destruct H12 as (? & ? & ?), H23 as (? & ? & ?).
  repeat split; try congruence. intros Ha. rewrite H4, H1; done.
Qed.

Lemma relinked_insert X h x b b' :
  h !! x = Some b → x ∈ X → m_size b' = m_size b → m_tag b' = m_tag b →
  relinked X h (<[x := b']> h).
Proof.
  intros Hb Hx Hs Ht a. destruct (decide (a = x)) as [->|Hne].
  - rewrite Hb, lookup_insert_eq. done.
  - rewrite lookup_insert_ne by done. by destruct (h !! a).
Qed.

Lemma relinked_mono X Y h h' : X ⊆ Y → relinked X h h' → relinked Y h h'.
Proof.
  intros HXY H a. specialize (H a). destruct (h !! a), (h' !! a); try done.
  destruct H as (? & ? & H). repeat split; try done. intros Ha. apply H.
  intros Hx. apply Ha, HXY, Hx.
Qed.

Lemma relinked_outside X h h' a : relinked X h h' → a ∉ X → h' !! a = h !! a.
Proof.
  intros H Ha. specialize (H a). destruct (h !! a), (h' !! a); try done.
  destruct H as (_ & _ & H). by rewrite H.
Qed.

Lemma relinked_Some X h h' a b :
  relinked X h h' → h !! a = Some b →
  ∃ b', h' !! a = Some b' ∧ m_size b' = m_size b ∧ m_tag b' = m_tag b.
Proof.
  intros H Hb. specialize (H a). rewrite Hb in H. destruct (h' !! a); [|done].
  destruct H as (? & ? & _). eauto.
Qed.

Lemma relinked_Some_inv X h h' a b' :
  relinked X h h' → h' !! a = Some b' →
  ∃ b, h !! a = Some b ∧ m_size b' = m_size b ∧ m_tag b' = m_tag b.
Proof.
  intros H Hb. specialize (H a). rewrite Hb in H. destruct (h !! a); [|done].
  destruct H as (? & ? & _). eauto.
Qed.

End Segments.

(** ** The two list surgeries *)

Section Ops.
Context `{PT : purge_tags}.

Lemma get_bucket_eq t s :
  0 <= t < PU_MAX → get_bucket t s = Ret (blockbytag s t) s.
Proof. intros Ht. unfold get_bucket. by rewrite bool_decide_eq_true_2. Qed.

Lemma set_bucket_eq t v s :
  0 <= t < PU_MAX → set_bucket t v s = Ret () (set_blockbytag (<[t := v]>) s).
Proof. intros Ht. unfold set_bucket. by rewrite bool_decide_eq_true_2. Qed.

Lemma bind_assoc {A B C} (c : M A) (k1 : A → M B) (k2 : B → M C) s :
  bind (bind c k1) k2 s = bind c (λ x, bind (k1 x) k2) s.
Proof. unfold bind. by destruct (c s). Qed.

Ltac step_load H :=
  rewrite ?bind_assoc;
  lazymatch goal with
  | |- context [bind (load ?a) ?k ?st] =>
      rewrite (bind_eq (load a) k st _ st (load_Some a _ st H))
  end.
Ltac step_store H :=
  rewrite ?bind_assoc;
  lazymatch goal with
  | |- context [bind (store ?a ?f) ?k ?st] =>
      rewrite (bind_eq (store a f) k st _ _ (store_Some a f _ st H))
  end.
Ltac end_store H :=
  lazymatch goal with
  | |- context [store ?a ?f ?st] => rewrite (store_Some a f _ st H)
  end.
Ltac zsimpl :=
  cbn [blockbytag memory_size free_memory heap mem slots script trace
       set_blockbytag set_free_memory set_heap set_mem set_slots set_script
       log].
Ltac step_get H :=
  rewrite ?bind_assoc;
  lazymatch goal with
  | |- context [bind (get_bucket ?t) ?k ?st] =>
      rewrite (bind_eq (get_bucket t) k st _ _ (get_bucket_eq t st H))
  end; zsimpl.
Ltac step_set H :=
  rewrite ?bind_assoc;
  lazymatch goal with
  | |- context [bind (set_bucket ?t ?v) ?k ?st] =>
      rewrite (bind_eq (set_bucket t v) k st _ _ (set_bucket_eq t v st H))
  end.

Lemma relinked_step X h h' x b b' :
  relinked X h h' → h' !! x = Some b → x ∈ X →
  m_size b' = m_size b → m_tag b' = m_tag b →
  relinked X h (<[x := b']> h').
Proof.
  intros H Hb Hx Hs Ht. eapply relinked_trans; [exact H|].
  by eapply relinked_insert.
Qed.

Lemma unlink_spec s block b rest :
  heap s !! block = Some b → 0 <= m_tag b < PU_MAX →
  block ∉ rest → NoDup rest → cycle (heap s) (block :: rest) →
  ∃ f' h',
    unlink block s =
      Ret () (Zone f' (memory_size s) (free_memory s) h' (mem s) (slots s)
                   (script s) (trace s)) ∧
    (∀ t, t ≠ m_tag b → f' t = blockbytag s t) ∧
    f' (m_tag b) =
      match rest with
      | [] => 0
      | c :: _ => if bool_decide (blockbytag s (m_tag b) = block) then c
                  else blockbytag s (m_tag b)
      end ∧
    m_next b = hd block rest ∧
    relinked (block :: rest) (heap s) h' ∧
    cycle h' rest.
Proof.
  intros Hb Ht Hnin Hnd [pp Hc]%cycle_cons.
  destruct Hc as [_ (b' & Hb' & Hpp & Hseg)].
  assert (b' = b) as -> by congruence. clear Hb'.
  unfold unlink. step_load Hb.
  destruct rest as [|d r' _] using rev_ind.
  - destruct Hseg as [Hn <-].
    rewrite bool_decide_eq_true_2 by done.
    step_set Ht. step_load Hb. rewrite Hpp, Hn. step_store Hb.
    assert (Hb1 : <[block := with_next block b]> (heap s) !! block
                  = Some (with_next block b)) by apply lookup_insert_eq.
    step_load Hb1. simpl m_next. simpl m_prev. rewrite Hpp.
    end_store Hb1.
    eexists _, _. split; [reflexivity|].
    split; [intros t Hne; simpl; by rewrite fn_lookup_insert_ne|].
    split; [simpl; by rewrite fn_lookup_insert|].
    split; [done|]. split; [|apply cycle_nil]. simpl.
    eapply relinked_step; [|exact Hb1|by left|done..].
    eapply relinked_step; [apply relinked_refl|exact Hb|by left|done..].
  - pose proof (dlseg_first _ _ _ _ _ _ Hseg) as Hn.
    remember (m_next b) as c eqn:Hcb.
    assert (Hc : c ∈ r' ++ [d]).
    { rewrite Hn. destruct r'; simpl; left. }
    assert (Hne : block ≠ c) by (intros He; apply Hnin; by rewrite He).
    apply list.NoDup_app in Hnd as (Hnd1 & Hnd2 & _).
    assert (Hd : d ∉ r') by (intros Hd; by apply (Hnd2 d Hd); left).
    pose proof Hseg as (bd & Hseg' & Hbd & Hnd' & ->)%dlseg_snoc.
    assert (Hdb : d ≠ block)
      by (intros ->; apply Hnin, elem_of_app; right; left).
    rewrite bool_decide_eq_false_2 by done.
    step_get Ht.
    pose (f' := if bool_decide (blockbytag s (m_tag b) = block)
                then <[m_tag b := c]> (blockbytag s) else blockbytag s).
    pose (h1 := <[d := with_next c bd]> (heap s)).
    assert (Hseg1 : dlseg h1 (r' ++ [d]) c block c d)
      by (by eapply dlseg_set_last_next).
    assert (Hb1 : h1 !! block = Some b)
      by (unfold h1; by rewrite lookup_insert_ne).
    destruct (dlseg_live _ _ _ _ _ _ _ Hseg1 Hc) as [bc Hbc].
    pose (h2 := <[c := with_prev d bc]> h1).
    assert (Hseg2 : dlseg h2 (r' ++ [d]) c d c d).
    { assert (∃ tl, r' ++ [d] = c :: tl ∧ c ∉ tl) as (tl & Heq & Hctl).
      { destruct r' as [|c' r'']; simpl in Hn; rewrite Hn.
        - exists []. split; [done|apply not_elem_of_nil].
        - exists (r'' ++ [d]). split; [done|].
          simpl in Hnd1. apply list.NoDup_cons in Hnd1 as [Hc1 _].
          intros [?|Hcd%list_elem_of_singleton]%elem_of_app; [done|].
          apply Hd. rewrite <- Hcd. left. }
      rewrite Heq in *. by eapply dlseg_set_first_prev. }
    assert (Hrel : relinked (block :: r' ++ [d]) (heap s) h2).
    { eapply relinked_step; [|exact Hbc|by right|done..].
      eapply relinked_step; [apply relinked_refl|exact Hbd| |done..].
      right. apply elem_of_app. right. left. }
    exists f', h2.
    split.
    { unfold f'. case_bool_decide.
      - step_set Ht. step_load Hb. rewrite Hpp, <- Hcb. step_store Hbd.
        step_load Hb1. rewrite Hpp, <- Hcb. by end_store Hbc.
      - unfold ret at 1. rewrite (bind_eq _ _ _ () s) by done.
        step_load Hb. rewrite Hpp, <- Hcb. step_store Hbd.
        step_load Hb1. rewrite Hpp, <- Hcb. by end_store Hbc. }
    split.
    { intros t Hne'. unfold f'. case_bool_decide; [|done].
      by rewrite fn_lookup_insert_ne. }
    split.
    { unfold f'. rewrite Hn. destruct r'; simpl; case_bool_decide;
        by rewrite ?fn_lookup_insert. }
    split; [done|]. split; [done|]. by exists c, d.
Qed.

Lemma dlseg_back h l p pp q qq :
  l ≠ [] → dlseg h l p pp q qq → ∃ r', l = r' ++ [qq].
Proof.
  destruct l as [|x l _] using rev_ind; [done|].
  intros _ (? & _ & _ & _ & ->)%dlseg_snoc. eauto.
Qed.

Lemma link_spec s tag block bk l :
  0 <= tag < PU_MAX → heap s !! block = Some bk →
  block ∉ l → 0 ∉ l → NoDup l → cycle (heap s) l →
  blockbytag s tag = hd 0 l →
  ∃ f' h',
    link tag block s =
      Ret () (Zone f' (memory_size s) (free_memory s) h' (mem s) (slots s)
                   (script s) (trace s)) ∧
    (∀ t, t ≠ tag → f' t = blockbytag s t) ∧
    f' tag = hd 0 (l ++ [block]) ∧
    relinked (block :: l) (heap s) h' ∧
    cycle h' (l ++ [block]).
Proof.
  intros Ht Hbk Hnin H0 Hnd Hcyc Hhd.
  unfold link. step_get Ht.
  destruct l as [|c tl].
  - simpl in Hhd. rewrite Hhd, bool_decide_eq_true_2 by done.
    step_set Ht. step_store Hbk.
    assert (Hb1 : <[block := with_prev block bk]> (heap s) !! block
                  = Some (with_prev block bk)) by apply lookup_insert_eq.
    end_store Hb1.
    eexists _, _. split; [reflexivity|]. simpl.
    split; [intros t Hne; by rewrite fn_lookup_insert_ne|].
    split; [by rewrite fn_lookup_insert|].
    split.
    + eapply relinked_step; [|exact Hb1|by left|done..].
      eapply relinked_step; [apply relinked_refl|exact Hbk|by left|done..].
    + exists block, block. split; [done|]. eexists.
      rewrite lookup_insert_eq. by repeat split.
  - simpl in Hhd.
    assert (Hc0 : c ≠ 0) by (intros ->; apply H0; left).
    assert (Hcb : c ≠ block) by (intros ->; apply Hnin; left).
    rewrite Hhd, bool_decide_eq_false_2 by done.
    apply cycle_cons in Hcyc as [d Hseg].
    pose proof Hseg as [_ (bc & Hbc & Hbcp & _)].
    assert (∃ r', c :: tl = r' ++ [d]) as [r' Heq].
    { by eapply dlseg_back. }
    assert (Hdl : d ∈ c :: tl) by (rewrite Heq, elem_of_app; right; left).
    assert (Hdb : d ≠ block) by (by intros ->).
    assert (Hdr : d ∉ r').
    { rewrite Heq in Hnd. apply list.NoDup_app in Hnd as (_ & Hnd & _).
      intros Hd. apply (Hnd d Hd). left. }
    destruct (dlseg_live _ _ _ _ _ _ _ Hseg Hdl) as [bd Hbd].
    (* blockbytag[tag]->prev->next = block *)
    step_get Ht. rewrite Hhd. step_load Hbc. rewrite Hbcp. step_store Hbd.
    pose (h1 := <[d := with_next block bd]> (heap s)).
    assert (Hseg1 : dlseg h1 (c :: tl) c d block d).
    { rewrite Heq in *. by eapply dlseg_set_last_next. }
    pose proof Hseg1 as [_ (bc1 & Hbc1 & Hbc1p & _)].
    assert (Hbk1 : h1 !! block = Some bk)
      by (unfold h1; by rewrite lookup_insert_ne).
    (* block->prev = blockbytag[tag]->prev *)
    step_get Ht. rewrite Hhd. step_load Hbc1. rewrite Hbc1p. step_store Hbk1.
    pose (h2 := <[block := with_prev d bk]> h1).
    assert (Hbk2 : h2 !! block = Some (with_prev d bk))
      by apply lookup_insert_eq.
    (* block->next = blockbytag[tag] *)
    step_get Ht. rewrite Hhd. step_store Hbk2.
    pose (h3 := <[block := with_next c (with_prev d bk)]> h2).
    assert (Hbc3 : h3 !! c = Some bc1)
      by (unfold h3, h2; by rewrite !lookup_insert_ne).
    (* blockbytag[tag]->prev = block *)
    step_get Ht. rewrite Hhd. end_store Hbc3.
    pose (h4 := <[c := with_prev block bc1]> h3).
    eexists _, h4. split; [reflexivity|]. simpl.
    split; [done|]. split; [done|].
    assert (Hseg3 : dlseg h3 (c :: tl) c d block d).
    { eapply dlseg_agree; [|exact Hseg1]. intros a Ha. unfold h3, h2.
      rewrite !lookup_insert_ne; [done|by intros ->..]. }
    split.
    + eapply relinked_step; [|exact Hbc3|by right; left|done..].
      eapply relinked_step; [|exact Hbk2|by left|done..].
      eapply relinked_step; [|exact Hbk1|by left|done..].
      eapply relinked_step; [apply relinked_refl|exact Hbd|by right|done..].
    + exists c, block. apply (dlseg_app _ (c :: tl) [block]).
      exists block, d. split.
      * apply list.NoDup_cons in Hnd as [Hctl _].
        by eapply dlseg_set_first_prev.
      * split; [done|]. exists (with_next c (with_prev d bk)).
        unfold h4. rewrite lookup_insert_ne by done. unfold h3.
        rewrite lookup_insert_eq. by repeat split.
Qed.

Lemma round_chunk_eq x :
  round_chunk x = CHUNK_SIZE * (wrap64 (x + (CHUNK_SIZE - 1)) / CHUNK_SIZE).
Proof.
  unfold round_chunk, CHUNK_SIZE.
  change (Z.lnot (32 - 1)) with (Z.lnot (Z.ones 5)).
  rewrite <- Z.ldiff_land, Z.ldiff_ones_r by lia.
  rewrite Z.shiftl_mul_pow2, Z.shiftr_div_pow2 by lia.
  change (2 ^ 5) with 32. lia.
Qed.

Lemma round_chunk_ok x : size_ok (round_chunk x).
Proof.
  rewrite round_chunk_eq. unfold size_ok, wrap64, CHUNK_SIZE.
  pose proof (Z.mod_pos_bound (x + (32 - 1)) (2 ^ 64) ltac:(lia)) as Hw.
  set (w := (x + (32 - 1)) mod 2 ^ 64) in *.
  pose proof (Z.mul_div_le w 32 ltac:(lia)).
  pose proof (Z.div_pos w 32 ltac:(lia) ltac:(lia)).
  split; [lia|]. by rewrite Z.mul_comm, Z.mod_mul.
Qed.

(** Up to [MAX_REQUEST] bytes the rounding is upwards and the byte count of
    the request, header included, does not wrap. *)
Lemma request_fits size :
  0 <= size <= MAX_REQUEST →
  size <= round_chunk size ∧
  wrap64 (round_chunk size + HEADER_SIZE) = round_chunk size + HEADER_SIZE.
Proof.
  intros Hs. rewrite round_chunk_eq.
  unfold wrap64, MAX_REQUEST, CHUNK_SIZE, HEADER_SIZE in *.
  rewrite (Z.mod_small (size + (32 - 1))) by lia.
  pose proof (Z.div_mod (size + (32 - 1)) 32 ltac:(lia)).
  pose proof (Z.mod_pos_bound (size + (32 - 1)) 32 ltac:(lia)).
  split; [lia|]. rewrite Z.mod_small; lia.
Qed.

(** ** The representation invariant *)

Lemma rep_init ceiling m sl sc : rep (zone_init ceiling m sl sc) (λ _, []).
Proof.
  split; simpl.
  - intros a b Hb. by rewrite lookup_empty in Hb.
  - intros a [b Hb]. by rewrite lookup_empty in Hb.
  - intros t a Ha. by apply elem_of_nil in Ha.
  - intros _. apply NoDup_nil_2.
  - intros _. apply cycle_nil.
  - done.
  - intros a b Hb. by rewrite lookup_empty in Hb.
Qed.

Lemma rep_block_addr s L a :
  rep s L → is_Some (heap s !! a) →
  ptr_add a HEADER_SIZE = a + HEADER_SIZE ∧
  ptr_sub (a + HEADER_SIZE) HEADER_SIZE = a ∧ a + HEADER_SIZE ≠ 0 ∧ a ≠ 0.
Proof.
  intros HR Ha. destruct (rep_addr _ _ HR a Ha) as [H1 H2].
  unfold ptr_add, ptr_sub, wrap64, HEADER_SIZE in *.
  replace (a + 32 - 32) with a by lia.
  rewrite !Z.mod_small by lia. lia.
Qed.

Lemma rep_null s L t : rep s L → 0 ∉ L t.
Proof.
  intros HR H0. destruct (rep_tag _ _ HR t 0 H0) as (_ & b & Hb & _).
  destruct (rep_addr _ _ HR 0); [eauto|lia].
Qed.

Lemma rep_disjoint s L t t' a : rep s L → a ∈ L t → a ∈ L t' → t = t'.
Proof.
  intros HR (_ & b & Hb & Ht)%(rep_tag _ _ HR) (_ & b' & Hb' & Ht')%(rep_tag _ _ HR).
  congruence.
Qed.

Lemma relinked_delete X h h' a :
  relinked X h h' → relinked X (delete a h) (delete a h').
Proof.
  intros H x. destruct (decide (x = a)) as [->|Hne].
  - by rewrite !lookup_delete_eq.
  - rewrite !lookup_delete_ne by done. apply H.
Qed.

(** ** Z_Free on a live block *)

Lemma bind_gets {A B} (f : zone → A) (k : A → M B) s :
  bind (gets f) k s = k (f s) s.
Proof. done. Qed.

Lemma bind_modify {B} (f : zone → zone) (k : unit → M B) s :
  bind (modify f) k s = k () (f s).
Proof. done. Qed.

Lemma bind_ret {A B} (a : A) (k : A → M B) s : bind (ret a) k s = k a s.
Proof. done. Qed.

Ltac step_pure := rewrite ?bind_assoc, ?bind_gets, ?bind_modify, ?bind_ret.

Lemma unlink_rep s L block b l1 l2 :
  rep s L → heap s !! block = Some b → L (m_tag b) = l1 ++ block :: l2 →
  ∃ f' h1,
    unlink block s =
      Ret () (Zone f' (memory_size s) (free_memory s) h1 (mem s) (slots s)
                   (script s) (trace s)) ∧
    (∀ ms fm m sl sc tr,
       rep (Zone f' ms fm (delete block h1) m sl sc tr)
           (<[m_tag b := l1 ++ l2]> L)) ∧
    relinked (L (m_tag b)) (heap s) h1 ∧
    m_next b = hd block (l2 ++ l1).
Proof.
  intros HR Hb HL.
  pose proof (rep_nodup _ _ HR (m_tag b)) as Hnd. rewrite HL in Hnd.
  apply list.NoDup_app in Hnd as (Hnd1 & Hnd12 & [Hb2 Hnd2]%list.NoDup_cons).
  assert (Hb1 : block ∉ l1) by (intros H; apply (Hnd12 _ H); left).
  assert (Hbr : block ∉ l2 ++ l1) by (rewrite elem_of_app; tauto).
  assert (Hndr : NoDup (l2 ++ l1)).
  { apply list.NoDup_app. repeat split; try done.
    intros x Hx2 Hx1. apply (Hnd12 _ Hx1). by right. }
  assert (Ht : 0 <= m_tag b < PU_MAX).
  { eapply (rep_tag _ _ HR), (rep_live _ _ HR), Hb. }
  assert (Hcyc : cycle (heap s) (block :: l2 ++ l1)).
  { apply (cycle_rotate _ l1 (block :: l2)). rewrite <- HL.
    apply (rep_cycle _ _ HR). }
  destruct (unlink_spec s block b (l2 ++ l1) Hb Ht Hbr Hndr Hcyc)
    as (f' & h1 & Hun & Hf' & Hft & Hnext & Hrel & Hcyc').
  assert (HX : ∀ a, a ∈ block :: l2 ++ l1 ↔ a ∈ L (m_tag b)).
  { intros a. rewrite HL. set_solver. }
  exists f', h1.
  split; [done|split; [|split; [|done]]].
  - intros ms fm m sl sc tr. split; simpl.
    + intros a ba Ha. apply lookup_delete_Some in Ha as [Hne Ha].
      destruct (relinked_Some_inv _ _ _ _ _ Hrel Ha) as (b0 & Hb0' & _ & Htg0).
      pose proof (rep_live _ _ HR a b0 Hb0') as Hin. rewrite Htg0.
      destruct (decide (m_tag b0 = m_tag b)) as [He|Hne'].
      * rewrite He, fn_lookup_insert. rewrite He, HL in Hin. set_solver.
      * by rewrite fn_lookup_insert_ne.
    + intros a [ba Ha]. apply lookup_delete_Some in Ha as [Hne Ha].
      destruct (relinked_Some_inv _ _ _ _ _ Hrel Ha) as (b0 & Hb0' & _).
      apply (rep_addr _ _ HR). eauto.
    + intros t a Ha.
      assert (Hin : a ∈ L t ∧ a ≠ block).
      { destruct (decide (t = m_tag b)) as [->|Hne'].
        - rewrite fn_lookup_insert in Ha. rewrite HL. set_solver.
        - rewrite fn_lookup_insert_ne in Ha by done. split; [done|].
          intros ->. apply Hne'. eapply (rep_disjoint _ _ _ _ _ HR Ha).
          apply (rep_live _ _ HR _ _ Hb). }
      destruct Hin as [Hin Hne].
      destruct (rep_tag _ _ HR t a Hin) as (Htr & b0 & Hb0' & Htg0).
      split; [done|].
      destruct (relinked_Some _ _ _ _ _ Hrel Hb0') as (b' & Hb' & _ & Htg').
      exists b'. rewrite lookup_delete_ne by done. split; [done|congruence].
    + intros t. destruct (decide (t = m_tag b)) as [->|Hne'].
      * rewrite fn_lookup_insert. apply list.NoDup_app. repeat split; try done.
        intros x Hx1 Hx2. apply (Hnd12 _ Hx1). by right.
      * rewrite fn_lookup_insert_ne by done. apply (rep_nodup _ _ HR).
    + intros t. destruct (decide (t = m_tag b)) as [->|Hne'].
      * rewrite fn_lookup_insert. apply cycle_rotate.
        eapply cycle_agree; [|exact Hcyc'].
        intros a Ha. rewrite lookup_delete_ne; [done|by intros ->].
      * rewrite fn_lookup_insert_ne by done.
        eapply cycle_agree; [|apply (rep_cycle _ _ HR)].
        intros a Ha.
        assert (a ∉ block :: l2 ++ l1).
        { rewrite HX. intros Ha'. apply Hne'.
          by eapply (rep_disjoint _ _ _ _ _ HR). }
        rewrite lookup_delete_ne by set_solver.
        by eapply relinked_outside.
    + intros t Htr. destruct (decide (t = m_tag b)) as [->|Hne'].
      * rewrite fn_lookup_insert, Hft, (rep_head _ _ HR) by done. rewrite HL.
        destruct l1 as [|x l1']; simpl.
        -- rewrite app_nil_r. destruct l2; [done|].
           by rewrite bool_decide_eq_true_2.
        -- assert (x ≠ block) by (intros ->; apply Hb1; left).
           destruct (l2 ++ x :: l1') eqn:E.
           { by destruct l2. }
           by rewrite bool_decide_eq_false_2.
      * rewrite fn_lookup_insert_ne, Hf' by done. by apply (rep_head _ _ HR).
    + intros a ba Ha. apply lookup_delete_Some in Ha as [Hne Ha].
      destruct (relinked_Some_inv _ _ _ _ _ Hrel Ha) as (b0 & Hb0' & -> & _).
      by apply (rep_size _ _ HR a).
  - eapply relinked_mono; [|exact Hrel]. intros a. apply HX.
Qed.

Lemma Z_Free_spec s L block b l1 l2 :
  rep s L → heap s !! block = Some b → L (m_tag b) = l1 ++ block :: l2 →
  ∃ f' h',
    let s' := Zone f' (memory_size s) (sint32 (free_memory s + m_size b)) h'
                   (mem s) (slots s) (script s) (trace s ++ [EvFree block]) in
    Z_Free (block + HEADER_SIZE) s = Ret () s' ∧
    rep s' (<[m_tag b := l1 ++ l2]> L) ∧
    relinked (L (m_tag b)) (delete block (heap s)) h' ∧
    m_next b = hd block (l2 ++ l1).
Proof.
  intros HR Hb HL.
  destruct (rep_block_addr _ _ block HR) as (_ & Hsub & Hp0 & Hb0); [eauto|].
  destruct (unlink_rep s L block b l1 l2 HR Hb HL)
    as (f' & h1 & Hun & HR' & Hrel & Hnext).
  destruct (relinked_Some _ _ _ _ _ Hrel Hb) as (b1 & Hb1' & Hsz & Htg).
  exists f', (delete block h1). simpl.
  split; [|split; [|split; [|done]]].
  - unfold Z_Free. rewrite Hsub.
    rewrite !bool_decide_eq_false_2 by done. simpl.
    rewrite (bind_eq _ _ _ _ _ Hun).
    step_load Hb1'. step_pure.
    unfold ext_free. zsimpl. rewrite Hb1', Hsz. done.
  - apply HR'.
  - by apply relinked_delete.
Qed.

(** ** Evicting a whole bucket *)

Lemma lookup_deletes l h a :
  deletes l h !! a = if decide (a ∈ l) then None else h !! a.
Proof.
  induction l as [|x l IH].
  - destruct (decide (a ∈ [])) as [H|_]; [by apply elem_of_nil in H|done].
  - change (deletes (x :: l) h) with (delete x (deletes l h)).
    destruct (decide (a = x)) as [->|Hne].
    + rewrite lookup_delete_eq, decide_True; [done|left].
    + rewrite lookup_delete_ne, IH by done.
      destruct (decide (a ∈ l)).
      * rewrite decide_True; [done|by right].
      * rewrite decide_False; [done|]. by intros [?|?]%elem_of_cons.
Qed.

Lemma deletes_delete l x h : deletes l (delete x h) = delete x (deletes l h).
Proof.
  induction l as [|y l IH]; [done|].
  change (delete y (deletes l (delete x h)) = delete x (delete y (deletes l h))).
  by rewrite IH, delete_delete.
Qed.

Lemma relinked_deletes X h h' l :
  relinked X h h' → relinked X (deletes l h) (deletes l h').
Proof.
  intros H. induction l as [|y l IH]; [done|]. by apply relinked_delete.
Qed.

Lemma relinked_size X h h' a : relinked X h h' → size_of h' a = size_of h a.
Proof.
  intros H. specialize (H a). unfold size_of.
  destruct (h !! a), (h' !! a); try done. simpl. by destruct H as [-> _].
Qed.

Lemma credit_cons h x l fm :
  credit h (x :: l) fm = credit h l (sint32 (fm + size_of h x)).
Proof. done. Qed.

Lemma credit_agree h h' l fm :
  (∀ a, a ∈ l → size_of h' a = size_of h a) → credit h' l fm = credit h l fm.
Proof.
  revert fm. induction l as [|x l IH]; intros fm Hag; [done|]. simpl.
  rewrite Hag by left. apply IH. intros a Ha. apply Hag. by right.
Qed.

Lemma rep_ext s L L' : (∀ t, L t = L' t) → rep s L → rep s L'.
Proof.
  intros He [H1 H2 H3 H4 H5 H6 H7]. split; intros.
  - rewrite <- He. eauto.
  - eauto.
  - rewrite <- He in *. eauto.
  - rewrite <- He. eauto.
  - rewrite <- He. eauto.
  - rewrite <- He. eauto.
  - eauto.
Qed.

Lemma last_cons (c : Z) l x : List.last (c :: l) x = List.last l c.
Proof.
  revert c x. induction l as [|y r IH]; intros c x; [done|].
  change (List.last (c :: y :: r) x) with (List.last (y :: r) x).
  by rewrite !IH.
Qed.

Lemma last_elem (c : Z) l : List.last l c ∈ c :: l.
Proof.
  revert c. induction l as [|y r IH]; intros c; [left|].
  rewrite last_cons. right. apply IH.
Qed.

(** The invariant reads the bucket table and the headers only. *)
Lemma rep_frame s s' L :
  heap s' = heap s → blockbytag s' = blockbytag s → rep s L → rep s' L.
Proof.
  intros Hh Hf [H1 H2 H3 H4 H5 H6 H7].
  split; rewrite ?Hh, ?Hf; auto.
Qed.

Lemma free_chain_spec rest : ∀ x d s L t fuel,
  rep s L → L t = x :: rest → d = List.last rest x →
  (length rest < fuel)%nat →
  ∃ f' h',
    let s' := Zone f' (memory_size s) (credit (heap s) (x :: rest) (free_memory s))
                   h' (mem s) (slots s) (script s)
                   (trace s ++ map EvFree (x :: rest)) in
    free_chain fuel x d s = Ret () s' ∧
    rep s' (<[t := []]> L) ∧
    relinked (x :: rest) (deletes (x :: rest) (heap s)) h'.
Proof.
  induction rest as [|c rest IH]; intros x d s L t fuel HR HL Hd Hfuel.
  all: destruct fuel as [|fuel]; [simpl in Hfuel; lia|].
  all: assert (Hx : x ∈ L t) by (rewrite HL; left).
  all: destruct (rep_tag _ _ HR t x Hx) as (Ht & b & Hb & Htb).
  all: destruct (rep_block_addr _ _ x HR) as (Hadd & _); [eauto|].
  all: rewrite <- Htb in HL.
  all: destruct (Z_Free_spec s L x b [] _ HR Hb HL)
         as (f1 & h1 & Hfree & HR1 & Hrel1 & Hnext).
  all: simpl in Hfree, HR1, Hnext; rewrite Htb in *.
  all: simpl free_chain; step_load Hb; rewrite Hadd.
  all: rewrite (bind_eq _ _ _ _ _ Hfree).
  - simpl in Hd. rewrite bool_decide_eq_true_2 by done.
    exists f1, h1. split; [|split].
    + unfold ret, credit, size_of. simpl. by rewrite Hb.
    + by eapply rep_frame; [| |exact HR1].
    + eapply relinked_mono; [|exact Hrel1]. rewrite HL. done.
  - assert (Hnd : NoDup (x :: c :: rest)) by (rewrite <- HL; apply (rep_nodup _ _ HR)).
    apply list.NoDup_cons in Hnd as [Hxr Hnd].
    rewrite last_cons in Hd.
    assert (Hne : x ≠ d).
    { intros He. apply Hxr. rewrite He, Hd. apply last_elem. }
    rewrite bool_decide_eq_false_2 by done.
    rewrite Hnext.
    edestruct (IH c d _ _ t fuel HR1) as (f' & h' & Hrun & HR' & Hrel').
    { by rewrite fn_lookup_insert. }
    { done. }
    { simpl in Hfuel. lia. }
    simpl in Hrun, HR', Hrel'.
    exists f', h'. split; [|split].
    + rewrite Hrun. f_equal. f_equal.
      * rewrite <- (credit_cons h1 c rest), (credit_cons (heap s) x).
        replace (size_of (heap s) x) with (m_size b)
          by (unfold size_of; by rewrite Hb).
        apply credit_agree. intros a Ha.
        rewrite (relinked_size _ _ _ a Hrel1). unfold size_of.
        rewrite lookup_delete_ne; [done|]. by intros ->.
      * by rewrite <- app_assoc.
    + eapply rep_frame; [| |eapply rep_ext; [|exact HR']]; [done|done|].
      intros t'.
      destruct (decide (t' = t)) as [->|Hne'].
      * by rewrite !fn_lookup_insert.
      * by rewrite !fn_lookup_insert_ne.
    + eapply relinked_trans.
      * apply (relinked_deletes _ _ _ (c :: rest)) in Hrel1.
        rewrite deletes_delete in Hrel1.
        eapply relinked_mono; [|exact Hrel1]. by rewrite HL.
      * eapply relinked_mono; [|exact Hrel']. intros a Ha. by right.
Qed.

Lemma cycle_prev_last h x rest b :
  cycle h (x :: rest) → h !! x = Some b → m_prev b = List.last rest x.
Proof.
  intros [pp Hseg]%cycle_cons Hb.
  pose proof Hseg as [_ (b' & Hb' & Hpp & _)].
  assert (b' = b) as -> by congruence.
  destruct (dlseg_back _ _ _ _ _ _ (ltac:(done) : x :: rest ≠ []) Hseg)
    as [r' Heq].
  rewrite <- (last_cons x rest x), Heq, last_last. done.
Qed.

Lemma rep_length s L t : rep s L → (length (L t) ≤ base.size (heap s))%nat.
Proof.
  intros HR. rewrite <- size_dom. unfold base.size at 1, set_size. simpl.
  apply submseteq_length, NoDup_submseteq; [apply (rep_nodup _ _ HR)|].
  intros a Ha. apply elem_of_elements, elem_of_dom.
  destruct (rep_tag _ _ HR t a Ha) as (_ & b & Hb & _). eauto.
Qed.

Lemma free_bucket_spec s L t :
  rep s L → 0 <= t < PU_MAX →
  ∃ f' h',
    let s' := Zone f' (memory_size s) (credit (heap s) (L t) (free_memory s))
                   h' (mem s) (slots s) (script s)
                   (trace s ++ map EvFree (L t)) in
    free_bucket t s = Ret () s' ∧
    rep s' (<[t := []]> L) ∧
    relinked (L t) (deletes (L t) (heap s)) h'.
Proof.
  intros HR Ht. unfold free_bucket. step_get Ht.
  rewrite (rep_head _ _ HR t Ht).
  destruct (L t) as [|x rest] eqn:HL; simpl hd.
  - rewrite bool_decide_eq_true_2 by done.
    exists (blockbytag s), (heap s). simpl. rewrite app_nil_r.
    split; [by destruct s|]. split; [|apply relinked_refl].
    eapply rep_frame; [| |eapply rep_ext; [|exact HR]]; [done|done|].
    intros t'. destruct (decide (t' = t)) as [->|Hne].
    + by rewrite fn_lookup_insert.
    + by rewrite fn_lookup_insert_ne.
  - assert (Hx : x ∈ L t) by (rewrite HL; left).
    assert (Hx0 : x ≠ 0) by (intros ->; by apply (rep_null _ _ t HR)).
    destruct (rep_tag _ _ HR t x Hx) as (_ & b & Hb & Htb).
    rewrite bool_decide_eq_false_2 by done.
    step_load Hb. step_pure.
    apply (free_chain_spec rest x (m_prev b) s L t); [done..| |].
    + eapply cycle_prev_last; [|done]. rewrite <- HL. apply (rep_cycle _ _ HR).
    + pose proof (rep_length _ _ t HR) as Hlen. rewrite HL in Hlen.
      unfold fuel_of. simpl in Hlen. lia.
Qed.

Lemma elem_of_members L ts a :
  a ∈ members L ts ↔ ∃ t, t ∈ ts ∧ a ∈ L t.
Proof.
  induction ts as [|t ts IH].
  - split; [by intros ?%elem_of_nil|by intros (? & ?%elem_of_nil & _)].
  - change (members L (t :: ts)) with (L t ++ members L ts).
    rewrite elem_of_app, IH. split.
    + intros [Ha|(t' & Ht' & Ha)]; [exists t|exists t']; split; try done.
      * left.
      * by right.
    + intros (t' & [->|Ht']%elem_of_cons & Ha); eauto.
Qed.

Lemma deletes_comm l1 l2 h : deletes l1 (deletes l2 h) = deletes l2 (deletes l1 h).
Proof.
  apply map_eq. intros a. rewrite !lookup_deletes.
  by destruct (decide (a ∈ l1)), (decide (a ∈ l2)).
Qed.

Lemma deletes_app l1 l2 h : deletes (l1 ++ l2) h = deletes l1 (deletes l2 h).
Proof. unfold deletes. by rewrite foldr_app. Qed.

Lemma for_tags_spec ts : ∀ s L,
  rep s L → NoDup ts → (∀ t, t ∈ ts → 0 <= t < PU_MAX) →
  ∃ f' h',
    let s' := Zone f' (memory_size s)
                   (credit (heap s) (members L ts) (free_memory s))
                   h' (mem s) (slots s) (script s)
                   (trace s ++ map EvFree (members L ts)) in
    for_tags ts free_bucket s = Ret () s' ∧
    rep s' (emptied ts L) ∧
    relinked (members L ts) (deletes (members L ts) (heap s)) h'.
Proof.
  induction ts as [|t ts IH]; intros s L HR Hnd Hts.
  - exists (blockbytag s), (heap s). simpl. rewrite app_nil_r.
    split; [by destruct s|]. split; [|apply relinked_refl].
    eapply rep_frame; [| |eapply rep_ext; [|exact HR]]; [done|done|].
    intros t'. unfold emptied. rewrite decide_False; [done|].
    apply not_elem_of_nil.
  - apply list.NoDup_cons in Hnd as [Ht Hnd].
    destruct (free_bucket_spec s L t HR) as (f1 & h1 & Hrun1 & HR1 & Hrel1).
    { apply Hts. left. }
    destruct (IH _ _ HR1 Hnd) as (f' & h' & Hrun & HR' & Hrel').
    { intros t' Ht'. apply Hts. by right. }
    assert (Hmem : members (<[t := []]> L) ts = members L ts).
    { unfold members. f_equal. apply map_ext_in. intros t' Ht'.
      apply fn_lookup_insert_ne. intros ->. by apply Ht, list_elem_of_In. }
    rewrite Hmem in *. clear Hmem.
    assert (Hall : members L (t :: ts) = L t ++ members L ts) by done.
    exists f', h'. cbv zeta. rewrite Hall. split; [|split].
    + simpl for_tags. rewrite (bind_eq _ _ _ _ _ Hrun1), Hrun.
      cbn [memory_size free_memory heap mem slots script trace].
      f_equal. f_equal.
      * unfold credit at 3. rewrite fold_left_app. fold (credit (heap s)).
        apply credit_agree. intros a Ha.
        rewrite (relinked_size _ _ _ a Hrel1). unfold size_of.
        rewrite lookup_deletes, decide_False; [done|].
        intros HaL. apply elem_of_members in Ha as (t' & Ht' & Ha).
        apply Ht. by rewrite (rep_disjoint _ _ _ _ _ HR HaL Ha).
      * by rewrite map_app, app_assoc.
    + eapply rep_frame; [| |eapply rep_ext; [|exact HR']]; [done|done|].
      intros t'. unfold emptied.
      destruct (decide (t' = t)) as [->|Hne].
      * rewrite fn_lookup_insert, (decide_True (P := t ∈ t :: ts)) by left.
        by destruct (decide (t ∈ ts)).
      * rewrite fn_lookup_insert_ne by done.
        destruct (decide (t' ∈ ts)).
        -- rewrite decide_True; [done|by right].
        -- rewrite decide_False; [done|]. by intros [?|?]%elem_of_cons.
    + eapply relinked_trans.
      * apply (relinked_deletes _ _ _ (members L ts)) in Hrel1.
        rewrite deletes_comm, <- deletes_app in Hrel1.
        eapply relinked_mono; [|exact Hrel1]. intros a Ha.
        apply elem_of_app. by left.
      * eapply relinked_mono; [|exact Hrel']. intros a Ha.
        apply elem_of_app. by right.
Qed.

(** ** Z_FreeTags *)

Context (PT_ok : tags_ok).

Lemma clamp_low_max lowtag : clamp_low lowtag = Z.max lowtag (PU_FREE + 1).
Proof. unfold clamp_low. case_bool_decide; lia. Qed.

Lemma clamp_high_min hightag : clamp_high hightag = Z.min hightag PU_CACHE.
Proof. unfold clamp_high. case_bool_decide; lia. Qed.

Lemma elem_of_tag_range lowtag hightag t :
  t ∈ tag_range lowtag hightag ↔
  Z.max lowtag (PU_FREE + 1) <= t <= Z.min hightag PU_CACHE.
Proof.
  unfold tag_range. rewrite elem_of_seqZ, clamp_low_max, clamp_high_min. lia.
Qed.

Lemma tag_range_valid lowtag hightag t :
  t ∈ tag_range lowtag hightag → 0 <= t < PU_MAX.
Proof.
  rewrite elem_of_tag_range. destruct PT_ok as (? & ? & ? & ?). lia.
Qed.

Lemma Z_FreeTags_spec s L lowtag hightag :
  rep s L →
  let ts := tag_range lowtag hightag in
  ∃ f' h',
    let s' := Zone f' (memory_size s)
                   (credit (heap s) (members L ts) (free_memory s))
                   h' (mem s) (slots s) (script s)
                   (trace s ++ map EvFree (members L ts)) in
    Z_FreeTags lowtag hightag s = Ret () s' ∧
    rep s' (emptied ts L) ∧
    relinked (members L ts) (deletes (members L ts) (heap s)) h'.
Proof.
  intros HR ts. apply for_tags_spec; [done|apply NoDup_seqZ|].
  apply tag_range_valid.
Qed.

Lemma tag_range_cache : tag_range PU_CACHE PU_CACHE = [PU_CACHE].
Proof.
  unfold tag_range. rewrite clamp_low_max, clamp_high_min.
  destruct PT_ok as (? & ? & ? & ?).
  rewrite Z.max_l, Z.min_l by lia.
  replace (PU_CACHE - PU_CACHE + 1) with 1 by lia. done.
Qed.

(** ** Attaching a detached block *)

Lemma dlseg_links h h' l p pp q qq :
  (∀ a b, a ∈ l → h !! a = Some b →
     ∃ b', h' !! a = Some b' ∧ m_next b' = m_next b ∧ m_prev b' = m_prev b) →
  dlseg h l p pp q qq → dlseg h' l p pp q qq.
Proof.
  revert p pp. induction l as [|a l IH]; intros p pp Hl; simpl; [done|].
  intros [-> (b & Hb & Hp & H)]. split; [done|].
  destruct (Hl a b) as (b' & Hb' & Hn' & Hp'); [left|done|].
  exists b'. rewrite Hn', Hp'. repeat split; try done.
  apply IH; [|done]. intros x bx Hx. apply Hl. by right.
Qed.

Lemma link_rep s L tag block bk :
  rep (set_heap (delete block) s) L → heap s !! block = Some bk →
  0 < block ∧ block + HEADER_SIZE < 2 ^ 64 → 0 <= tag < PU_MAX →
  ∃ f' h' bk',
    link tag block s =
      Ret () (Zone f' (memory_size s) (free_memory s) h' (mem s) (slots s)
                   (script s) (trace s)) ∧
    h' !! block = Some bk' ∧ m_size bk' = m_size bk ∧
    relinked (block :: L tag) (heap s) h' ∧
    (∀ bk'' ms fm m sl sc tr,
       m_next bk'' = m_next bk' → m_prev bk'' = m_prev bk' → m_tag bk'' = tag →
       size_ok (m_size bk'') →
       rep (Zone f' ms fm (<[block := bk'']> h') m sl sc tr)
           (<[tag := L tag ++ [block]]> L)).
Proof.
  intros HR Hbk Haddr Ht.
  assert (Hnin : ∀ t, block ∉ L t).
  { intros t Hin. destruct (rep_tag _ _ HR t block Hin) as (_ & b & Hb & _).
    simpl in Hb. by rewrite lookup_delete_eq in Hb. }
  assert (Hcyc : ∀ t, cycle (heap s) (L t)).
  { intros t. eapply cycle_agree; [|apply (rep_cycle _ _ HR t)].
    intros a Ha. simpl. rewrite lookup_delete_ne; [done|].
    intros ->. by apply (Hnin t). }
  destruct (link_spec s tag block bk (L tag) Ht Hbk (Hnin tag)
              (rep_null _ _ tag HR) (rep_nodup _ _ HR tag) (Hcyc tag)
              (rep_head _ _ HR tag Ht))
    as (f' & h' & Hrun & Hf' & Hft & Hrel & Hcyc').
  destruct (relinked_Some _ _ _ _ _ Hrel Hbk) as (bk' & Hbk' & Hsz & _).
  exists f', h', bk'. repeat (split; [done|]).
  intros bk'' ms fm m sl sc tr Hn Hp Htg Hsok.
  assert (Hold : ∀ a b, a ≠ block → h' !! a = Some b →
                 ∃ b0, delete block (heap s) !! a = Some b0 ∧
                       m_tag b = m_tag b0 ∧ m_size b = m_size b0).
  { intros a b Hne Hb.
    destruct (relinked_Some_inv _ _ _ _ _ Hrel Hb) as (b0 & Hb0 & Hsz0 & Htg0).
    exists b0. by rewrite lookup_delete_ne. }
  assert (Hnew : ∀ t a, a ∈ L t →
                 a ≠ block ∧ ∃ b, h' !! a = Some b ∧ m_tag b = t).
  { intros t a Ha. assert (a ≠ block) by (intros ->; by apply (Hnin t)).
    split; [done|].
    destruct (rep_tag _ _ HR t a Ha) as (_ & b0 & Hb0 & Htg0). simpl in Hb0.
    rewrite lookup_delete_ne in Hb0 by done.
    destruct (relinked_Some _ _ _ _ _ Hrel Hb0) as (b & Hb & _ & Htg').
    exists b. split; [done|congruence]. }
  split; simpl.
  - intros a b Hb. destruct (decide (a = block)) as [->|Hne].
    + rewrite lookup_insert_eq in Hb. injection Hb as <-.
      rewrite Htg, fn_lookup_insert, elem_of_app. right. left.
    + rewrite lookup_insert_ne in Hb by done.
      destruct (Hold a b Hne Hb) as (b0 & Hb0 & -> & _).
      pose proof (rep_live _ _ HR a b0 Hb0) as Hin.
      destruct (decide (m_tag b0 = tag)) as [<-|Hne'].
      * rewrite fn_lookup_insert, elem_of_app. by left.
      * by rewrite fn_lookup_insert_ne.
  - intros a [b Hb]. destruct (decide (a = block)) as [->|Hne]; [done|].
    rewrite lookup_insert_ne in Hb by done.
    destruct (Hold a b Hne Hb) as (b0 & Hb0 & _).
    apply (rep_addr _ _ HR). simpl. eauto.
  - intros t a Ha.
    destruct (decide (t = tag)) as [->|Hne'].
    + split; [done|]. rewrite fn_lookup_insert in Ha.
      apply elem_of_app in Ha as [Ha| ->%list_elem_of_singleton].
      * destruct (Hnew _ _ Ha) as (Hne & b & Hb & Htb).
        exists b. by rewrite lookup_insert_ne.
      * exists bk''. by rewrite lookup_insert_eq.
    + rewrite fn_lookup_insert_ne in Ha by done.
      split; [by apply (rep_tag _ _ HR t a)|].
      destruct (Hnew _ _ Ha) as (Hne & b & Hb & Htb).
      exists b. by rewrite lookup_insert_ne.
  - intros t. destruct (decide (t = tag)) as [->|Hne'].
    + rewrite fn_lookup_insert. apply list.NoDup_app.
      split; [apply (rep_nodup _ _ HR)|]. split; [|apply NoDup_singleton].
      intros x Hx ->%list_elem_of_singleton. by apply (Hnin tag).
    + rewrite fn_lookup_insert_ne by done. apply (rep_nodup _ _ HR).
  - intros t. destruct (decide (t = tag)) as [->|Hne'].
    + rewrite fn_lookup_insert. destruct Hcyc' as (p & pp & Hseg).
      exists p, pp. eapply dlseg_links; [|exact Hseg].
      intros a b Ha Hb. destruct (decide (a = block)) as [->|Hne].
      * exists bk''. rewrite lookup_insert_eq.
        assert (b = bk') as -> by congruence. done.
      * exists b. by rewrite lookup_insert_ne.
    + rewrite fn_lookup_insert_ne by done.
      eapply cycle_agree; [|apply (Hcyc t)].
      intros a Ha. assert (a ≠ block) by (intros ->; by apply (Hnin t)).
      rewrite lookup_insert_ne by done.
      eapply relinked_outside; [exact Hrel|].
      intros [?|Htag]%elem_of_cons; [done|].
      apply Hne'. by eapply (rep_disjoint _ _ _ _ _ HR).
  - intros t Htr. destruct (decide (t = tag)) as [->|Hne'].
    + by rewrite fn_lookup_insert.
    + rewrite fn_lookup_insert_ne, Hf' by done. by apply (rep_head _ _ HR).
  - intros a b Hb. destruct (decide (a = block)) as [->|Hne].
    + rewrite lookup_insert_eq in Hb. by injection Hb as <-.
    + rewrite lookup_insert_ne in Hb by done.
      destruct (Hold a b Hne Hb) as (b0 & Hb0 & _ & ->).
      by apply (rep_size _ _ HR a).
Qed.

Lemma uchar_tag tag : 0 <= tag < PU_MAX → uchar tag = tag.
Proof.
  intros Ht. destruct PT_ok as (_ & _ & _ & ?). unfold uchar.
  apply Z.mod_small. lia.
Qed.

(** ** Z_ChangeTag on a live block *)

Lemma Z_ChangeTag_spec s L block b l1 l2 tag :
  rep s L → heap s !! block = Some b → L (m_tag b) = l1 ++ block :: l2 →
  0 <= tag < PU_MAX → tag ≠ m_tag b →
  ∃ f' h' b',
    let s' := Zone f' (memory_size s) (free_memory s) h' (mem s) (slots s)
                   (script s) (trace s) in
    Z_ChangeTag (block + HEADER_SIZE) tag s = Ret () s' ∧
    h' !! block = Some b' ∧ m_tag b' = tag ∧ m_size b' = m_size b ∧
    rep s' (<[tag := L tag ++ [block]]> (<[m_tag b := l1 ++ l2]> L)) ∧
    relinked (L (m_tag b) ++ L tag) (delete block (heap s)) (delete block h').
Proof.
  intros HR Hb HL Ht Hne.
  destruct (rep_block_addr _ _ block HR) as (_ & Hsub & Hp0 & Hb0); [eauto|].
  destruct (unlink_rep s L block b l1 l2 HR Hb HL)
    as (f1 & h1 & Hun & HR1 & Hrel1 & _).
  destruct (relinked_Some _ _ _ _ _ Hrel1 Hb) as (b1 & Hb1 & Hsz1 & Htg1).
  set (s1 := Zone f1 (memory_size s) (free_memory s) h1 (mem s) (slots s)
                  (script s) (trace s)) in *.
  destruct (link_rep s1 (<[m_tag b := l1 ++ l2]> L) tag block b1)
    as (f2 & h2 & b2 & Hlink & Hb2 & Hsz2 & Hrel2 & HR2);
    [apply HR1|done|apply (rep_addr _ _ HR); eauto|done|].
  rewrite fn_lookup_insert_ne in Hrel2, HR2 by done.
  exists f2, (<[block := with_tag tag b2]> h2), (with_tag tag b2). cbv zeta.
  split; [|split; [apply lookup_insert_eq|split; [done|split; [|split]]]].
  - unfold Z_ChangeTag. rewrite Hsub, bool_decide_eq_false_2 by done.
    step_load Hb. rewrite bool_decide_eq_false_2 by done.
    rewrite (bind_eq _ _ _ _ _ Hun). rewrite (bind_eq _ _ _ _ _ Hlink).
    rewrite uchar_tag by done. by end_store Hb2.
  - simpl. congruence.
  - apply HR2; try done. simpl. rewrite Hsz2, Hsz1.
    by apply (rep_size _ _ HR block).
  - rewrite delete_insert_eq.
    eapply relinked_trans.
    + apply relinked_delete. eapply relinked_mono; [|exact Hrel1].
      intros a Ha. apply elem_of_app. by left.
    + simpl in Hrel2. intros a. destruct (decide (a = block)) as [->|Hab].
      * by rewrite !lookup_delete_eq.
      * rewrite !lookup_delete_ne by done. specialize (Hrel2 a).
        destruct (h1 !! a), (h2 !! a); try done.
        destruct Hrel2 as (? & ? & Hout). repeat split; try done.
        intros Ha. apply Hout. intros [?|?]%elem_of_cons; [done|].
        apply Ha, elem_of_app. by right.
Qed.

(** ** Registering fresh storage (lines 177-199) *)

Lemma register_spec s0 s L r size tag user :
  rep s0 L → heap s0 !! r = None → 0 < r ∧ r + HEADER_SIZE < 2 ^ 64 →
  heap s = <[r := junk]> (heap s0) → blockbytag s = blockbytag s0 →
  0 <= tag < PU_MAX → size_ok size →
  ∃ f' h' b',
    let p := r + HEADER_SIZE in
    let s' := Zone f' (memory_size s) (sint32 (free_memory s - size)) h'
                   (mem s)
                   (if bool_decide (user = 0) then slots s
                    else <[user := p]> (slots s))
                   (script s) (trace s) in
    register size tag user r s = Ret p s' ∧
    h' !! r = Some b' ∧ m_tag b' = tag ∧ m_size b' = size ∧
    rep s' (<[tag := L tag ++ [r]]> L) ∧
    relinked (L tag) (heap s0) (delete r h').
Proof.
  intros HR Hfresh Haddr Hheap Hbbt Ht Hsok.
  assert (Hjunk : heap s !! r = Some junk) by (rewrite Hheap; apply lookup_insert_eq).
  destruct (link_rep s L tag r junk) as (f1 & h1 & b1 & Hlink & Hb1 & _ & Hrel & HR1);
    [|done..|].
  { eapply rep_frame; [| |exact HR]; simpl; [|done].
    by rewrite Hheap, delete_insert_eq, delete_id. }
  assert (Hadd : ptr_add r HEADER_SIZE = r + HEADER_SIZE).
  { unfold ptr_add, wrap64. apply Z.mod_small. unfold HEADER_SIZE in *. lia. }
  set (b2 := with_tag tag (with_size size b1)).
  exists f1, (<[r := b2]> h1), b2. cbv zeta.
  split; [|split; [apply lookup_insert_eq|split; [done|split; [done|split]]]].
  - unfold register. rewrite (bind_eq _ _ _ _ _ Hlink).
    step_store Hb1. zsimpl.
    assert (Hb1' : <[r := with_size size b1]> h1 !! r = Some (with_size size b1))
      by apply lookup_insert_eq.
    step_load Hb1'. step_pure. zsimpl. step_store Hb1'.
    unfold set_heap, set_free_memory. zsimpl.
    rewrite insert_insert_eq, uchar_tag, Hadd by done. simpl m_size.
    case_bool_decide; by step_pure.
  - by apply HR1.
  - rewrite delete_insert_eq. intros a. specialize (Hrel a).
    destruct (decide (a = r)) as [->|Har].
    + by rewrite lookup_delete_eq, Hfresh.
    + rewrite lookup_delete_ne by done. rewrite Hheap, lookup_insert_ne in Hrel by done.
      destruct (heap s0 !! a), (h1 !! a); try done.
      destruct Hrel as (? & ? & Hout). repeat split; try done.
      intros Ha. apply Hout. by intros [?|?]%elem_of_cons.
Qed.

(** ** The proactive pass *)

Lemma purge_count_agree h h' ms size l fm :
  (∀ a, a ∈ l → size_of h' a = size_of h a) →
  purge_count h' ms size l fm = purge_count h ms size l fm.
Proof.
  revert fm. induction l as [|x l IH]; intros fm Hag; [done|]. simpl.
  rewrite Hag by left. rewrite IH; [done|]. intros a Ha. apply Hag. by right.
Qed.

Lemma purge_count_le h ms size l fm :
  (purge_count h ms size l fm ≤ length l)%nat.
Proof.
  revert fm. induction l as [|x l IH]; intros fm; simpl; [done|].
  destruct (short_of _ _ _); [|lia]. specialize (IH (sint32 (fm + size_of h x))). lia.
Qed.

Lemma purge_chain_spec size rest : ∀ x d s L t fuel,
  rep s L → L t = x :: rest → d = List.last rest x →
  (length rest < fuel)%nat →
  let k := purge_count (heap s) (memory_size s) size (x :: rest) (free_memory s) in
  ∃ f' h',
    let s' := Zone f' (memory_size s)
                   (credit (heap s) (take k (x :: rest)) (free_memory s))
                   h' (mem s) (slots s) (script s)
                   (trace s ++ map EvFree (take k (x :: rest))) in
    purge_chain fuel size x d s = Ret () s' ∧
    rep s' (<[t := drop k (x :: rest)]> L) ∧
    relinked (x :: rest) (deletes (take k (x :: rest)) (heap s)) h'.
Proof.
  induction rest as [|c rest IH]; intros x d s L t fuel HR HL Hd Hfuel.
  all: destruct fuel as [|fuel]; [simpl in Hfuel; lia|].
  all: assert (Hx : x ∈ L t) by (rewrite HL; left).
  all: destruct (rep_tag _ _ HR t x Hx) as (Ht & b & Hb & Htb).
  all: destruct (rep_block_addr _ _ x HR) as (Hadd & _); [eauto|].
  all: rewrite <- Htb in HL.
  all: destruct (Z_Free_spec s L x b [] _ HR Hb HL)
         as (f1 & h1 & Hfree & HR1 & Hrel1 & Hnext).
  all: simpl in Hfree, HR1, Hnext; rewrite Htb in *.
  all: assert (Hsz : size_of (heap s) x = m_size b)
         by (unfold size_of; by rewrite Hb).
  all: cbn [purge_count]; rewrite Hsz.
  all: cbn [purge_chain]; step_load Hb; rewrite Hadd.
  all: rewrite (bind_eq _ _ _ _ _ Hfree); step_pure; zsimpl.
  - simpl in Hd. rewrite (bool_decide_eq_true_2 (x = d)) by done.
    rewrite orb_true_r.
    assert (Hk : (if short_of (sint32 (free_memory s + m_size b))
                       (memory_size s) size then 1%nat else 1%nat) = 1%nat)
      by (by destruct (short_of _ _ _)).
    rewrite Hk. exists f1, h1. split; [|split].
    + unfold ret, credit. simpl. by rewrite Hsz.
    + by eapply rep_frame; [| |exact HR1].
    + eapply relinked_mono; [|exact Hrel1]. rewrite HL. done.
  - rewrite last_cons in Hd.
    assert (Hnd : NoDup (x :: c :: rest)) by (rewrite <- HL; apply (rep_nodup _ _ HR)).
    apply list.NoDup_cons in Hnd as [Hxr Hnd].
    assert (Hne : x ≠ d).
    { intros He. apply Hxr. rewrite He, Hd. apply last_elem. }
    rewrite (bool_decide_eq_false_2 (x = d)) by done. rewrite orb_false_r.
    destruct (short_of (sint32 (free_memory s + m_size b)) (memory_size s) size)
      eqn:Hshort; cbn [negb].
    + rewrite Hnext.
      edestruct (IH c d _ _ t fuel HR1) as (f' & h' & Hrun & HR' & Hrel').
      { by rewrite fn_lookup_insert. }
      { done. }
      { simpl in Hfuel. lia. }
      cbn [memory_size free_memory heap mem slots script trace] in Hrun, HR', Hrel'.
      assert (Hpc : ∀ fm, purge_count h1 (memory_size s) size (c :: rest) fm
                = purge_count (heap s) (memory_size s) size (c :: rest) fm).
      { intros fm. apply purge_count_agree. intros a Ha.
        rewrite (relinked_size _ _ _ a Hrel1). unfold size_of.
        rewrite lookup_delete_ne; [done|]. by intros ->. }
      rewrite Hpc in Hrun, HR', Hrel'.
      set (k := purge_count (heap s) (memory_size s) size (c :: rest)
                  (sint32 (free_memory s + m_size b))) in *.
      exists f', h'. split; [|split].
      * rewrite Hrun. f_equal. f_equal.
        -- rewrite firstn_cons, (credit_cons (heap s) x), Hsz.
           apply credit_agree. intros a Ha.
           rewrite (relinked_size _ _ _ a Hrel1). unfold size_of.
           rewrite lookup_delete_ne; [done|]. intros ->.
           apply Hxr. by eapply subseteq_take.
        -- rewrite firstn_cons. by rewrite <- app_assoc.
      * eapply rep_frame; [| |eapply rep_ext; [|exact HR']]; [done|done|].
        intros t'. destruct (decide (t' = t)) as [->|Hne'].
        -- by rewrite !fn_lookup_insert.
        -- by rewrite !fn_lookup_insert_ne.
      * rewrite firstn_cons. eapply relinked_trans.
        -- apply (relinked_deletes _ _ _ (take k (c :: rest))) in Hrel1.
           rewrite deletes_delete in Hrel1.
           eapply relinked_mono; [|exact Hrel1]. by rewrite HL.
        -- eapply relinked_mono; [|exact Hrel']. intros a Ha. by right.
    + exists f1, h1. split; [|split].
      * unfold ret, credit. simpl. by rewrite Hsz.
      * by eapply rep_frame; [| |exact HR1].
      * eapply relinked_mono; [|exact Hrel1]. rewrite HL. done.
Qed.

Lemma cache_valid : 0 <= PU_CACHE < PU_MAX.
Proof. destruct PT_ok as (? & ? & ? & ?). lia. Qed.

Lemma rep_insert_id s L t l : rep s L → L t = l → rep s (<[t := l]> L).
Proof.
  intros HR <-. eapply rep_ext; [|exact HR].
  intros t'. destruct (decide (t' = t)) as [->|Hne].
  - by rewrite fn_lookup_insert.
  - by rewrite fn_lookup_insert_ne.
Qed.

Lemma zone_eta s :
  Zone (blockbytag s) (memory_size s) (credit (heap s) [] (free_memory s))
       (heap s) (mem s) (slots s) (script s) (trace s ++ map EvFree []) = s.
Proof. destruct s. simpl. by rewrite app_nil_r. Qed.

Lemma purge_pass_spec s L size :
  rep s L →
  let l := L PU_CACHE in
  let k := purge_plan s l size in
  ∃ f' h',
    let s' := Zone f' (memory_size s)
                   (credit (heap s) (take k l) (free_memory s))
                   h' (mem s) (slots s) (script s)
                   (trace s ++ map EvFree (take k l)) in
    purge_pass size s = Ret () s' ∧
    rep s' (<[PU_CACHE := drop k l]> L) ∧
    relinked l (deletes (take k l) (heap s)) h'.
Proof.
  intros HR l k. unfold purge_pass. step_pure. subst k. unfold purge_plan.
  destruct (bool_decide (memory_size s > 0)
            && short_of (free_memory s) (memory_size s) size).
  - step_get cache_valid. rewrite (rep_head _ _ HR _ cache_valid).
    fold l. destruct l as [|x rest] eqn:HL; simpl hd.
    + rewrite bool_decide_eq_true_2 by done.
      exists (blockbytag s), (heap s). cbn [purge_count take drop].
      split; [by rewrite zone_eta|]. split; [|apply relinked_refl].
      eapply rep_frame; [| |apply rep_insert_id; [exact HR|]]; done.
    + assert (Hx : x ∈ L PU_CACHE) by (subst l; rewrite HL; left).
      assert (Hx0 : x ≠ 0) by (intros ->; by apply (rep_null _ _ PU_CACHE HR)).
      destruct (rep_tag _ _ HR _ x Hx) as (_ & b & Hb & Htb).
      rewrite bool_decide_eq_false_2 by done.
      step_load Hb. step_pure.
      apply (purge_chain_spec size rest x (m_prev b) s L PU_CACHE); [done..| |].
      * eapply cycle_prev_last; [|done]. rewrite <- HL. apply (rep_cycle _ _ HR).
      * pose proof (rep_length _ _ PU_CACHE HR) as Hlen. fold l in Hlen.
        rewrite HL in Hlen. unfold fuel_of. simpl in Hlen. lia.
  - exists (blockbytag s), (heap s). rewrite take_0, drop_0.
    split; [by rewrite zone_eta|]. split; [|apply relinked_refl].
    eapply rep_frame; [| |apply rep_insert_id; [exact HR|]]; done.
Qed.

(** ** The request and its retries *)

Lemma offer_fresh s :
  offer s ≠ 0 →
  0 < offer s ∧ offer s + HEADER_SIZE < 2 ^ 64 ∧ heap s !! offer s = None.
Proof.
  unfold offer. destruct (script s) as [|c rest]; [by intros []|].
  case_bool_decide; [done|by intros []].
Qed.

Lemma ext_malloc_granted n s :
  offer s ≠ 0 → ext_malloc n s = Ret (offer s) (granted n (offer s) s).
Proof.
  unfold offer, ext_malloc, granted.
  destruct (script s) as [|c rest]; [by intros []|].
  case_bool_decide; [done|by intros []].
Qed.

Lemma ext_malloc_refused n s :
  offer s = 0 → ext_malloc n s = Ret 0 (refused n s).
Proof.
  destruct s as [f ms fm h m sl sc tr].
  unfold offer, ext_malloc, refused. simpl. destruct sc as [|c rest]; [done|].
  case_bool_decide; [|done]. intros ->. lia.
Qed.

Lemma alloc_retry_spec s L size fuel :
  rep s L → (2 ≤ fuel)%nat →
  let n := wrap64 (size + HEADER_SIZE) in
  let l := L PU_CACHE in
  (offer s ≠ 0 →
     alloc_retry fuel size s = Ret (offer s) (granted n (offer s) s)) ∧
  (offer s = 0 → l = [] → alloc_retry fuel size s = Fatal (refused n s)) ∧
  (offer s = 0 → l ≠ [] →
     ∃ f' h',
       let s2 := Zone f' (memory_size s) (credit (heap s) l (free_memory s))
                      h' (mem s) (slots s) (tail (script s))
                      ((trace s ++ [EvMalloc n 0]) ++ map EvFree l) in
       Z_FreeTags PU_CACHE PU_CACHE (refused n s) = Ret () s2 ∧
       rep s2 (<[PU_CACHE := []]> L) ∧
       relinked l (deletes l (heap s)) h' ∧
       (offer s2 ≠ 0 →
          alloc_retry fuel size s = Ret (offer s2) (granted n (offer s2) s2)) ∧
       (offer s2 = 0 → alloc_retry fuel size s = Fatal (refused n s2))).
Proof.
  intros HR Hfuel n l. destruct fuel as [|[|fuel]]; [lia..|].
  assert (HRr : rep (refused n s) L) by (by eapply rep_frame; [| |exact HR]).
  split; [|split].
  - intros Ho. cbn [alloc_retry]. fold n.
    rewrite (bind_eq _ _ _ _ _ (ext_malloc_granted n s Ho)).
    by rewrite bool_decide_eq_false_2.
  - intros Ho Hl. cbn [alloc_retry]. fold n.
    rewrite (bind_eq _ _ _ _ _ (ext_malloc_refused n s Ho)).
    rewrite bool_decide_eq_true_2 by done.
    step_get cache_valid. rewrite (rep_head _ _ HRr _ cache_valid).
    fold l. rewrite Hl. simpl hd. rewrite bool_decide_eq_true_2 by done.
    done.
  - intros Ho Hl.
    destruct (Z_FreeTags_spec (refused n s) L PU_CACHE PU_CACHE HRr)
      as (f' & h' & Hrun & HR' & Hrel).
    rewrite tag_range_cache in Hrun, HR', Hrel.
    unfold members in Hrun, HR', Hrel. simpl concat in Hrun, HR', Hrel.
    rewrite app_nil_r in Hrun, HR', Hrel. fold l in Hrun, HR', Hrel.
    cbn [refused log set_script memory_size free_memory heap mem slots script
         trace] in Hrun, HR', Hrel.
    exists f', h'. cbv zeta.
    assert (HR2 : rep (Zone f' (memory_size s) (credit (heap s) l (free_memory s))
                         h' (mem s) (slots s) (tail (script s))
                         ((trace s ++ [EvMalloc n 0]) ++ map EvFree l))
                      (<[PU_CACHE := []]> L)).
    { eapply rep_ext; [|exact HR']. intros t. unfold emptied.
      destruct (decide (t = PU_CACHE)) as [->|Hne].
      - rewrite fn_lookup_insert, decide_True; [done|left].
      - rewrite fn_lookup_insert_ne, decide_False; [done| |done].
        by intros ?%list_elem_of_singleton. }
    split; [exact Hrun|]. split; [exact HR2|]. split; [exact Hrel|].
    assert (Hstep : ∀ k,
      (let* block := ext_malloc n in
       if bool_decide (block = 0) then
         (let* c := get_bucket PU_CACHE in
          if bool_decide (c = 0) then I_Error else ret ()) ;;;
         Z_FreeTags PU_CACHE PU_CACHE ;;; k
       else ret block) s =
      (Z_FreeTags PU_CACHE PU_CACHE ;;; k) (refused n s)).
    { intros k. rewrite (bind_eq _ _ _ _ _ (ext_malloc_refused n s Ho)).
      rewrite bool_decide_eq_true_2 by done.
      step_get cache_valid.
      rewrite (rep_head _ _ HRr _ cache_valid). fold l.
      destruct l as [|x rest] eqn:HL; [done|]. simpl hd.
      assert (Hx0 : x ≠ 0).
      { intros ->. apply (rep_null _ _ PU_CACHE HR). fold l. rewrite HL. left. }
      rewrite bool_decide_eq_false_2 by done. by step_pure. }
    split.
    + intros Ho2. cbn [alloc_retry]. fold n. rewrite Hstep.
      rewrite (bind_eq _ _ _ _ _ Hrun).
      rewrite (bind_eq _ _ _ _ _ (ext_malloc_granted n _ Ho2)).
      by rewrite bool_decide_eq_false_2.
    + intros Ho2. cbn [alloc_retry]. fold n. rewrite Hstep.
      rewrite (bind_eq _ _ _ _ _ Hrun).
      rewrite (bind_eq _ _ _ _ _ (ext_malloc_refused n _ Ho2)).
      rewrite bool_decide_eq_true_2 by done.
      pose proof (rep_head _ _ HR2 _ cache_valid) as Hh.
      rewrite fn_lookup_insert in Hh. simpl in Hh.
      step_get cache_valid. unfold refused. zsimpl. rewrite Hh.
      by rewrite bool_decide_eq_true_2.
Qed.

(** ** Z_Malloc *)

Lemma fuel_of_ge s : (2 ≤ fuel_of s)%nat.
Proof. unfold fuel_of. lia. Qed.

Lemma Z_Malloc_zero s tag user :
  Z_Malloc 0 tag user s =
    Ret 0 (if bool_decide (user = 0) then s
           else set_slots (<[user := 0]>) s).
Proof.
  unfold Z_Malloc. rewrite bool_decide_eq_true_2 by done.
  by case_bool_decide.
Qed.

Lemma Z_Malloc_unfold size tag user s :
  size ≠ 0 →
  Z_Malloc size tag user s =
    (purge_pass (round_chunk size) ;;;
     let* fuel := gets fuel_of in
     let* block := alloc_retry fuel (round_chunk size) in
     register (round_chunk size) tag user block) s.
Proof. intros Hs. unfold Z_Malloc. by rewrite bool_decide_eq_false_2. Qed.

Lemma survivors_relinked X l h h' :
  relinked X (deletes l h) h' → survivors h h'.
Proof.
  intros Hrel a b' Hb'.
  destruct (relinked_Some_inv _ _ _ _ _ Hrel Hb') as (b & Hb & Hsz & Htg).
  rewrite lookup_deletes in Hb. destruct (decide (a ∈ l)); [done|]. eauto.
Qed.

Lemma survivors_trans h1 h2 h3 :
  survivors h1 h2 → survivors h2 h3 → survivors h1 h3.
Proof.
  intros H12 H23 a b3 Hb3.
  destruct (H23 a b3 Hb3) as (b2 & Hb2 & Hs2 & Ht2).
  destruct (H12 a b2 Hb2) as (b1 & Hb1 & Hs1 & Ht1).
  exists b1. split; [done|]. split; congruence.
Qed.

Lemma Z_Malloc_spec s L size tag user :
  rep s L → size ≠ 0 → 0 <= tag < PU_MAX →
  (∃ s', Z_Malloc size tag user s = Fatal s') ∨
  (∃ r b' s' L0,
     Z_Malloc size tag user s = Ret (r + HEADER_SIZE) s' ∧
     rep s' (<[tag := L0 tag ++ [r]]> L0) ∧
     heap s' !! r = Some b' ∧ m_tag b' = tag ∧ m_size b' = round_chunk size ∧
     (0 < r ∧ r + HEADER_SIZE < 2 ^ 64) ∧
     slots s' = (if bool_decide (user = 0) then slots s
                 else <[user := r + HEADER_SIZE]> (slots s)) ∧
     memory_size s' = memory_size s ∧ mem s' = mem s ∧
     (∀ t, t ≠ PU_CACHE → L0 t = L t) ∧
     (∃ k, L0 PU_CACHE = drop k (L PU_CACHE)) ∧
     survivors (heap s) (delete r (heap s'))).
Proof.
  intros HR Hs Ht. rewrite Z_Malloc_unfold by done.
  set (sz := round_chunk size).
  destruct (purge_pass_spec s L sz HR) as (f1 & h1 & Hpurge & HR1 & Hrel1).
  apply survivors_relinked in Hrel1.
  set (k := purge_plan s (L PU_CACHE) sz) in *.
  set (L1 := <[PU_CACHE := drop k (L PU_CACHE)]> L) in *.
  set (s1 := Zone f1 _ _ h1 _ _ _ _) in *.
  rewrite (bind_eq _ _ _ _ _ Hpurge). step_pure.
  destruct (alloc_retry_spec s1 L1 sz (fuel_of s1) HR1 (fuel_of_ge s1))
    as (HA & HB & HC).
  set (n := wrap64 (sz + HEADER_SIZE)) in *.
  assert (Hfin : ∀ sx Lx,
     rep sx Lx → offer sx ≠ 0 →
     slots sx = slots s → memory_size sx = memory_size s → mem sx = mem s →
     (∀ t, t ≠ PU_CACHE → Lx t = L t) →
     (∃ k, Lx PU_CACHE = drop k (L PU_CACHE)) →
     survivors (heap s) (heap sx) →
     ∃ r b' s' L0,
       register sz tag user (offer sx) (granted n (offer sx) sx)
         = Ret (r + HEADER_SIZE) s' ∧
       rep s' (<[tag := L0 tag ++ [r]]> L0) ∧
       heap s' !! r = Some b' ∧ m_tag b' = tag ∧ m_size b' = sz ∧
       (0 < r ∧ r + HEADER_SIZE < 2 ^ 64) ∧
       slots s' = (if bool_decide (user = 0) then slots s
                   else <[user := r + HEADER_SIZE]> (slots s)) ∧
       memory_size s' = memory_size s ∧ mem s' = mem s ∧
       (∀ t, t ≠ PU_CACHE → L0 t = L t) ∧
       (∃ k, L0 PU_CACHE = drop k (L PU_CACHE)) ∧
       survivors (heap s) (delete r (heap s'))).
  { intros sx Lx HRx Ho Hsl Hms Hm HLx HLc Hsurv.
    destruct (offer_fresh _ Ho) as (Hr0 & Hr1 & Hfresh).
    destruct (register_spec sx (granted n (offer sx) sx) Lx (offer sx) sz tag user
                HRx Hfresh (conj Hr0 Hr1) eq_refl eq_refl Ht
                (round_chunk_ok size))
      as (f' & h' & b' & Hreg & Hb' & Htag & Hsize & HR' & Hrel).
    eexists (offer sx), b', _, Lx. split; [exact Hreg|].
    split; [exact HR'|]. cbn [heap slots memory_size mem granted log set_script
                               set_heap].
    rewrite Hsl, Hms, Hm. repeat (split; [done|]).
    eapply survivors_trans; [exact Hsurv|].
    apply (survivors_relinked (Lx tag) []). exact Hrel. }
  destruct (decide (offer s1 = 0)) as [Ho|Ho].
  - destruct (decide (L1 PU_CACHE = [])) as [Hl|Hl].
    + left. eexists. unfold bind at 1. by rewrite (HB Ho Hl).
    + destruct (HC Ho Hl) as (f2 & h2 & _ & HR2 & Hrel2 & HC1 & HC2).
      apply survivors_relinked in Hrel2.
      set (s2 := Zone f2 _ _ h2 _ _ _ _) in *.
      destruct (decide (offer s2 = 0)) as [Ho2|Ho2].
      * left. eexists. unfold bind at 1. by rewrite (HC2 Ho2).
      * right. unfold bind at 1. rewrite (HC1 Ho2).
        apply (Hfin s2 (<[PU_CACHE := []]> L1)); try done.
        -- intros t Hne. unfold L1. by rewrite !fn_lookup_insert_ne.
        -- exists (length (L PU_CACHE)). by rewrite fn_lookup_insert, drop_all.
        -- by eapply survivors_trans.
  - right. unfold bind at 1. rewrite (HA Ho).
    apply (Hfin s1 L1); try done.
    + intros t Hne. unfold L1. by rewrite !fn_lookup_insert_ne.
    + exists k. unfold L1. by rewrite fn_lookup_insert.
Qed.

(** An index outside [blockbytag] is caught at lines 177-188. *)
Lemma Z_Malloc_wild_tag s size tag user p s' :
  size ≠ 0 → ¬ (0 <= tag < PU_MAX) → Z_Malloc size tag user s ≠ Ret p s'.
Proof.
  intros Hs Ht. rewrite Z_Malloc_unfold by done. intros H.
  apply bind_Ret_inv in H as (? & s1 & _ & H).
  apply bind_Ret_inv in H as (? & s2 & _ & H).
  apply bind_Ret_inv in H as (r & s3 & _ & H).
  unfold register, link in H. rewrite !bind_assoc in H.
  apply bind_Ret_inv in H as (? & s4 & H & _).
  unfold get_bucket in H. by rewrite bool_decide_eq_false_2 in H.
Qed.

(** What [Z_Malloc] comes to, once the proactive pass and the evictions of
    the retry loop are over. *)
Lemma Z_Malloc_outcomes s L size tag user :
  rep s L → size ≠ 0 →
  let sz := round_chunk size in
  let n := wrap64 (sz + HEADER_SIZE) in
  ∃ s1 L1,
    rep s1 L1 ∧ memory_size s1 = memory_size s ∧
    (offer s1 ≠ 0 ∧
     Z_Malloc size tag user s =
       register sz tag user (offer s1) (granted n (offer s1) s1) ∨
     Z_Malloc size tag user s = Fatal (refused n s1) ∧ L1 PU_CACHE = []).
Proof.
  intros HR Hs sz n. rewrite Z_Malloc_unfold by done. fold sz.
  destruct (purge_pass_spec s L sz HR) as (f1 & h1 & Hpurge & HR1 & _).
  cbv zeta in Hpurge, HR1.
  set (L1 := <[PU_CACHE := _]> L) in *. set (s1 := Zone f1 _ _ h1 _ _ _ _) in *.
  rewrite (bind_eq _ _ _ _ _ Hpurge), bind_gets.
  destruct (alloc_retry_spec s1 L1 sz (fuel_of s1) HR1 (fuel_of_ge s1))
    as (HA & HB & HC).
  fold n in HA, HB, HC.
  destruct (decide (offer s1 = 0)) as [Ho|Ho].
  - destruct (decide (L1 PU_CACHE = [])) as [Hl|Hl].
    + exists s1, L1. split; [done|]. split; [done|]. right.
      split; [|done]. unfold bind at 1. by rewrite (HB Ho Hl).
    + destruct (HC Ho Hl) as (f2 & h2 & _ & HR2 & _ & HC1 & HC2).
      cbv zeta in HR2, HC1, HC2. set (s2 := Zone f2 _ _ h2 _ _ _ _) in *.
      exists s2, (<[PU_CACHE := []]> L1). split; [done|]. split; [done|].
      destruct (decide (offer s2 = 0)) as [Ho2|Ho2].
      * right. split; [|by rewrite fn_lookup_insert].
        unfold bind at 1. by rewrite (HC2 Ho2).
      * left. split; [done|]. unfold bind at 1. by rewrite (HC1 Ho2).
  - exists s1, L1. split; [done|]. split; [done|]. left.
    split; [done|]. unfold bind at 1. by rewrite (HA Ho).
Qed.

(** * The claims *)

(** ** Sequences of operations *)

(** The block a payload pointer belongs to, when the call does anything. *)
Lemma Z_Free_cases s L p s' :
  rep s L → Z_Free p s = Ret () s' →
  s' = s ∨
  ∃ block b, heap s !! block = Some b ∧ Z_Free (block + HEADER_SIZE) s = Ret () s'.
Proof.
  intros HR. unfold Z_Free at 1.
  destruct (bool_decide (p = 0) || bool_decide (ptr_sub p HEADER_SIZE = 0)) eqn:E.
  { intros [= <-]. by left. }
  intros H. right. set (block := ptr_sub p HEADER_SIZE) in *.
  destruct (heap s !! block) as [b|] eqn:Hb.
  - exists block, b. split; [done|].
    destruct (rep_block_addr _ _ block HR) as (_ & Hsub & Hp0 & Hb0); [eauto|].
    unfold Z_Free. rewrite Hsub.
    by rewrite !bool_decide_eq_false_2 by done.
  - unfold unlink in H. rewrite !bind_assoc in H.
    apply bind_Ret_inv in H as (? & ? & H & _).
    unfold load in H. by rewrite Hb in H.
Qed.

Lemma Z_ChangeTag_cases s L ptr tag s' :
  rep s L → Z_ChangeTag ptr tag s = Ret () s' →
  s' = s ∨
  ∃ block b, heap s !! block = Some b ∧ 0 <= tag < PU_MAX ∧ tag ≠ m_tag b ∧
    Z_ChangeTag (block + HEADER_SIZE) tag s = Ret () s'.
Proof.
  intros HR. unfold Z_ChangeTag at 1. case_bool_decide as Hp.
  { intros [= <-]. by left. }
  set (block := ptr_sub ptr HEADER_SIZE) in *.
  destruct (heap s !! block) as [b|] eqn:Hb.
  - step_load Hb. case_bool_decide as Htag.
    { intros [= <-]. by left. }
    intros H. right. exists block, b. split; [done|].
    destruct (rep_block_addr _ _ block HR) as (_ & Hsub & Hp0 & Hb0); [eauto|].
    assert (Ht : 0 <= tag < PU_MAX).
    { destruct (decide (0 <= tag < PU_MAX)) as [|Hbad]; [done|exfalso].
      apply bind_Ret_inv in H as (? & ? & _ & H).
      unfold link in H. rewrite !bind_assoc in H.
      apply bind_Ret_inv in H as (? & ? & H & _).
      unfold get_bucket in H. by rewrite bool_decide_eq_false_2 in H. }
    split; [done|]. split; [done|].
    unfold Z_ChangeTag. rewrite Hsub, bool_decide_eq_false_2 by done.
    step_load Hb. by rewrite bool_decide_eq_false_2.
  - intros H. apply bind_Ret_inv in H as (? & ? & H & _).
    unfold load in H. by rewrite Hb in H.
Qed.

Lemma exec_rep o s L s' : rep s L → exec o s = Ret () s' → ∃ L', rep s' L'.
Proof.
  intros HR. destruct o as [size tag user|p|ptr tag|lowtag hightag]; simpl.
  - intros H. apply bind_Ret_inv in H as (p & s1 & H & [= <-]).
    destruct (decide (size = 0)) as [->|Hs].
    + exists L. unfold Z_Malloc in H. rewrite bool_decide_eq_true_2 in H by done.
      case_bool_decide; injection H as _ <-; by eapply rep_frame; [| |exact HR].
    + destruct (decide (0 <= tag < PU_MAX)) as [Ht|Ht].
      * destruct (Z_Malloc_spec s L size tag user HR Hs Ht)
          as [[sf Hf]|(r & b' & s2 & L0 & Hr & HR' & _)]; [congruence|].
        rewrite Hr in H. injection H as _ <-. eauto.
      * by apply Z_Malloc_wild_tag in H.
  - intros H. destruct (Z_Free_cases _ _ _ _ HR H) as [->|(block & b & Hb & H')].
    { eauto. }
    pose proof (rep_live _ _ HR _ _ Hb) as (l1 & l2 & HL)%list_elem_of_split.
    destruct (Z_Free_spec s L block b l1 l2 HR Hb HL) as (f' & h' & Hrun & HR' & _).
    simpl in Hrun. rewrite Hrun in H'. injection H' as <-. eauto.
  - intros H.
    destruct (Z_ChangeTag_cases _ _ _ _ _ HR H)
      as [->|(block & b & Hb & Ht & Hne & H')].
    { eauto. }
    pose proof (rep_live _ _ HR _ _ Hb) as (l1 & l2 & HL)%list_elem_of_split.
    destruct (Z_ChangeTag_spec s L block b l1 l2 tag HR Hb HL Ht Hne)
      as (f' & h' & b' & Hrun & _ & _ & _ & HR' & _).
    simpl in Hrun. rewrite Hrun in H'. injection H' as <-. eauto.
  - intros H.
    destruct (Z_FreeTags_spec s L lowtag hightag HR) as (f' & h' & Hrun & HR' & _).
    simpl in Hrun. rewrite Hrun in H. injection H as <-. eauto.
Qed.

Lemma run_rep ops : ∀ s L s', rep s L → run ops s = Ret () s' → ∃ L', rep s' L'.
Proof.
  induction ops as [|o ops IH]; intros s L s' HR; simpl.
  - intros [= <-]. eauto.
  - intros H. apply bind_Ret_inv in H as ([] & s1 & Ho & H).
    destruct (exec_rep _ _ _ _ HR Ho) as [L1 HR1]. by eapply IH.
Qed.


(** ** The bucket invariant, in the words of the specification *)

Lemma walk_dlseg h l p pp q qq :
  dlseg h l p pp q qq → walk h (length l) p = Some (l, q).
Proof.
  revert p pp. induction l as [|a l IH]; intros p pp; simpl.
  - by intros [-> _].
  - intros [-> (b & Hb & _ & H)]. rewrite Hb. by rewrite (IH _ _ H).
Qed.

Lemma rep_live_count s L t : rep s L → live_count s t = length (L t).
Proof.
  intros HR. unfold live_count.
  set (F := filter (λ ab, m_tag ab.2 = t) (map_to_list (heap s))).
  rewrite <- (length_fmap fst F). apply Permutation_length.
  apply NoDup_Permutation.
  - eapply NoDup_fmap_fst.
    + intros a b1 b2 [_ H1]%list_elem_of_filter [_ H2]%list_elem_of_filter.
      apply elem_of_map_to_list in H1, H2. congruence.
    + apply list.NoDup_filter, NoDup_map_to_list.
  - apply (rep_nodup _ _ HR).
  - intros a. rewrite list_elem_of_fmap. split.
    + intros ([a' b] & -> & [Htag Hin]%list_elem_of_filter). simpl in *.
      apply elem_of_map_to_list in Hin. rewrite <- Htag.
      by apply (rep_live _ _ HR).
    + intros Ha. destruct (rep_tag _ _ HR t a Ha) as (_ & b & Hb & Htb).
      exists (a, b). split; [done|]. apply list_elem_of_filter. split; [done|].
      by apply elem_of_map_to_list.
Qed.

Lemma rep_bucket_valid s L t : rep s L → 0 <= t < PU_MAX → bucket_valid s t.
Proof.
  intros HR Ht. unfold bucket_valid.
  rewrite (rep_live_count _ _ t HR), (rep_head _ _ HR t Ht).
  split.
  - destruct (L t) as [|x l] eqn:HL; simpl; [done|].
    split; [done|]. intros _ ->. apply (rep_null _ _ t HR). rewrite HL. left.
  - exists (L t). split; [|split; [apply (rep_nodup _ _ HR)|]].
    + pose proof (rep_cycle _ _ HR t) as Hcyc.
      destruct (L t) as [|x l] eqn:HL; [done|].
      apply cycle_cons in Hcyc as [pp Hseg].
      exact (walk_dlseg _ _ _ _ _ _ Hseg).
    + intros a. split.
      * intros Ha. by destruct (rep_tag _ _ HR t a Ha) as (_ & ?).
      * intros (b & Hb & <-). by apply (rep_live _ _ HR).
Qed.

(** C1: for every sequence of allocate, free, changeTag and freeAllInRange
    operations run from the empty initial state, every tag's bucket is a
    valid circular list of exactly the blocks carrying that tag: the bucket
    has a head if and only if the tag's live count [N] is non-zero, and
    following [next] from the head visits each live block of the tag once
    and is back at the head after [N] steps. *)
Theorem buckets_stay_valid ops ceiling m sl sc s t :
  run ops (zone_init ceiling m sl sc) = Ret () s →
  0 <= t < PU_MAX →
  bucket_valid s t.
Proof.
  intros Hrun Ht.
  destruct (run_rep ops _ _ _ (rep_init ceiling m sl sc) Hrun) as [L HR].
  by eapply rep_bucket_valid.
Qed.

(** ** Allocation failure *)

(** C2, as the code has it: the byte count of the request is a [size_t]
    sum, so the storage is what the caller asked for only while that sum
    does not wrap.  For every size with [0 < size <= MAX_REQUEST] and
    valid tag, a request the external allocator refuses makes [Z_Malloc]
    evict the whole CACHE bucket, oldest to newest up to the block that was
    the tail when the eviction began, and ask again; a refusal met with an
    empty CACHE bucket ends in [I_Error].  The call therefore returns a
    usable payload address or does not return; it never returns NULL.
    Usable: the payload of a live block with the tag asked for, whose
    storage the allocator granted to a request for the header and the
    recorded size, which is at least [size]. *)
Theorem malloc_retries_or_dies s L size tag user :
  rep s L → 0 < size <= MAX_REQUEST → 0 <= tag < PU_MAX →
  let sz := round_chunk size in
  (* once the proactive pass is over, in a state s1, the call is the loop
     of lines 169-175 followed by the registration of the block *)
  (∃ s1 L1,
     purge_pass sz s = Ret () s1 ∧ rep s1 L1 ∧
     Z_Malloc size tag user s =
       (let* block := alloc_retry (fuel_of s1) sz in
        register sz tag user block) s1 ∧
     retry_protocol (fuel_of s1) sz s1 L1) ∧
  (* the loop follows the protocol wherever it is started *)
  (∀ s1 L1 fuel, rep s1 L1 → (2 ≤ fuel)%nat → retry_protocol fuel sz s1 L1) ∧
  (* the request is for the header and the payload, rounded up *)
  (size <= sz ∧ wrap64 (sz + HEADER_SIZE) = sz + HEADER_SIZE) ∧
  (* the call returns a usable payload or does not return *)
  returns_or_dies (Z_Malloc size tag user s) tag size.
Proof.
  intros HR Hsize Ht sz.
  assert (Hloop : ∀ s1 L1 fuel, rep s1 L1 → (2 ≤ fuel)%nat →
                    retry_protocol fuel sz s1 L1).
  { intros s1 L1 fuel HR1 Hfuel.
    destruct (alloc_retry_spec s1 L1 sz fuel HR1 Hfuel) as (HA & HB & HC).
    split; [exact HA|]. split; [exact HB|].
    intros Ho Hl. destruct (HC Ho Hl) as (f' & h' & Hrun & HR2 & _ & H1 & H2).
    eexists. split; [exact Hrun|]. split; [exact HR2|].
    split; [simpl; by rewrite <- app_assoc|]. by split. }
  destruct (request_fits size ltac:(lia)) as [Hup Hfits]. fold sz in Hup, Hfits.
  split; [|split; [exact Hloop|split; [done|]]].
  - destruct (purge_pass_spec s L sz HR) as (f1 & h1 & Hpurge & HR1 & _).
    eexists _, _. split; [exact Hpurge|]. split; [exact HR1|].
    split; [|apply Hloop; [exact HR1|apply fuel_of_ge]].
    rewrite Z_Malloc_unfold by lia. fold sz.
    by rewrite (bind_eq _ _ _ _ _ Hpurge), bind_gets.
  - destruct (Z_Malloc_outcomes s L size tag user HR ltac:(lia))
      as (s1 & L1 & HR1 & _ & [[Ho ->]|[-> _]]); [|done].
    fold sz. set (r := offer s1) in *.
    destruct (offer_fresh _ Ho) as (Hr0 & Hr1 & Hfresh).
    destruct (register_spec s1 (granted (wrap64 (sz + HEADER_SIZE)) r s1) L1 r sz
                tag user HR1 Hfresh (conj Hr0 Hr1) eq_refl eq_refl Ht
                (round_chunk_ok size))
      as (f' & h' & b' & -> & Hb' & Htag & Hsz & HR' & _).
    cbn [returns_or_dies]. unfold usable.
    destruct (rep_block_addr _ _ r HR') as (_ & -> & Hp0 & _);
      [by exists b'|].
    split; [done|]. exists b'. cbn [heap trace granted log].
    split; [done|]. split; [done|]. split; [done|].
    split; [by rewrite Hsz|]. by rewrite last_last, Hfits, Hsz.
Qed.

(** ** The proactive pass *)

Lemma purge_count_props h ms sz l : ∀ fm,
  let k := purge_count h ms sz l fm in
  (l ≠ [] → (1 ≤ k)%nat) ∧
  (k = length l ∨ short_of (credit h (take k l) fm) ms sz = false) ∧
  (∀ j, (0 < j < k)%nat → short_of (credit h (take j l) fm) ms sz = true).
Proof.
  induction l as [|a l IH]; intros fm; cbn [purge_count].
  - split; [done|]. split; [by left|]. intros j Hj. lia.
  - cbv zeta. set (fm' := sint32 (fm + size_of h a)).
    destruct (short_of fm' ms sz) eqn:Hshort.
    + destruct (IH fm') as (_ & Hstop & Hgo). split; [lia|]. split.
      * destruct Hstop as [Hk|Hk]; [left; simpl; lia|right].
        by rewrite firstn_cons, credit_cons.
      * intros [|j] Hj; [lia|]. rewrite firstn_cons, credit_cons. fold fm'.
        destruct j as [|j]; [by rewrite take_0|]. apply Hgo. lia.
    + split; [lia|]. split; [right; by rewrite firstn_cons, take_0|].
      intros j Hj. lia.
Qed.

(** Within [int], the comparison of lines 150 and 161 is the comparison of
    the mathematical values. *)
Lemma short_of_exact fm ms sz :
  - 2 ^ 31 <= fm + ms < 2 ^ 31 → 0 <= sz + HEADER_SIZE < 2 ^ 31 →
  short_of fm ms sz = true ↔ fm + ms < sz + HEADER_SIZE.
Proof.
  intros H1 H2. unfold short_of, sint32, wrap64.
  rewrite bool_decide_eq_true.
  rewrite (Z.mod_small (sz + HEADER_SIZE)) by lia.
  rewrite !Z.mod_small by lia. lia.
Qed.

(** C3, as the code has it: the comparison that triggers the pass and the
    one that ends it are made in [int] arithmetic, on [size + HEADER_SIZE]
    converted to [int].  When [memory_size > 0] and that comparison finds
    the headroom short, [Z_Malloc] evicts blocks of the CACHE bucket from
    the head on, in bucket order, before it asks for storage; it stops as
    soon as the comparison no longer finds the headroom short, or once the
    block that was the tail at the start has been evicted. *)
Theorem proactive_eviction s L size tag user :
  rep s L → size ≠ 0 →
  let sz := round_chunk size in
  let l := L PU_CACHE in
  memory_size s > 0 →
  short_of (free_memory s) (memory_size s) sz = true →
  ∃ k s',
    purge_pass sz s = Ret () s' ∧
    trace s' = trace s ++ map EvFree (take k l) ∧
    rep s' (<[PU_CACHE := drop k l]> L) ∧
    free_memory s' = credit (heap s) (take k l) (free_memory s) ∧
    memory_size s' = memory_size s ∧
    (l ≠ [] → (1 ≤ k)%nat) ∧ (k ≤ length l)%nat ∧
    (k = length l ∨ short_of (free_memory s') (memory_size s') sz = false) ∧
    (∀ j, (0 < j < k)%nat →
       short_of (credit (heap s) (take j l) (free_memory s)) (memory_size s) sz
       = true) ∧
    Z_Malloc size tag user s =
      (let* fuel := gets fuel_of in
       let* block := alloc_retry fuel sz in
       register sz tag user block) s'.
Proof.
  intros HR Hsize sz l Hms Hshort.
  destruct (purge_pass_spec s L sz HR) as (f' & h' & Hrun & HR' & _).
  fold l in Hrun, HR'. unfold purge_plan in Hrun, HR'.
  rewrite Hshort, bool_decide_eq_true_2 in Hrun, HR' by done.
  cbn [andb] in Hrun, HR'.
  set (k := purge_count (heap s) (memory_size s) sz l (free_memory s)) in *.
  destruct (purge_count_props (heap s) (memory_size s) sz l (free_memory s))
    as (Hone & Hstop & Hgo).
  fold k in Hone, Hstop, Hgo.
  exists k. eexists. split; [exact Hrun|]. cbn [trace free_memory memory_size].
  repeat (split; [done|]).
  split; [apply purge_count_le|]. repeat (split; [done|]).
  rewrite Z_Malloc_unfold by done. fold sz. by rewrite (bind_eq _ _ _ _ _ Hrun).
Qed.

(** ** No ceiling *)

Lemma purge_pass_unlimited size s :
  memory_size s = 0 → purge_pass size s = Ret () s.
Proof.
  intros Hms. unfold purge_pass. step_pure. rewrite Hms.
  by rewrite bool_decide_eq_false_2 by lia.
Qed.

(** C4, as the code has it: with [memory_size = 0] the proactive pass never
    evicts anything, and a [Z_Malloc] whose first request the external
    allocator satisfies frees no block: every block live before the call is
    live after it, with its size and tag, and the only call made to the
    allocator is that request. *)
Theorem unlimited_no_proactive_eviction s L size tag user :
  rep s L → size ≠ 0 → 0 <= tag < PU_MAX → memory_size s = 0 →
  purge_pass (round_chunk size) s = Ret () s ∧
  (offer s ≠ 0 →
     ∃ p s',
       Z_Malloc size tag user s = Ret p s' ∧
       trace s' =
         trace s ++ [EvMalloc (wrap64 (round_chunk size + HEADER_SIZE)) (offer s)] ∧
       ∀ a b, heap s !! a = Some b →
         ∃ b', heap s' !! a = Some b' ∧ m_size b' = m_size b ∧ m_tag b' = m_tag b).
Proof.
  intros HR Hsize Ht Hms. split; [by apply purge_pass_unlimited|].
  intros Ho. rewrite Z_Malloc_unfold by done.
  rewrite (bind_eq _ _ _ _ _ (purge_pass_unlimited _ s Hms)). step_pure.
  destruct (alloc_retry_spec s L (round_chunk size) (fuel_of s) HR (fuel_of_ge s))
    as (HA & _).
  unfold bind at 1. rewrite (HA Ho).
  destruct (offer_fresh _ Ho) as (Hr0 & Hr1 & Hfresh).
  set (n := wrap64 (round_chunk size + HEADER_SIZE)).
  destruct (register_spec s (granted n (offer s) s) L (offer s) (round_chunk size)
              tag user HR Hfresh (conj Hr0 Hr1) eq_refl eq_refl Ht
              (round_chunk_ok size))
    as (f' & h' & b' & Hreg & _ & _ & _ & _ & Hrel).
  eexists _, _. split; [exact Hreg|]. split; [done|].
  intros a b Hb. cbn [heap].
  destruct (relinked_Some _ _ _ _ _ Hrel Hb) as (b1 & Hb1 & Hsz & Htg).
  apply lookup_delete_Some in Hb1 as [_ Hb1]. eauto.
Qed.

(** ** Z_Realloc *)

(** With a NULL pointer [Z_Realloc] is [Z_Malloc]. *)
Lemma Z_Realloc_null n tag user s :
  Z_Realloc 0 n tag user s = Z_Malloc n tag user s.
Proof.
  unfold Z_Realloc, bind. rewrite bool_decide_eq_true_2 by done.
  by destruct (Z_Malloc n tag user s).
Qed.

(** C5, as the code has it: the old block has to outlive the allocation of
    the new one, and the new size has to be one [Z_Malloc] can serve.  For
    [n <= MAX_REQUEST] and a live block with payload [ptr] that is still
    live when [Z_Malloc n tag user] has returned [p], the payload of
    another block, [Z_Realloc ptr n tag user] returns [p]; the first
    [min n oldsize] bytes at [p] are those of the old payload, the bytes
    from [oldsize] up to [n] are zero, the old block has been freed, and a
    slot that was supplied holds [p], stored after the free.  The [n] bytes
    written at [p] lie inside the new block, whose recorded size is at
    least [n], and the bytes read lie inside the old one.  With a NULL
    pointer the call is [Z_Malloc n tag user]. *)
Theorem realloc_moves_payload s L block b n tag user p s1 b1 :
  rep s L → heap s !! block = Some b → 0 <= n <= MAX_REQUEST →
  Z_Malloc n tag user s = Ret p s1 →
  heap s1 !! block = Some b1 → p ≠ block + HEADER_SIZE →
  let ptr := block + HEADER_SIZE in
  (∀ s0, Z_Realloc 0 n tag user s0 = Z_Malloc n tag user s0) ∧
  m_size b1 = m_size b ∧
  ∃ s',
    Z_Realloc ptr n tag user s = Ret p s' ∧
    (∀ i, 0 <= i < Z.min n (m_size b) → mem s' (p + i) = mem s (ptr + i)) ∧
    (∀ i, m_size b <= i < n → mem s' (p + i) = 0) ∧
    (n ≠ 0 →
       ∃ bn, heap s' !! ptr_sub p HEADER_SIZE = Some bn ∧
             m_size bn = round_chunk n ∧ n <= m_size bn) ∧
    heap s' !! block = None ∧
    trace s' = trace s1 ++ [EvFree block] ∧
    free_memory s' = sint32 (free_memory s1 + m_size b) ∧
    slots s' = (if bool_decide (user = 0) then slots s1
                else <[user := p]> (slots s1)).
Proof.
  intros HR Hb Hn Hmalloc Hb1 Hnew ptr.
  assert (Hn64 : 0 <= n < 2 ^ 64)
    by (unfold MAX_REQUEST, CHUNK_SIZE, HEADER_SIZE in Hn; lia).
  split; [intros s0; apply Z_Realloc_null|].
  (* the state after the allocation *)
  assert (∃ L1, rep s1 L1) as [L1 HR1].
  { apply (exec_rep (OpMalloc n tag user) s L s1 HR). simpl.
    by rewrite (bind_eq _ _ _ _ _ Hmalloc). }
  assert (Hkeep : m_size b1 = m_size b ∧ mem s1 = mem s ∧
            (n ≠ 0 → ∃ r bn, p = r + HEADER_SIZE ∧ r ≠ block ∧
                             heap s1 !! r = Some bn ∧
                             m_size bn = round_chunk n ∧ n <= m_size bn)).
  { destruct (decide (n = 0)) as [->|Hn0].
    - unfold Z_Malloc in Hmalloc. rewrite bool_decide_eq_true_2 in Hmalloc by done.
      case_bool_decide; injection Hmalloc as <- <-; simpl in *;
        (split; [congruence|done]).
    - destruct (decide (0 <= tag < PU_MAX)) as [Ht|Ht];
        [|by apply Z_Malloc_wild_tag in Hmalloc].
      destruct (Z_Malloc_spec s L n tag user HR Hn0 Ht)
        as [[sf Hf]|(r & b' & s2 & L0 & Hr & _ & Hb' & _ & Hsz' & Haddr & _ & _
                     & Hmem & _ & _ & Hsurv)]; [congruence|].
      rewrite Hr in Hmalloc. injection Hmalloc as <- <-.
      assert (Hrb : r ≠ block) by (by intros ->).
      split; [|split; [done|]].
      + destruct (Hsurv block b1) as (b0 & Hb0 & Hsz & _).
        { by rewrite lookup_delete_ne. }
        congruence.
      + intros _. exists r, b'. repeat (split; [done|]).
        rewrite Hsz'. by destruct (request_fits n Hn). }
  destruct Hkeep as (Hsz & Hmem & Hfit). split; [done|].
  destruct (rep_block_addr _ _ block HR1) as (_ & Hsub & Hp0 & Hb0); [eauto|].
  pose proof (rep_live _ _ HR1 _ _ Hb1) as (l1 & l2 & HL)%list_elem_of_split.
  destruct (rep_size _ _ HR _ _ Hb) as [Hsz0 _].
  unfold Z_Realloc. rewrite (bind_eq _ _ _ _ _ Hmalloc).
  fold ptr. rewrite bool_decide_eq_false_2 by done. fold ptr in Hsub.
  rewrite Hsub.
  set (m' := if bool_decide (n <= m_size b1)
             then (λ a, if bool_decide (p <= a < p + n)
                        then mem s1 (ptr + (a - p)) else mem s1 a)
             else (λ a, if bool_decide (p + m_size b1 <= a < p + n) then 0
                        else if bool_decide (p <= a < p + m_size b1)
                             then mem s1 (ptr + (a - p)) else mem s1 a)).
  set (s1' := set_mem (λ _, m') s1).
  assert (HR1' : rep s1' L1) by (by eapply rep_frame; [| |exact HR1]).
  destruct (Z_Free_spec s1' L1 block b1 l1 l2 HR1' Hb1 HL)
    as (f' & h' & Hfree & _ & Hrel & _).
  assert (Hgone : h' !! block = None).
  { specialize (Hrel block). rewrite lookup_delete_eq in Hrel.
    by destruct (h' !! block). }
  cbv zeta in Hfree. fold ptr in Hfree.
  assert (Hcopy :
    (let* b0 := load block in
     if bool_decide (n <= m_size b0) then memcpy p ptr n
     else
       memcpy p ptr (m_size b0) ;;;
       let* b2 := load block in
       memset (p + m_size b2) 0 (wrap64 (n - m_size b2))) s1
    = Ret () s1').
  { step_load Hb1. unfold s1', m'. case_bool_decide as Hle.
    - done.
    - unfold memcpy, memset. step_pure.
      assert (Hb1m : heap (set_mem (λ m a,
                 if bool_decide (p <= a < p + m_size b1)
                 then m (ptr + (a - p)) else m a) s1) !! block = Some b1) by done.
      step_load Hb1m. unfold modify, set_mem. simpl.
      unfold wrap64. rewrite !Z.mod_small by lia.
      replace (p + m_size b1 + (n - m_size b1)) with (p + n) by lia. done. }
  set (sF := Zone f' _ _ h' _ _ _ _) in Hfree.
  exists (if bool_decide (user = 0) then sF else set_slots (<[user := p]>) sF).
  split.
  { rewrite bind_assoc, (bind_eq _ _ _ _ _ Hcopy).
    rewrite bind_assoc, (bind_eq _ _ _ _ _ Hfree).
    case_bool_decide; by step_pure. }
  split; [|split; [|split; [|split; [|split; [|split]]]]].
  - intros i Hi. case_bool_decide; simpl; unfold m'; rewrite <- Hmem, Hsz.
    all: case_bool_decide as Hle.
    all: try (rewrite bool_decide_eq_true_2 by lia).
    all: try (rewrite bool_decide_eq_false_2 by lia).
    all: try (rewrite bool_decide_eq_true_2 by lia).
    all: f_equal; lia.
  - intros i Hi. case_bool_decide; simpl; unfold m'; rewrite Hsz.
    all: rewrite bool_decide_eq_false_2 by lia.
    all: by rewrite bool_decide_eq_true_2 by lia.
  - intros Hn0. destruct (Hfit Hn0) as (r & bn & -> & Hrb & Hbn & Hbsz & Hble).
    destruct (rep_block_addr _ _ r HR1) as (_ & -> & _); [eauto|].
    destruct (relinked_Some _ _ _ r bn Hrel) as (bn' & Hbn' & Hs' & _).
    { by rewrite lookup_delete_ne. }
    exists bn'. rewrite Hs'. split; [by case_bool_decide|done].
  - by case_bool_decide.
  - by case_bool_decide.
  - case_bool_decide; simpl; by rewrite Hsz.
  - by case_bool_decide.
Qed.

(** ** Z_FreeTags *)

(** C6: [Z_FreeTags lowtag hightag] raises [lowtag] to [PU_FREE + 1] and
    lowers [hightag] to [PU_CACHE]; every bucket of the resulting inclusive
    range is evicted from its head to the block that was its tail, in
    ascending tag order, and is left empty; the bucket of [PU_FREE] and the
    buckets above [PU_CACHE], and the blocks they hold, are not touched. *)
Theorem free_tags_empties_range s L lowtag hightag :
  rep s L →
  let lo := Z.max lowtag (PU_FREE + 1) in
  let hi := Z.min hightag PU_CACHE in
  let ts := seqZ lo (hi - lo + 1) in
  ∃ s',
    Z_FreeTags lowtag hightag s = Ret () s' ∧
    (* bucket by bucket, head first, up to the tail *)
    trace s' = trace s ++ map EvFree (members L ts) ∧
    (* the buckets of the range are empty, the others hold what they held *)
    rep s' (λ t, if decide (lo <= t <= hi) then [] else L t) ∧
    (∀ t, lo <= t <= hi → blockbytag s' t = 0) ∧
    (∀ a b, heap s !! a = Some b → lo <= m_tag b <= hi → heap s' !! a = None) ∧
    (* nothing outside the range is touched *)
    (∀ t, 0 <= t < PU_MAX → ¬ (lo <= t <= hi) →
       blockbytag s' t = blockbytag s t) ∧
    (∀ a b, heap s !! a = Some b → ¬ (lo <= m_tag b <= hi) →
       heap s' !! a = Some b) ∧
    ¬ (lo <= PU_FREE <= hi) ∧ (∀ t, PU_CACHE < t → ¬ (lo <= t <= hi)) ∧
    free_memory s' = credit (heap s) (members L ts) (free_memory s).
Proof.
  intros HR lo hi ts.
  destruct (Z_FreeTags_spec s L lowtag hightag HR) as (f' & h' & Hrun & HR' & Hrel).
  assert (Hts : tag_range lowtag hightag = ts).
  { unfold tag_range, ts, lo, hi. by rewrite clamp_low_max, clamp_high_min. }
  rewrite Hts in *. clear Hts.
  assert (Hin : ∀ t, t ∈ ts ↔ lo <= t <= hi).
  { intros t. unfold ts. rewrite elem_of_seqZ. lia. }
  assert (HR2 : rep (Zone f' (memory_size s)
                       (credit (heap s) (members L ts) (free_memory s)) h'
                       (mem s) (slots s) (script s)
                       (trace s ++ map EvFree (members L ts)))
                    (λ t, if decide (lo <= t <= hi) then [] else L t)).
  { eapply rep_ext; [|exact HR']. intros t. unfold emptied.
    destruct (decide (t ∈ ts)) as [Ht|Ht].
    - rewrite decide_True; [done|by apply Hin].
    - rewrite decide_False; [done|]. by rewrite <- Hin. }
  assert (Hmem : ∀ a b, heap s !! a = Some b →
            a ∈ members L ts ↔ lo <= m_tag b <= hi).
  { intros a b Hb. rewrite elem_of_members. split.
    - intros (t & Ht & Ha). apply Hin in Ht.
      destruct (rep_tag _ _ HR t a Ha) as (_ & b0 & Hb0 & <-). congruence.
    - intros Ht. exists (m_tag b). split; [by apply Hin|].
      by apply (rep_live _ _ HR). }
  eexists. split; [exact Hrun|]. cbn [trace blockbytag heap free_memory].
  split; [done|]. split; [exact HR2|].
  split; [|split; [|split; [|split; [|split; [|split]]]]].
  - intros t Ht. destruct (decide (0 <= t < PU_MAX)) as [Hv|Hv].
    + pose proof (rep_head _ _ HR2 t Hv) as H2. simpl in H2.
      by rewrite decide_True in H2.
    + exfalso. apply Hv. apply (tag_range_valid lowtag hightag).
      apply elem_of_tag_range. done.
  - intros a b Hb Ht. specialize (Hrel a). rewrite lookup_deletes in Hrel.
    rewrite decide_True in Hrel by (by apply (Hmem a b)).
    by destruct (h' !! a).
  - intros t Hv Ht.
    pose proof (rep_head _ _ HR2 t Hv) as H2. simpl in H2.
    rewrite decide_False in H2 by done. by rewrite (rep_head _ _ HR t Hv).
  - intros a b Hb Ht.
    rewrite (relinked_outside _ _ _ a Hrel).
    + rewrite lookup_deletes, decide_False; [done|]. by rewrite (Hmem a b).
    + by rewrite (Hmem a b).
  - unfold lo. lia.
  - intros t Ht. unfold hi. lia.
  - done.
Qed.

(** ** Z_ChangeTag *)

(** C7: [Z_ChangeTag ptr tag] does nothing when [ptr] is NULL or [tag] is
    the block's tag.  Otherwise the block leaves its bucket, joins the
    bucket of [tag] at the tail and gets [tag] in its tag field; its size,
    [free_memory] and the payload bytes stay as they were, and a
    [Z_FreeTags] over the old tag leaves the block as it is. *)
Theorem change_tag_moves_block s L block b l1 l2 tag :
  rep s L → heap s !! block = Some b → L (m_tag b) = l1 ++ block :: l2 →
  0 <= tag < PU_MAX →
  let ptr := block + HEADER_SIZE in
  Z_ChangeTag 0 tag s = Ret () s ∧
  (tag = m_tag b → Z_ChangeTag ptr tag s = Ret () s) ∧
  (tag ≠ m_tag b →
     ∃ s' b',
       Z_ChangeTag ptr tag s = Ret () s' ∧
       rep s' (<[tag := L tag ++ [block]]> (<[m_tag b := l1 ++ l2]> L)) ∧
       heap s' !! block = Some b' ∧ m_tag b' = tag ∧ m_size b' = m_size b ∧
       free_memory s' = free_memory s ∧ memory_size s' = memory_size s ∧
       mem s' = mem s ∧ slots s' = slots s ∧ trace s' = trace s ∧
       ∃ s'',
         Z_FreeTags (m_tag b) (m_tag b) s' = Ret () s'' ∧
         heap s'' !! block = Some b' ∧ mem s'' = mem s' ∧
         ∀ t, 0 <= t < PU_MAX → t ≠ m_tag b →
              blockbytag s'' t = blockbytag s' t).
Proof.
  intros HR Hb HL Ht ptr.
  destruct (rep_block_addr _ _ block HR) as (_ & Hsub & Hp0 & Hb0); [eauto|].
  fold ptr in Hsub, Hp0.
  split; [done|]. split.
  - intros ->. unfold Z_ChangeTag. rewrite Hsub, bool_decide_eq_false_2 by done.
    step_load Hb. by rewrite bool_decide_eq_true_2.
  - intros Hne.
    destruct (Z_ChangeTag_spec s L block b l1 l2 tag HR Hb HL Ht Hne)
      as (f' & h' & b' & Hrun & Hb' & Htag & Hsz & HR' & _).
    cbv zeta in Hrun, HR'. fold ptr in Hrun.
    set (s' := Zone f' _ _ h' _ _ _ _) in *.
    set (L' := <[tag := L tag ++ [block]]> (<[m_tag b := l1 ++ l2]> L)) in *.
    exists s', b'. repeat (split; [done|]).
    destruct (Z_FreeTags_spec s' L' (m_tag b) (m_tag b) HR')
      as (f2 & h2 & Hrun2 & HR2 & Hrel2).
    set (ts := tag_range (m_tag b) (m_tag b)) in *.
    assert (Hts : ∀ t, t ∈ ts → t = m_tag b).
    { intros t. unfold ts. rewrite elem_of_tag_range. lia. }
    assert (Hblock : block ∉ members L' ts).
    { intros (t & ->%Hts & Hin)%elem_of_members. unfold L' in Hin.
      rewrite fn_lookup_insert_ne, fn_lookup_insert in Hin by done.
      pose proof (rep_nodup _ _ HR (m_tag b)) as Hnd. rewrite HL in Hnd.
      apply list.NoDup_app in Hnd as (_ & Hnd12 & [Hb2 _]%list.NoDup_cons).
      apply elem_of_app in Hin as [Hin|Hin]; [|done].
      apply (Hnd12 _ Hin). left. }
    eexists. split; [exact Hrun2|]. cbn [heap mem blockbytag].
    split; [|split; [done|]].
    + rewrite (relinked_outside _ _ _ block Hrel2) by done.
      by rewrite lookup_deletes, decide_False.
    + intros t Hv Hnt.
      pose proof (rep_head _ _ HR2 t Hv) as H2. simpl in H2.
      unfold emptied in H2. rewrite decide_False in H2.
      * rewrite H2. symmetry. apply (rep_head _ _ HR' t Hv).
      * intros Hin. by apply Hnt, Hts.
Qed.

(** ** Sizes *)

Lemma round_chunk_up size :
  0 <= size <= 2 ^ 64 - CHUNK_SIZE →
  round_chunk size = CHUNK_SIZE * ((size + (CHUNK_SIZE - 1)) / CHUNK_SIZE) ∧
  size <= round_chunk size < size + CHUNK_SIZE.
Proof.
  intros Hs. rewrite round_chunk_eq. unfold wrap64, CHUNK_SIZE in *.
  rewrite (Z.mod_small (size + (32 - 1))) by lia.
  split; [done|].
  pose proof (Z.div_mod (size + (32 - 1)) 32 ltac:(lia)).
  pose proof (Z.mod_pos_bound (size + (32 - 1)) 32 ltac:(lia)). lia.
Qed.

(** C8, as the code has it: the rounding is done in [size_t] arithmetic, so
    it is exact only while [size + CHUNK_SIZE - 1] does not wrap.  For
    [0 < size <= 2^64 - 32] the block [Z_Malloc] returns records [size]
    rounded up to the nearest multiple of 32: a multiple of 32, at least
    [size] and less than [size + 32]. *)
Theorem recorded_size_rounded_up s L size tag user p s' :
  rep s L → 0 < size <= 2 ^ 64 - CHUNK_SIZE → 0 <= tag < PU_MAX →
  Z_Malloc size tag user s = Ret p s' →
  ∃ b,
    heap s' !! ptr_sub p HEADER_SIZE = Some b ∧
    m_size b = CHUNK_SIZE * ((size + (CHUNK_SIZE - 1)) / CHUNK_SIZE) ∧
    size <= m_size b < size + CHUNK_SIZE ∧
    m_size b mod CHUNK_SIZE = 0.
Proof.
  intros HR Hsize Ht Hrun.
  destruct (Z_Malloc_spec s L size tag user HR ltac:(lia) Ht)
    as [[sf Hf]|(r & b' & s2 & L0 & Hr & HR' & Hb' & _ & Hsz & _)];
    [congruence|].
  rewrite Hr in Hrun. injection Hrun as <- <-.
  destruct (rep_block_addr _ _ r HR') as (_ & -> & _); [eauto|].
  destruct (round_chunk_up size) as [Heq Hle]; [lia|].
  exists b'. split; [done|]. rewrite Hsz. split; [done|]. split; [done|].
  apply (round_chunk_ok size).
Qed.

(** ** Zero-size requests *)

(** C9: [Z_Malloc 0 tag user] returns NULL, stores NULL in the slot when one
    is supplied, and allocates nothing: the bucket table, the budget
    counter, the heap and the allocator are as they were. *)
Theorem malloc_zero_is_null s tag user :
  ∃ s',
    Z_Malloc 0 tag user s = Ret 0 s' ∧
    (user ≠ 0 → slots s' = <[user := 0]> (slots s)) ∧
    (user = 0 → slots s' = slots s) ∧
    blockbytag s' = blockbytag s ∧ free_memory s' = free_memory s ∧
    memory_size s' = memory_size s ∧ heap s' = heap s ∧ mem s' = mem s ∧
    script s' = script s ∧ trace s' = trace s.
Proof.
  eexists. split; [apply Z_Malloc_zero|]. by case_bool_decide.
Qed.

(** C10: when the product [n1 * n2], taken in [size_t], is zero,
    [Z_Calloc] returns NULL, allocates nothing and leaves the slot alone:
    the state is untouched.  [Z_Malloc 0 tag user] on the other hand stores
    NULL in the slot. *)
Theorem calloc_zero_keeps_slot s n1 n2 tag user :
  wrap64 (n1 * n2) = 0 →
  Z_Calloc n1 n2 tag user s = Ret 0 s ∧
  (user ≠ 0 →
     ∃ s', Z_Malloc 0 tag user s = Ret 0 s' ∧ slots s' !! user = Some 0).
Proof.
  intros Hz. split.
  - unfold Z_Calloc. by rewrite Hz, bool_decide_eq_true_2.
  - intros Hu. eexists. split; [apply Z_Malloc_zero|].
    rewrite bool_decide_eq_false_2 by done. apply lookup_insert_eq.
Qed.

End Ops.

(** * The rest of the interface *)

Section Api.
Context `{PT : purge_tags} (PT_ok : tags_ok).

(** ** Links *)

Lemma rep_well_linked s L : rep s L → well_linked s.
Proof.
  intros HR. split.
  - intros t Ht Hh. rewrite (rep_head _ _ HR t Ht) in Hh |- *.
    destruct (L t) as [|x l] eqn:HL; [done|]. simpl.
    destruct (rep_tag _ _ HR t x) as (_ & b & Hb & Htb); [rewrite HL; left|].
    eauto.
  - intros a b Hb.
    pose proof (rep_live _ _ HR _ _ Hb) as Ha.
    pose proof Ha as (l1 & l2 & HL)%list_elem_of_split.
    pose proof (rep_cycle _ _ HR (m_tag b)) as Hcyc.
    rewrite HL in Hcyc. apply (cycle_rotate _ l1 (a :: l2)) in Hcyc.
    simpl in Hcyc. apply cycle_cons in Hcyc as [pp [_ (b0 & Hb0 & Hpp & Hseg)]].
    assert (b0 = b) as -> by congruence.
    assert (Hsub : ∀ x, x ∈ l2 ++ l1 → ∃ bx, heap s !! x = Some bx ∧ m_tag bx = m_tag b).
    { intros x Hx. apply (rep_tag _ _ HR (m_tag b) x). rewrite HL.
      set_solver. }
    destruct (l2 ++ l1) as [|x l'] eqn:Hl' using rev_ind.
    + destruct Hseg as [Hn Hp]. exists b, b. rewrite Hn, Hpp, <- Hp. done.
    + apply dlseg_snoc in Hseg as (bx & Hseg & Hbx & Hnx & Hq).
      destruct (Hsub x) as (bx' & Hbx' & Htx); [set_solver|].
      assert (bx' = bx) as -> by congruence.
      destruct l' as [|y l''].
      * destruct Hseg as [Hn Hp]. exists bx, bx. rewrite Hn, Hpp, Hq.
        repeat split; try done; congruence.
      * destruct Hseg as [Hn (by0 & Hby & Hyp & _)].
        destruct (Hsub y) as (by' & Hby' & Hty); [set_solver|].
        assert (by' = by0) as -> by congruence.
        exists by0, bx. rewrite Hn, Hpp, Hq. done.
Qed.

(** ** Bookkeeping *)

Lemma sint32_add_l x y : sint32 (sint32 x + y) = sint32 (x + y).
Proof.
  unfold sint32. f_equal.
  replace ((x + 2 ^ 31) mod 2 ^ 32 - 2 ^ 31 + y + 2 ^ 31)
    with ((x + 2 ^ 31) mod 2 ^ 32 + y) by lia.
  rewrite Zplus_mod_idemp_l. f_equal. lia.
Qed.

Lemma sint32_sub_l x y : sint32 (sint32 x - y) = sint32 (x - y).
Proof. apply (sint32_add_l x (- y)). Qed.

Lemma sint32_small x : - 2 ^ 31 <= x < 2 ^ 31 → sint32 x = x.
Proof. intros Hx. unfold sint32. rewrite Z.mod_small; lia. Qed.

Lemma sint32_range x : - 2 ^ 31 <= sint32 x < 2 ^ 31.
Proof.
  unfold sint32. pose proof (Z.mod_pos_bound (x + 2 ^ 31) (2 ^ 32)). lia.
Qed.

Lemma total_empty : total ∅ = 0.
Proof. unfold total. by rewrite fmap_empty, map_fold_empty. Qed.

Lemma total_insert h a b :
  h !! a = None → total (<[a := b]> h) = m_size b + total h.
Proof.
  intros Ha. unfold total. rewrite fmap_insert.
  rewrite map_fold_insert_L; [done| |by rewrite lookup_fmap, Ha].
  intros. lia.
Qed.

Lemma total_delete h a b :
  h !! a = Some b → total h = m_size b + total (delete a h).
Proof.
  intros Ha. rewrite <- (total_insert (delete a h) a b) by apply lookup_delete_eq.
  by rewrite insert_delete_id.
Qed.

Lemma total_relinked X h h' : relinked X h h' → total h' = total h.
Proof.
  intros Hrel. unfold total. f_equal. apply map_eq. intros a.
  rewrite !lookup_fmap. specialize (Hrel a).
  destruct (h !! a), (h' !! a); try done. simpl. f_equal. apply Hrel.
Qed.

(** The sizes of the blocks of [l], added up. *)
Lemma total_deletes h l :
  NoDup l → (∀ a, a ∈ l → is_Some (h !! a)) →
  total h = foldr (λ a acc, size_of h a + acc) 0 l + total (deletes l h).
Proof.
  induction l as [|a l IH]; intros Hnd Hl; simpl; [done|].
  apply list.NoDup_cons in Hnd as [Ha Hnd].
  destruct (Hl a) as [b Hb]; [left|].
  rewrite IH; [|done|intros x Hx; apply Hl; by right].
  rewrite (total_delete (deletes l h) a b).
  - unfold size_of. rewrite Hb. simpl. lia.
  - by rewrite lookup_deletes, decide_False.
Qed.

Lemma credit_sum h l : ∀ fm x,
  fm = sint32 x →
  credit h l fm = sint32 (x + foldr (λ a acc, size_of h a + acc) 0 l).
Proof.
  induction l as [|a l IH]; intros fm x Hfm.
  - simpl. by rewrite Z.add_0_r.
  - rewrite credit_cons. cbn [foldr].
    rewrite (IH _ (x + size_of h a)); [f_equal; lia|].
    by rewrite Hfm, sint32_add_l.
Qed.

(** Crediting the blocks of [l] keeps the books. *)
Lemma charged_credit X h h' l fm :
  fm = sint32 (- total h) → NoDup l → (∀ a, a ∈ l → is_Some (h !! a)) →
  relinked X (deletes l h) h' →
  credit h l fm = sint32 (- total h').
Proof.
  intros Hfm Hnd Hl Hrel. rewrite (credit_sum h l fm _ Hfm).
  rewrite (total_relinked _ _ _ Hrel), (total_deletes h l Hnd Hl). f_equal. lia.
Qed.

Lemma members_NoDup s L ts : rep s L → NoDup ts → NoDup (members L ts).
Proof.
  intros HR. induction ts as [|t ts IH]; intros Hnd.
  - apply NoDup_nil_2.
  - apply list.NoDup_cons in Hnd as [Ht Hnd].
    change (members L (t :: ts)) with (L t ++ members L ts).
    apply list.NoDup_app. split; [apply (rep_nodup _ _ HR)|]. split; [|by apply IH].
    intros x Hx (t' & Ht' & Hx')%elem_of_members.
    by rewrite (rep_disjoint _ _ _ _ _ HR Hx Hx') in Ht.
Qed.

Lemma members_live s L ts a :
  rep s L → a ∈ members L ts → is_Some (heap s !! a).
Proof.
  intros HR (t & _ & Ha)%elem_of_members.
  destruct (rep_tag _ _ HR t a Ha) as (_ & b & Hb & _). eauto.
Qed.

Lemma Z_Free_charged s L p s' :
  rep s L → charged s → Z_Free p s = Ret () s' → charged s'.
Proof.
  intros HR HC H.
  destruct (Z_Free_cases _ _ _ _ HR H) as [->|(block & b & Hb & H')]; [done|].
  pose proof (rep_live _ _ HR _ _ Hb) as (l1 & l2 & HL)%list_elem_of_split.
  destruct (Z_Free_spec s L block b l1 l2 HR Hb HL) as (f' & h' & Hrun & _ & Hrel & _).
  cbv zeta in Hrun. rewrite Hrun in H'. injection H' as <-.
  unfold charged in *. cbn [free_memory heap].
  rewrite (total_relinked _ _ _ Hrel), HC, sint32_add_l. f_equal.
  rewrite (total_delete _ _ _ Hb). lia.
Qed.

Lemma Z_ChangeTag_charged s L ptr tag s' :
  rep s L → charged s → Z_ChangeTag ptr tag s = Ret () s' → charged s'.
Proof.
  intros HR HC H.
  destruct (Z_ChangeTag_cases _ _ _ _ _ HR H)
    as [->|(block & b & Hb & Ht & Hne & H')]; [done|].
  pose proof (rep_live _ _ HR _ _ Hb) as (l1 & l2 & HL)%list_elem_of_split.
  destruct (Z_ChangeTag_spec PT_ok s L block b l1 l2 tag HR Hb HL Ht Hne)
    as (f' & h' & b' & Hrun & Hb' & _ & Hsz & _ & Hrel).
  cbv zeta in Hrun. rewrite Hrun in H'. injection H' as <-.
  unfold charged in *. cbn [free_memory heap]. rewrite HC. f_equal. f_equal.
  rewrite (total_delete _ _ _ Hb), (total_delete _ _ _ Hb').
  by rewrite (total_relinked _ _ _ Hrel), Hsz.
Qed.

Lemma Z_FreeTags_charged s L lowtag hightag s' :
  rep s L → charged s → Z_FreeTags lowtag hightag s = Ret () s' → charged s'.
Proof.
  intros HR HC H.
  destruct (Z_FreeTags_spec PT_ok s L lowtag hightag HR) as (f' & h' & Hrun & _ & Hrel).
  cbv zeta in Hrun. rewrite Hrun in H. injection H as <-.
  unfold charged in *. cbn [free_memory heap].
  eapply charged_credit; [exact HC| | |exact Hrel].
  - eapply members_NoDup; [exact HR|apply NoDup_seqZ].
  - intros a Ha. by eapply members_live.
Qed.

Lemma Z_Malloc_charged s L size tag user p s' :
  rep s L → charged s → Z_Malloc size tag user s = Ret p s' → charged s'.
Proof.
  intros HR HC H.
  destruct (decide (size = 0)) as [->|Hs].
  { rewrite Z_Malloc_zero in H. injection H as _ <-. by case_bool_decide. }
  destruct (decide (0 <= tag < PU_MAX)) as [Ht|Ht];
    [|by apply Z_Malloc_wild_tag in H].
  rewrite Z_Malloc_unfold in H by done.
  set (sz := round_chunk size) in *.
  destruct (purge_pass_spec PT_ok s L sz HR) as (f1 & h1 & Hpurge & HR1 & Hrel1).
  set (k := purge_plan s (L PU_CACHE) sz) in *.
  set (L1 := <[PU_CACHE := drop k (L PU_CACHE)]> L) in *.
  cbv zeta in Hpurge, HR1.
  set (s1 := Zone f1 _ _ h1 _ _ _ _) in *.
  assert (HC1 : charged s1).
  { unfold charged, s1. cbn [free_memory heap].
    eapply charged_credit; [exact HC| | |exact Hrel1].
    - eapply sublist_NoDup; [apply (rep_nodup _ _ HR)|apply sublist_take].
    - intros a Ha%subseteq_take.
      destruct (rep_tag _ _ HR _ a Ha) as (_ & b & Hb & _). eauto. }
  rewrite (bind_eq _ _ _ _ _ Hpurge), bind_gets in H.
  destruct (alloc_retry_spec PT_ok s1 L1 sz (fuel_of s1) HR1 (fuel_of_ge s1))
    as (HA & HB & HC').
  set (n := wrap64 (sz + HEADER_SIZE)) in *.
  assert (Hfin : ∀ sx Lx,
     rep sx Lx → offer sx ≠ 0 → charged sx →
     register sz tag user (offer sx) (granted n (offer sx) sx) = Ret p s' →
     charged s').
  { intros sx Lx HRx Ho HCx Hreg'.
    destruct (offer_fresh _ Ho) as (Hr0 & Hr1 & Hfresh).
    destruct (register_spec PT_ok sx (granted n (offer sx) sx) Lx (offer sx) sz
                tag user HRx Hfresh (conj Hr0 Hr1) eq_refl eq_refl Ht
                (round_chunk_ok size))
      as (f' & h' & b' & Hreg & Hb' & _ & Hsize & _ & Hrel).
    cbv zeta in Hreg. rewrite Hreg in Hreg'. injection Hreg' as _ <-.
    unfold charged in *. cbn [free_memory heap granted log set_script set_heap].
    rewrite HCx, sint32_sub_l. f_equal.
    rewrite (total_delete _ _ _ Hb'), (total_relinked _ _ _ Hrel), Hsize.
    lia. }
  destruct (decide (offer s1 = 0)) as [Ho|Ho].
  - destruct (decide (L1 PU_CACHE = [])) as [Hl|Hl].
    + unfold bind at 1 in H. by rewrite (HB Ho Hl) in H.
    + destruct (HC' Ho Hl) as (f2 & h2 & _ & HR2 & Hrel2 & HC1' & HC2).
      cbv zeta in HR2, HC1', HC2.
      set (s2 := Zone f2 _ _ h2 _ _ _ _) in *.
      assert (HCh2 : charged s2).
      { unfold charged, s2. cbn [free_memory heap].
        eapply charged_credit; [exact HC1| | |exact Hrel2].
        - apply (rep_nodup _ _ HR1).
        - intros a Ha.
          destruct (rep_tag _ _ HR1 _ a Ha) as (_ & b & Hb & _). eauto. }
      destruct (decide (offer s2 = 0)) as [Ho2|Ho2].
      * unfold bind at 1 in H. by rewrite (HC2 Ho2) in H.
      * unfold bind at 1 in H. rewrite (HC1' Ho2) in H.
        by apply (Hfin s2 (<[PU_CACHE := []]> L1)).
  - unfold bind at 1 in H. rewrite (HA Ho) in H.
    by apply (Hfin s1 L1).
Qed.

Lemma exec_charged o s L s' :
  rep s L → charged s → exec o s = Ret () s' → charged s'.
Proof.
  intros HR HC. destruct o as [size tag user|p|ptr tag|lowtag hightag]; simpl.
  - intros H. apply bind_Ret_inv in H as (p & s1 & H & [= <-]).
    by eapply Z_Malloc_charged.
  - by apply (Z_Free_charged _ L).
  - by apply (Z_ChangeTag_charged _ L).
  - by apply (Z_FreeTags_charged _ L).
Qed.

(** ** The wrappers, taken apart *)

Lemma Z_Realloc_inv ptr n tag user s p s' :
  Z_Realloc ptr n tag user s = Ret p s' →
  ∃ s1, Z_Malloc n tag user s = Ret p s1 ∧
    (ptr = 0 ∧ s' = s1 ∨
     ptr ≠ 0 ∧ ∃ m' s3,
       Z_Free ptr (set_mem (λ _, m') s1) = Ret () s3 ∧
       s' = (if bool_decide (user = 0) then s3
             else set_slots (<[user := p]>) s3)).
Proof.
  unfold Z_Realloc. intros H.
  apply bind_Ret_inv in H as (p0 & s1 & Hm & H).
  apply bind_Ret_inv in H as ([] & s2 & H & [= -> ->]).
  exists s1. split; [done|].
  case_bool_decide as Hp.
  - left. injection H as <-. done.
  - right. split; [done|].
    apply bind_Ret_inv in H as ([] & s3 & Hcopy & H).
    apply bind_Ret_inv in H as ([] & s4 & Hfree & H).
    assert (∃ m', s3 = set_mem (λ _, m') s1) as [m' ->].
    { clear H. apply bind_Ret_inv in Hcopy as (b & sx & Hl & Hcopy).
      unfold load in Hl. destruct (heap s1 !! _) eqn:Hb; [|done].
      injection Hl as <- <-. unfold memcpy, memset, modify in Hcopy.
      case_bool_decide.
      - injection Hcopy as <-. by eexists.
      - apply bind_Ret_inv in Hcopy as ([] & sy & Hc1 & Hcopy).
        injection Hc1 as <-.
        apply bind_Ret_inv in Hcopy as (b2 & sz & Hl & Hcopy).
        unfold load in Hl. cbn [heap set_mem] in Hl. rewrite Hb in Hl.
        injection Hl as <- <-. injection Hcopy as <-. by eexists. }
    exists m', s4. split; [done|]. by case_bool_decide; injection H as <-.
Qed.

Lemma Z_Calloc_inv n1 n2 tag user s p s' :
  Z_Calloc n1 n2 tag user s = Ret p s' →
  let n := wrap64 (n1 * n2) in
  n = 0 ∧ p = 0 ∧ s' = s ∨
  n ≠ 0 ∧ ∃ s1,
    Z_Malloc n tag user s = Ret p s1 ∧
    s' = set_mem (λ m a, if bool_decide (p <= a < p + n) then 0 else m a) s1.
Proof.
  intros H. cbv zeta. unfold Z_Calloc in H.
  set (n := wrap64 (n1 * n2)) in *. case_bool_decide as Hn.
  - left. by injection H as <- <-.
  - right. split; [done|].
    apply bind_Ret_inv in H as (p0 & s1 & Hm & H).
    apply bind_Ret_inv in H as ([] & s2 & H & [= -> ->]).
    exists s1. split; [done|]. unfold memset, modify in H. by injection H as <-.
Qed.

Lemma strlen_inv fuel str s n s' :
  strlen fuel str s = Ret n s' →
  str ≠ 0 ∧ s' = s ∧ strlen_from fuel (mem s) str 0 = Some n.
Proof.
  unfold strlen. case_bool_decide; [done|].
  destruct (strlen_from _ _ _ _); [|done]. by intros [= -> ->].
Qed.

Lemma Z_Strdup_inv fuel str tag user s p s' :
  Z_Strdup fuel str tag user s = Ret p s' →
  ∃ n s1 m',
    strlen fuel str s = Ret n s ∧
    Z_Malloc (wrap64 (n + 1)) tag user s = Ret p s1 ∧
    s' = set_mem (λ _, m') s1.
Proof.
  unfold Z_Strdup. intros H.
  apply bind_Ret_inv in H as (n & s0 & Hn & H).
  pose proof (strlen_inv _ _ _ _ _ Hn) as (_ & -> & _).
  apply bind_Ret_inv in H as (p0 & s1 & Hm & H).
  unfold strcpy in H.
  apply bind_Ret_inv in H as (n' & s2 & Hn' & H).
  apply strlen_inv in Hn' as (_ & -> & _).
  destruct (_ || _); [done|].
  apply bind_Ret_inv in H as ([] & s3 & H & [= -> ->]).
  unfold memcpy, modify in H. injection H as <-. exists n, s1. by eexists.
Qed.

Lemma Z_SetPurgeLimit_inv memory_low size s s' :
  Z_SetPurgeLimit memory_low size s = Ret () s' →
  s' = s ∨
  memory_low = true ∧ size ≠ memory_size s ∧ MIN_MEMORY_SIZE <= size ∧
  s' = set_memory_size size s.
Proof.
  unfold Z_SetPurgeLimit. destruct memory_low; [|intros [= <-]; by left].
  rewrite bind_gets. case_bool_decide as Heq; [intros [= <-]; by left|].
  case_bool_decide as Hlt; [done|].
  rewrite bind_ret. intros [= <-]. right. repeat split; [done|lia].
Qed.

Lemma Z_Close_win32 s :
  Z_Close true s = Ret () (set_free_memory 0 (set_memory_size 0 s)).
Proof. done. Qed.

Lemma Z_Close_posix s L :
  rep s L →
  let ts := tag_range PU_FREE PU_MAX in
  ∃ f' h',
    let s' := Zone f' 0 0 h' (mem s) (slots s) (script s)
                   (trace s ++ map EvFree (members L ts)) in
    Z_Close false s = Ret () s' ∧
    rep s' (emptied ts L) ∧
    relinked (members L ts) (deletes (members L ts) (heap s)) h'.
Proof.
  intros HR ts.
  destruct (Z_FreeTags_spec PT_ok s L PU_FREE PU_MAX HR) as (f' & h' & Hrun & HR' & Hrel).
  exists f', h'. cbv zeta in *. unfold Z_Close. cbv iota.
  rewrite (bind_eq _ _ _ _ _ Hrun). split; [done|].
  split; [|done]. by eapply rep_frame; [| |exact HR'].
Qed.

(** ** Sessions *)

Lemma Z_Malloc_rep s L size tag user p s' :
  rep s L → Z_Malloc size tag user s = Ret p s' → ∃ L', rep s' L'.
Proof.
  intros HR H. apply (exec_rep PT_ok (OpMalloc size tag user) s L s' HR).
  simpl. by rewrite (bind_eq _ _ _ _ _ H).
Qed.

Lemma Z_Free_rep s L p s' :
  rep s L → Z_Free p s = Ret () s' → ∃ L', rep s' L'.
Proof. intros HR H. exact (exec_rep PT_ok (OpFree p) s L s' HR H). Qed.

Lemma exec_call_rep c s L s' :
  rep s L → exec_call c s = Ret () s' → ∃ L', rep s' L'.
Proof.
  intros HR.
  destruct c as [o|ptr n tag user|n1 n2 tag user|fuel str tag user|ml size|w];
    simpl.
  - by apply (exec_rep PT_ok o s L).
  - intros H. apply bind_Ret_inv in H as (p & s0 & H & [= <-]).
    apply Z_Realloc_inv in H as (s1 & Hm & [[_ ->]|(_ & m' & s3 & Hf & ->)]).
    + by eapply Z_Malloc_rep.
    + destruct (Z_Malloc_rep _ _ _ _ _ _ _ HR Hm) as [L1 HR1].
      assert (HR1' : rep (set_mem (λ _, m') s1) L1)
        by (by eapply rep_frame; [| |exact HR1]).
      destruct (Z_Free_rep _ _ _ _ HR1' Hf) as [L3 HR3]. exists L3.
      case_bool_decide; [done|]. by eapply rep_frame; [| |exact HR3].
  - intros H. apply bind_Ret_inv in H as (p & s0 & H & [= <-]).
    apply Z_Calloc_inv in H as [(_ & _ & ->)|(_ & s1 & Hm & ->)]; [eauto|].
    destruct (Z_Malloc_rep _ _ _ _ _ _ _ HR Hm) as [L1 HR1]. exists L1.
    by eapply rep_frame; [| |exact HR1].
  - intros H. apply bind_Ret_inv in H as (p & s0 & H & [= <-]).
    apply Z_Strdup_inv in H as (n & s1 & m' & _ & Hm & ->).
    destruct (Z_Malloc_rep _ _ _ _ _ _ _ HR Hm) as [L1 HR1]. exists L1.
    by eapply rep_frame; [| |exact HR1].
  - intros [->|(_ & _ & _ & ->)]%Z_SetPurgeLimit_inv; [eauto|].
    exists L. by eapply rep_frame; [| |exact HR].
  - destruct w.
    + rewrite Z_Close_win32. intros [= <-]. exists L.
      by eapply rep_frame; [| |exact HR].
    + destruct (Z_Close_posix s L HR) as (f' & h' & Hrun & HR' & _).
      cbv zeta in Hrun. rewrite Hrun. intros [= <-]. eauto.
Qed.

Lemma session_rep cs : ∀ s L s',
  rep s L → session cs s = Ret () s' → ∃ L', rep s' L'.
Proof.
  induction cs as [|c cs IH]; intros s L s' HR; simpl.
  - intros [= <-]. eauto.
  - intros H. apply bind_Ret_inv in H as ([] & s1 & Hc & H).
    destruct (exec_call_rep _ _ _ _ HR Hc) as [L1 HR1]. by eapply IH.
Qed.

Lemma exec_call_charged c s L s' :
  rep s L → charged s → is_close c = false →
  exec_call c s = Ret () s' → charged s'.
Proof.
  intros HR HC.
  destruct c as [o|ptr n tag user|n1 n2 tag user|fuel str tag user|ml size|w];
    simpl; [|intros _..|done].
  - intros _. by apply (exec_charged _ _ L).
  - intros H. apply bind_Ret_inv in H as (p & s0 & H & [= <-]).
    apply Z_Realloc_inv in H as (s1 & Hm & [[_ ->]|(_ & m' & s3 & Hf & ->)]).
    + by eapply Z_Malloc_charged.
    + destruct (Z_Malloc_rep _ _ _ _ _ _ _ HR Hm) as [L1 HR1].
      assert (HR1' : rep (set_mem (λ _, m') s1) L1)
        by (by eapply rep_frame; [| |exact HR1]).
      assert (HC1 : charged (set_mem (λ _, m') s1)).
      { by apply (Z_Malloc_charged _ _ _ _ _ _ _ HR HC Hm). }
      pose proof (Z_Free_charged _ _ _ _ HR1' HC1 Hf). by case_bool_decide.
  - intros H. apply bind_Ret_inv in H as (p & s0 & H & [= <-]).
    apply Z_Calloc_inv in H as [(_ & _ & ->)|(_ & s1 & Hm & ->)]; [done|].
    by apply (Z_Malloc_charged _ _ _ _ _ _ _ HR HC Hm).
  - intros H. apply bind_Ret_inv in H as (p & s0 & H & [= <-]).
    apply Z_Strdup_inv in H as (n & s1 & m' & _ & Hm & ->).
    by apply (Z_Malloc_charged _ _ _ _ _ _ _ HR HC Hm).
  - by intros [->|(_ & _ & _ & ->)]%Z_SetPurgeLimit_inv.
Qed.

Lemma session_charged cs : ∀ s L s',
  rep s L → charged s → forallb (λ c, negb (is_close c)) cs = true →
  session cs s = Ret () s' → charged s'.
Proof.
  induction cs as [|c cs IH]; intros s L s' HR HC; simpl.
  - by intros _ [= <-].
  - intros [Hc Hcs]%andb_prop H. apply bind_Ret_inv in H as ([] & s1 & Hex & H).
    destruct (exec_call_rep _ _ _ _ HR Hex) as [L1 HR1].
    apply (IH s1 L1 s'); try done.
    apply (exec_call_charged c s L); try done. by destruct (is_close c).
Qed.

(** * Properties of the interface *)

(** ** What an allocation leaves alone *)

(** X1: [Z_Malloc] evicts CACHE blocks only.  A block that carries another
    tag is still live, with its size and tag, when the call returns. *)
Theorem malloc_spares_other_tags s L size tag user p s' a b :
  rep s L → Z_Malloc size tag user s = Ret p s' →
  heap s !! a = Some b → m_tag b ≠ PU_CACHE →
  ∃ b', heap s' !! a = Some b' ∧ m_size b' = m_size b ∧ m_tag b' = m_tag b.
Proof.
  intros HR H Hb Hnc.
  destruct (decide (size = 0)) as [->|Hs].
  { rewrite Z_Malloc_zero in H. injection H as _ <-. exists b.
    by case_bool_decide. }
  destruct (decide (0 <= tag < PU_MAX)) as [Ht|Ht];
    [|by apply Z_Malloc_wild_tag in H].
  destruct (Z_Malloc_spec PT_ok s L size tag user HR Hs Ht)
    as [[sf Hf]|(r & b1 & s2 & L0 & Hr & HR' & Hb1 & _ & _ & _ & _ & _ & _
                 & HL0 & _ & Hsurv)]; [congruence|].
  rewrite Hr in H. injection H as _ <-.
  pose proof (rep_live _ _ HR _ _ Hb) as Ha. rewrite <- (HL0 _ Hnc) in Ha.
  set (L' := <[tag := L0 tag ++ [r]]> L0) in *.
  assert (Ha' : a ∈ L' (m_tag b)).
  { unfold L'. destruct (decide (tag = m_tag b)) as [->|Hne].
    - rewrite fn_lookup_insert. set_solver.
    - by rewrite fn_lookup_insert_ne. }
  destruct (rep_tag _ _ HR' _ _ Ha') as (_ & b' & Hb' & Htag).
  exists b'. split; [done|]. split; [|done].
  assert (Har : a ≠ r).
  { intros ->. pose proof (rep_nodup _ _ HR' tag) as Hnd.
    assert (Hr' : r ∈ L' tag) by (unfold L'; rewrite fn_lookup_insert; set_solver).
    pose proof (rep_disjoint _ _ _ _ _ HR' Ha' Hr') as Heq.
    unfold L' in Hnd. rewrite fn_lookup_insert in Hnd.
    apply list.NoDup_app in Hnd as (_ & Hnd & _). rewrite Heq in Ha.
    apply (Hnd r Ha). left. }
  destruct (Hsurv a b') as (b0 & Hb0 & Hsz & _).
  { by rewrite lookup_delete_ne. }
  congruence.
Qed.

(** ** After a free *)

Lemma rep_unreferenced s L a :
  rep s L → heap s !! a = None → a ≠ 0 → unreferenced s a.
Proof.
  intros HR Ha Ha0. destruct (rep_well_linked _ _ HR) as [Hhead Hlink]. split.
  - intros t Ht Heq. destruct (Hhead t Ht) as (b & Hb & _); congruence.
  - intros x b Hb. destruct (Hlink x b Hb) as (bn & bp & Hn & Hp & _).
    split; congruence.
Qed.

Lemma Z_Free_dead s L block :
  rep s L → heap s !! block = None → block ≠ 0 →
  0 <= block ∧ block + HEADER_SIZE < 2 ^ 64 →
  Z_Free (block + HEADER_SIZE) s = Undef.
Proof.
  intros HR Hb Hb0 Hrange.
  assert (Hsub : ptr_sub (block + HEADER_SIZE) HEADER_SIZE = block).
  { unfold ptr_sub, wrap64, HEADER_SIZE in *. rewrite Z.mod_small; lia. }
  unfold Z_Free. rewrite Hsub.
  rewrite !bool_decide_eq_false_2 by (unfold HEADER_SIZE in *; lia).
  cbn [orb]. unfold unlink. rewrite !bind_assoc. unfold bind at 1, load.
  by rewrite Hb.
Qed.

(** X2: [Z_Free] on the payload of a live block releases that block and
    nothing else.  Afterwards no bucket and no link of a live block refers
    to it, every other block is live with its size and tag, its size has
    been credited to [free_memory], and freeing the same pointer once more
    reads a header that is gone. *)
Theorem freed_block_unreferenced s L block b :
  rep s L → heap s !! block = Some b →
  ∃ s',
    Z_Free (block + HEADER_SIZE) s = Ret () s' ∧
    heap s' !! block = None ∧ unreferenced s' block ∧
    (∀ a b0, a ≠ block → heap s !! a = Some b0 →
       ∃ b', heap s' !! a = Some b' ∧ m_size b' = m_size b0 ∧
             m_tag b' = m_tag b0) ∧
    free_memory s' = sint32 (free_memory s + m_size b) ∧
    trace s' = trace s ++ [EvFree block] ∧
    Z_Free (block + HEADER_SIZE) s' = Undef.
Proof.
  intros HR Hb.
  pose proof (rep_live _ _ HR _ _ Hb) as (l1 & l2 & HL)%list_elem_of_split.
  destruct (Z_Free_spec s L block b l1 l2 HR Hb HL) as (f' & h' & Hrun & HR' & Hrel & _).
  cbv zeta in Hrun, HR'. set (s' := Zone f' _ _ h' _ _ _ _) in *.
  destruct (rep_block_addr _ _ block HR) as (_ & _ & _ & Hb0); [eauto|].
  destruct (rep_addr _ _ HR block) as [Hpos Hlt]; [eauto|].
  assert (Hgone : heap s' !! block = None).
  { specialize (Hrel block). rewrite lookup_delete_eq in Hrel. simpl.
    by destruct (h' !! block). }
  exists s'. split; [done|]. split; [done|].
  split; [by apply (rep_unreferenced s' _ block HR')|].
  split.
  { intros a b0 Hne Ha.
    apply (relinked_Some _ _ _ a b0 Hrel). by rewrite lookup_delete_ne. }
  split; [done|]. split; [done|].
  apply (Z_Free_dead s' _ block HR'); [done|done|lia].
Qed.

(** X3: [Z_Free] never writes to a caller's slot.  The slot given to
    [Z_Malloc] holds the returned pointer, and still holds it when that
    pointer has been freed and its block is gone. *)
Theorem free_leaves_slot_dangling s L size tag user p s1 :
  rep s L → size ≠ 0 → user ≠ 0 →
  Z_Malloc size tag user s = Ret p s1 →
  slots s1 !! user = Some p ∧
  ∃ s2,
    Z_Free p s1 = Ret () s2 ∧
    slots s2 = slots s1 ∧
    heap s2 !! ptr_sub p HEADER_SIZE = None.
Proof.
  intros HR Hs Hu H.
  destruct (decide (0 <= tag < PU_MAX)) as [Ht|Ht];
    [|by apply Z_Malloc_wild_tag in H].
  destruct (Z_Malloc_spec PT_ok s L size tag user HR Hs Ht)
    as [[sf Hf]|(r & b1 & s2 & L0 & Hr & HR' & Hb1 & _ & _ & _ & Hsl & _)];
    [congruence|].
  rewrite Hr in H. injection H as <- <-.
  rewrite bool_decide_eq_false_2 in Hsl by done.
  split; [by rewrite Hsl, lookup_insert_eq|].
  pose proof (rep_live _ _ HR' _ _ Hb1) as (l1 & l2 & HL)%list_elem_of_split.
  destruct (Z_Free_spec s2 _ r b1 l1 l2 HR' Hb1 HL) as (f' & h' & Hrun & _ & Hrel & _).
  destruct (rep_block_addr _ _ r HR') as (_ & Hsub & _); [eauto|].
  eexists. split; [exact Hrun|]. split; [done|]. rewrite Hsub. simpl.
  specialize (Hrel r). rewrite lookup_delete_eq in Hrel. by destruct (h' !! r).
Qed.

(** ** Round trips *)

(** The links of a block are fixed by the bucket lists. *)
Lemma rep_links s L a b l1 l2 :
  rep s L → heap s !! a = Some b → L (m_tag b) = l1 ++ a :: l2 →
  m_next b = hd a (l2 ++ l1) ∧ m_prev b = List.last (l2 ++ l1) a.
Proof.
  intros HR Hb HL.
  pose proof (rep_cycle _ _ HR (m_tag b)) as Hcyc.
  rewrite HL in Hcyc. apply (cycle_rotate _ l1 (a :: l2)) in Hcyc.
  simpl in Hcyc. apply cycle_cons in Hcyc as [pp [_ (b0 & Hb0 & Hpp & Hseg)]].
  assert (b0 = b) as -> by congruence.
  split; [by apply dlseg_first in Hseg|].
  rewrite Hpp. clear Hpp HL.
  destruct (l2 ++ l1) as [|x l] using rev_ind.
  - by destruct Hseg as [_ <-].
  - apply dlseg_snoc in Hseg as (bx & _ & _ & _ & ->). by rewrite last_last.
Qed.

(** Two heaps that hold the same blocks in the same bucket lists are the
    same heap. *)
Lemma rep_unique X s s' L :
  rep s L → rep s' L → relinked X (heap s) (heap s') → heap s' = heap s.
Proof.
  intros HR HR' Hrel. apply map_eq. intros a. specialize (Hrel a).
  destruct (heap s !! a) as [b|] eqn:Hb, (heap s' !! a) as [b'|] eqn:Hb';
    try done.
  destruct Hrel as (Hsz & Htg & _).
  pose proof (rep_live _ _ HR _ _ Hb) as (l1 & l2 & HL)%list_elem_of_split.
  destruct (rep_links _ _ _ _ _ _ HR Hb HL) as [Hn Hp].
  rewrite <- Htg in HL.
  destruct (rep_links _ _ _ _ _ _ HR' Hb' HL) as [Hn' Hp'].
  f_equal. destruct b, b'. simpl in *. congruence.
Qed.

(** With no ceiling and an allocator that grants the request, [Z_Malloc]
    is the request followed by the registration. *)
Lemma Z_Malloc_direct s size tag user :
  size ≠ 0 → memory_size s = 0 → offer s ≠ 0 →
  let sz := round_chunk size in
  let n := wrap64 (sz + HEADER_SIZE) in
  Z_Malloc size tag user s =
    register sz tag user (offer s) (granted n (offer s) s).
Proof.
  intros Hs Hms Ho sz n. rewrite Z_Malloc_unfold by done. fold sz.
  rewrite (bind_eq _ _ _ _ _ (purge_pass_unlimited sz s Hms)), bind_gets.
  unfold fuel_of. cbn [alloc_retry]. fold n.
  rewrite bind_assoc, (bind_eq _ _ _ _ _ (ext_malloc_granted n s Ho)).
  by rewrite bool_decide_eq_false_2.
Qed.

(** X4: with no ceiling and an allocator that grants the request,
    [Z_Malloc] followed by [Z_Free] of the pointer it returned puts every
    header, every bucket and [free_memory] back as they were; what remains
    of the pair is the two calls to the allocator. *)
Theorem malloc_free_round_trip s L size tag user :
  rep s L → size ≠ 0 → 0 <= tag < PU_MAX →
  memory_size s = 0 → offer s ≠ 0 →
  ∃ p s1 s2,
    Z_Malloc size tag user s = Ret p s1 ∧ Z_Free p s1 = Ret () s2 ∧
    heap s2 = heap s ∧
    (∀ t, 0 <= t < PU_MAX → blockbytag s2 t = blockbytag s t) ∧
    free_memory s2 = sint32 (free_memory s) ∧
    memory_size s2 = memory_size s ∧ mem s2 = mem s ∧
    trace s2 = trace s ++
      [EvMalloc (wrap64 (round_chunk size + HEADER_SIZE)) (offer s);
       EvFree (offer s)].
Proof.
  intros HR Hs Ht Hms Ho.
  pose proof (Z_Malloc_direct s size tag user Hs Hms Ho) as Hdirect.
  cbv zeta in Hdirect.
  set (sz := round_chunk size) in *. set (n := wrap64 (sz + HEADER_SIZE)) in *.
  destruct (offer_fresh _ Ho) as (Hr0 & Hr1 & Hfresh).
  set (r := offer s) in *.
  destruct (register_spec PT_ok s (granted n r s) L r sz tag user
              HR Hfresh (conj Hr0 Hr1) eq_refl eq_refl Ht (round_chunk_ok size))
    as (f1 & h1 & b1 & Hreg & Hb1 & Htag & Hsize & HR1 & Hrel1).
  cbv zeta in Hreg, HR1.
  set (s1 := Zone f1 _ _ h1 _ _ _ _) in *.
  assert (HL1 : (<[tag := L tag ++ [r]]> L) (m_tag b1) = L tag ++ r :: [])
    by (by rewrite Htag, fn_lookup_insert).
  destruct (Z_Free_spec s1 _ r b1 (L tag) [] HR1 Hb1 HL1)
    as (f2 & h2 & Hfree & HR2 & Hrel2 & _).
  cbv zeta in Hfree, HR2.
  set (s2 := Zone f2 _ _ h2 _ _ _ _) in *.
  assert (HR2' : rep s2 L).
  { eapply rep_ext; [|exact HR2]. intros t. rewrite Htag.
    destruct (decide (t = tag)) as [->|Hne].
    - by rewrite fn_lookup_insert, app_nil_r.
    - by rewrite !fn_lookup_insert_ne. }
  assert (Hrel : relinked (L tag ++ [r]) (heap s) (heap s2)).
  { rewrite HL1 in Hrel2. eapply relinked_trans; [|exact Hrel2].
    eapply relinked_mono; [|exact Hrel1]. set_solver. }
  exists (r + HEADER_SIZE), s1, s2.
  split; [by rewrite Hdirect|]. split; [exact Hfree|].
  split; [exact (rep_unique _ s s2 L HR HR2' Hrel)|].
  split.
  { intros t Hv. by rewrite (rep_head _ _ HR2' t Hv), (rep_head _ _ HR t Hv). }
  split.
  { simpl. rewrite Hsize, sint32_add_l. f_equal. lia. }
  split; [done|]. split; [done|].
  simpl. by rewrite <- app_assoc.
Qed.

(** X5: retagging a block and tagging it back does not put it back in its
    place.  After [Z_ChangeTag] to another tag and [Z_ChangeTag] to the old
    one the block is the last of its old bucket, the last a purge gets to;
    every other bucket list is as it was, and so are all sizes, the budget
    counter, the allocator and the payload bytes. *)
Theorem change_tag_round_trip s L block b l1 l2 tag :
  rep s L → heap s !! block = Some b → L (m_tag b) = l1 ++ block :: l2 →
  0 <= tag < PU_MAX → tag ≠ m_tag b →
  let ptr := block + HEADER_SIZE in
  ∃ s1 s2,
    Z_ChangeTag ptr tag s = Ret () s1 ∧
    Z_ChangeTag ptr (m_tag b) s1 = Ret () s2 ∧
    rep s2 (<[m_tag b := l1 ++ l2 ++ [block]]> L) ∧
    (∀ a b0, heap s !! a = Some b0 →
       ∃ b', heap s2 !! a = Some b' ∧ m_size b' = m_size b0 ∧
             m_tag b' = m_tag b0) ∧
    free_memory s2 = free_memory s ∧ trace s2 = trace s ∧ mem s2 = mem s.
Proof.
  intros HR Hb HL Ht Hne ptr.
  destruct (rep_tag _ _ HR (m_tag b) block) as [Htb _].
  { rewrite HL. set_solver. }
  destruct (Z_ChangeTag_spec PT_ok s L block b l1 l2 tag HR Hb HL Ht Hne)
    as (f1 & h1 & b1 & Hrun1 & Hb1 & Htag1 & Hsz1 & HR1 & Hrel1).
  cbv zeta in Hrun1, HR1. fold ptr in Hrun1.
  set (s1 := Zone f1 _ _ h1 _ _ _ _) in *.
  set (L1 := <[tag := L tag ++ [block]]> (<[m_tag b := l1 ++ l2]> L)) in *.
  assert (HL1 : L1 (m_tag b1) = L tag ++ block :: []).
  { unfold L1. by rewrite Htag1, fn_lookup_insert. }
  destruct (Z_ChangeTag_spec PT_ok s1 L1 block b1 (L tag) [] (m_tag b) HR1 Hb1 HL1
              Htb ltac:(congruence))
    as (f2 & h2 & b2 & Hrun2 & Hb2 & Htag2 & Hsz2 & HR2 & Hrel2).
  cbv zeta in Hrun2, HR2. fold ptr in Hrun2.
  set (s2 := Zone f2 _ _ h2 _ _ _ _) in *.
  exists s1, s2. split; [done|]. split; [done|]. split.
  { eapply rep_ext; [|exact HR2]. intros t. rewrite Htag1. unfold L1.
    destruct (decide (t = m_tag b)) as [->|Hn1].
    - rewrite !fn_lookup_insert, fn_lookup_insert_ne, fn_lookup_insert by done.
      by rewrite <- app_assoc.
    - rewrite (fn_lookup_insert_ne _ (m_tag b) t) by done.
      rewrite (fn_lookup_insert_ne _ (m_tag b) t) by done.
      destruct (decide (t = tag)) as [->|Hn2].
      + by rewrite fn_lookup_insert, app_nil_r.
      + by rewrite !fn_lookup_insert_ne by done. }
  split; [|done].
  intros a b0 Ha. destruct (decide (a = block)) as [->|Hab].
  - exists b2. split; [done|]. assert (b0 = b) as -> by congruence.
    split; congruence.
  - destruct (relinked_Some _ _ _ a b0 Hrel1) as (b' & Hb' & Hs' & Ht');
      [by rewrite lookup_delete_ne|].
    destruct (relinked_Some _ _ _ a b' Hrel2) as (b'' & Hb'' & Hs'' & Ht'');
      [by rewrite lookup_delete_ne in Hb' |- *|].
    rewrite lookup_delete_ne in Hb'' by done.
    exists b''. split; [done|]. split; congruence.
Qed.

(** ** Purges *)

Lemma for_tags_skip ts s :
  (∀ t, t ∈ ts → 0 <= t < PU_MAX ∧ blockbytag s t = 0) →
  for_tags ts free_bucket s = Ret () s.
Proof.
  induction ts as [|t ts IH]; intros Hts; [done|].
  destruct (Hts t) as [Ht Hz]; [left|].
  cbn [for_tags]. unfold free_bucket at 1.
  rewrite bind_assoc, (bind_eq _ _ _ _ _ (get_bucket_eq t s Ht)), Hz.
  rewrite bool_decide_eq_true_2 by done. rewrite bind_ret.
  apply IH. intros t' Ht'. apply Hts. by right.
Qed.

(** X6: [Z_FreeTags] is idempotent.  Called again with the same range on
    the state it left, it returns that state unchanged: no bucket written,
    no block released, nothing credited. *)
Theorem free_tags_twice s L lowtag hightag s1 :
  rep s L → Z_FreeTags lowtag hightag s = Ret () s1 →
  Z_FreeTags lowtag hightag s1 = Ret () s1.
Proof.
  intros HR H1.
  destruct (Z_FreeTags_spec PT_ok s L lowtag hightag HR) as (f' & h' & Hrun & HR' & _).
  cbv zeta in Hrun, HR'. rewrite Hrun in H1. injection H1 as <-.
  unfold Z_FreeTags. apply for_tags_skip. intros t Ht.
  pose proof (tag_range_valid PT_ok lowtag hightag t Ht) as Hv.
  split; [done|]. rewrite (rep_head _ _ HR' t Hv). unfold emptied.
  by rewrite decide_True.
Qed.

(** X7: a new block joins its bucket at the tail, so that it is the last
    one a purge of the bucket releases: after [Z_Malloc] with tag
    [PU_CACHE] has returned, [Z_FreeTags PU_CACHE PU_CACHE] releases the
    blocks the bucket held before and then the new one. *)
Theorem newest_is_purged_last s L size user p s1 :
  rep s L → size ≠ 0 → Z_Malloc size PU_CACHE user s = Ret p s1 →
  ∃ k s2,
    Z_FreeTags PU_CACHE PU_CACHE s1 = Ret () s2 ∧
    trace s2 =
      trace s1 ++ map EvFree (drop k (L PU_CACHE))
              ++ [EvFree (ptr_sub p HEADER_SIZE)] ∧
    blockbytag s2 PU_CACHE = 0.
Proof.
  intros HR Hs H.
  destruct (Z_Malloc_spec PT_ok s L size PU_CACHE user HR Hs (cache_valid PT_ok))
    as [[sf Hf]|(r & b1 & s2 & L0 & Hr & HR' & Hb1 & _ & _ & _ & _ & _ & _
                 & _ & [k Hk] & _)]; [congruence|].
  rewrite Hr in H. injection H as <- <-.
  destruct (rep_block_addr _ _ r HR') as (_ & Hsub & _); [eauto|].
  destruct (Z_FreeTags_spec PT_ok s2 _ PU_CACHE PU_CACHE HR')
    as (f' & h' & Hrun & HR2 & _).
  rewrite tag_range_cache in Hrun, HR2 by done.
  cbv zeta in Hrun, HR2. unfold members in Hrun. simpl in Hrun.
  rewrite fn_lookup_insert, app_nil_r, Hk in Hrun.
  exists k. eexists. split; [exact Hrun|]. simpl.
  split; [by rewrite Hsub, map_app|].
  pose proof (rep_head _ _ HR2 _ (cache_valid PT_ok)) as Hh. simpl in Hh.
  unfold emptied in Hh. rewrite decide_True in Hh by left. done.
Qed.

(** ** Z_Realloc and Z_Calloc *)

(** X8: [Z_Realloc ptr 0 tag user] on a live block is a [Z_Free]: the
    allocation returns NULL without allocating, the copy of 0 bytes to
    NULL (taken to do nothing) leaves every byte as it was, the block is
    released and credited, NULL is returned and, if a slot was given,
    stored in it. *)
Theorem realloc_to_zero_frees s L block b tag user :
  rep s L → heap s !! block = Some b →
  ∃ s',
    Z_Realloc (block + HEADER_SIZE) 0 tag user s = Ret 0 s' ∧
    heap s' !! block = None ∧
    trace s' = trace s ++ [EvFree block] ∧
    free_memory s' = sint32 (free_memory s + m_size b) ∧
    (∀ a, mem s' a = mem s a) ∧
    slots s' = (if bool_decide (user = 0) then slots s
                else <[user := 0]> (slots s)).
Proof.
  intros HR Hb.
  destruct (rep_block_addr _ _ block HR) as (_ & Hsub & Hp0 & _); [eauto|].
  destruct (rep_size _ _ HR _ _ Hb) as [[Hsz _] _].
  pose proof (rep_live _ _ HR _ _ Hb) as (l1 & l2 & HL)%list_elem_of_split.
  set (ptr := block + HEADER_SIZE) in *.
  set (s0 := if bool_decide (user = 0) then s else set_slots (<[user := 0]>) s).
  set (s1 := set_mem (λ m a, if bool_decide (0 <= a < 0 + 0)
                             then m (ptr + (a - 0)) else m a) s0).
  assert (Hb0 : heap s0 !! block = Some b) by (unfold s0; by case_bool_decide).
  assert (HR1 : rep s1 L).
  { eapply rep_frame; [| |exact HR]; unfold s1, s0; by case_bool_decide. }
  assert (Hb1 : heap s1 !! block = Some b) by done.
  destruct (Z_Free_spec s1 L block b l1 l2 HR1 Hb1 HL) as (f' & h' & Hfree & _ & Hrel & _).
  cbv zeta in Hfree. fold ptr in Hfree.
  set (s2 := Zone f' _ _ h' _ _ _ _) in *.
  exists (if bool_decide (user = 0) then s2 else set_slots (<[user := 0]>) s2).
  split.
  { unfold Z_Realloc. rewrite (bind_eq _ _ _ _ _ (Z_Malloc_zero s tag user)).
    fold s0. rewrite bool_decide_eq_false_2 by done. rewrite Hsub.
    rewrite !bind_assoc, (bind_eq _ _ _ _ _ (load_Some _ _ _ Hb0)).
    rewrite bool_decide_eq_true_2 by done.
    unfold memcpy. rewrite bind_modify. fold s1.
    rewrite !bind_assoc, (bind_eq _ _ _ _ _ Hfree).
    case_bool_decide; by rewrite ?bind_ret, ?bind_modify. }
  assert (Hgone : h' !! block = None).
  { specialize (Hrel block). rewrite lookup_delete_eq in Hrel.
    by destruct (h' !! block). }
  unfold s2, s1, s0.
  case_bool_decide; simpl; repeat (split; [done|]).
  - split; [|done]. intros a. by rewrite bool_decide_eq_false_2 by lia.
  - split; [intros a; by rewrite bool_decide_eq_false_2 by lia|].
    apply insert_insert_eq.
Qed.

(** The copy and the release of [Z_Realloc], once the allocation has
    returned [p] and left the old block live. *)
Lemma Z_Realloc_moves s L block b n tag user p s1 b1 :
  rep s L → heap s !! block = Some b → 0 <= n < 2 ^ 64 →
  Z_Malloc n tag user s = Ret p s1 →
  heap s1 !! block = Some b1 → m_size b1 = m_size b → mem s1 = mem s →
  let ptr := block + HEADER_SIZE in
  ∃ s',
    Z_Realloc ptr n tag user s = Ret p s' ∧
    (p ≠ ptr →
     (∀ i, 0 <= i < Z.min n (m_size b) → mem s' (p + i) = mem s (ptr + i)) ∧
     (∀ i, m_size b <= i < n → mem s' (p + i) = 0)) ∧
    heap s' !! block = None ∧
    (∀ a ba, a ≠ block → heap s1 !! a = Some ba →
       ∃ ba', heap s' !! a = Some ba' ∧ m_size ba' = m_size ba) ∧
    trace s' = trace s1 ++ [EvFree block] ∧
    slots s' = (if bool_decide (user = 0) then slots s1
                else <[user := p]> (slots s1)).
Proof.
  intros HR Hb Hn Hmalloc Hb1 Hsz Hmem ptr.
  destruct (Z_Malloc_rep _ _ _ _ _ _ _ HR Hmalloc) as [L1 HR1].
  destruct (rep_block_addr _ _ block HR1) as (_ & Hsub & Hp0 & Hb0); [eauto|].
  pose proof (rep_live _ _ HR1 _ _ Hb1) as (l1 & l2 & HL)%list_elem_of_split.
  destruct (rep_size _ _ HR _ _ Hb) as [Hsz0 _].
  unfold Z_Realloc. rewrite (bind_eq _ _ _ _ _ Hmalloc).
  fold ptr. rewrite bool_decide_eq_false_2 by done. fold ptr in Hsub.
  rewrite Hsub.
  set (m' := if bool_decide (n <= m_size b1)
             then (λ a, if bool_decide (p <= a < p + n)
                        then mem s1 (ptr + (a - p)) else mem s1 a)
             else (λ a, if bool_decide (p + m_size b1 <= a < p + n) then 0
                        else if bool_decide (p <= a < p + m_size b1)
                             then mem s1 (ptr + (a - p)) else mem s1 a)).
  set (s1' := set_mem (λ _, m') s1).
  assert (HR1' : rep s1' L1) by (by eapply rep_frame; [| |exact HR1]).
  destruct (Z_Free_spec s1' L1 block b1 l1 l2 HR1' Hb1 HL)
    as (f' & h' & Hfree & _ & Hrel & _).
  assert (Hgone : h' !! block = None).
  { specialize (Hrel block). rewrite lookup_delete_eq in Hrel.
    by destruct (h' !! block). }
  cbv zeta in Hfree. fold ptr in Hfree.
  assert (Hcopy :
    (let* b0 := load block in
     if bool_decide (n <= m_size b0) then memcpy p ptr n
     else
       memcpy p ptr (m_size b0) ;;;
       let* b2 := load block in
       memset (p + m_size b2) 0 (wrap64 (n - m_size b2))) s1
    = Ret () s1').
  { rewrite (bind_eq _ _ _ _ _ (load_Some _ _ _ Hb1)).
    unfold s1', m'. case_bool_decide as Hle; [done|].
    unfold memcpy, memset. rewrite bind_modify.
    assert (Hb1m : heap (set_mem (λ m a,
               if bool_decide (p <= a < p + m_size b1)
               then m (ptr + (a - p)) else m a) s1) !! block = Some b1) by done.
    rewrite (bind_eq _ _ _ _ _ (load_Some _ _ _ Hb1m)).
    unfold modify, set_mem. simpl.
    unfold wrap64. rewrite !Z.mod_small by lia.
    replace (p + m_size b1 + (n - m_size b1)) with (p + n) by lia. done. }
  set (sF := Zone f' _ _ h' _ _ _ _) in Hfree.
  exists (if bool_decide (user = 0) then sF else set_slots (<[user := p]>) sF).
  split.
  { rewrite bind_assoc, (bind_eq _ _ _ _ _ Hcopy).
    rewrite bind_assoc, (bind_eq _ _ _ _ _ Hfree).
    case_bool_decide; by rewrite ?bind_ret, ?bind_modify. }
  split; [|split; [|split; [|split]]].
  - intros _. split.
    + intros i Hi. case_bool_decide; simpl; unfold m'; rewrite <- Hmem, Hsz.
      all: case_bool_decide as Hle.
      all: try (rewrite bool_decide_eq_true_2 by lia).
      all: try (rewrite bool_decide_eq_false_2 by lia).
      all: try (rewrite bool_decide_eq_true_2 by lia).
      all: f_equal; lia.
    + intros i Hi. case_bool_decide; simpl; unfold m'; rewrite Hsz.
      all: rewrite bool_decide_eq_false_2 by lia.
      all: by rewrite bool_decide_eq_true_2 by lia.
  - by case_bool_decide.
  - intros a ba Ha Hba.
    destruct (relinked_Some _ _ _ a ba Hrel) as (ba' & Hba' & Hs' & _).
    { by rewrite lookup_delete_ne. }
    exists ba'. split; [by case_bool_decide|done].
  - by case_bool_decide.
  - by case_bool_decide.
Qed.

(** X9: a block that is not purgeable can be reallocated to any size
    [Z_Malloc] can serve.  For a live block whose tag is not [PU_CACHE]
    and [0 < n <= MAX_REQUEST], whenever the allocation of the new block
    returns [p], [Z_Realloc] returns [p], a payload other than the old
    one: the allocation cannot have evicted the old block.  The first
    [min n oldsize] bytes at [p] are those of the old payload, the bytes
    from [oldsize] up to [n] are zero, all of them inside the new block,
    whose recorded size is [n] rounded up, and the old block has been
    released. *)
Theorem realloc_of_unpurgeable_block s L block b n tag user p s1 :
  rep s L → heap s !! block = Some b → m_tag b ≠ PU_CACHE →
  0 < n <= MAX_REQUEST →
  Z_Malloc n tag user s = Ret p s1 →
  let ptr := block + HEADER_SIZE in
  p ≠ ptr ∧
  ∃ s',
    Z_Realloc ptr n tag user s = Ret p s' ∧
    (∀ i, 0 <= i < Z.min n (m_size b) → mem s' (p + i) = mem s (ptr + i)) ∧
    (∀ i, m_size b <= i < n → mem s' (p + i) = 0) ∧
    (∃ bn, heap s' !! ptr_sub p HEADER_SIZE = Some bn ∧
           m_size bn = round_chunk n ∧ n <= m_size bn) ∧
    heap s' !! block = None ∧
    trace s' = trace s1 ++ [EvFree block] ∧
    slots s' = (if bool_decide (user = 0) then slots s1
                else <[user := p]> (slots s1)).
Proof.
  intros HR Hb Hnc Hn H ptr.
  assert (Hn64 : 0 < n < 2 ^ 64)
    by (unfold MAX_REQUEST, CHUNK_SIZE, HEADER_SIZE in Hn; lia).
  destruct (decide (0 <= tag < PU_MAX)) as [Ht|Ht];
    [|apply Z_Malloc_wild_tag in H; [done|lia|done]].
  destruct (Z_Malloc_spec PT_ok s L n tag user HR ltac:(lia) Ht)
    as [[sf Hf]|(r & b1 & s2 & L0 & Hr & HR' & Hb1 & _ & Hsz1 & _ & _ & _ & Hmem
                 & HL0 & _ & Hsurv)]; [congruence|].
  pose proof H as Hmalloc. rewrite Hr in H. injection H as <- <-.
  pose proof (rep_live _ _ HR _ _ Hb) as Ha. rewrite <- (HL0 _ Hnc) in Ha.
  set (L' := <[tag := L0 tag ++ [r]]> L0) in *.
  assert (Ha' : block ∈ L' (m_tag b)).
  { unfold L'. destruct (decide (tag = m_tag b)) as [->|Hne].
    - rewrite fn_lookup_insert. set_solver.
    - by rewrite fn_lookup_insert_ne. }
  destruct (rep_tag _ _ HR' _ _ Ha') as (_ & b' & Hb' & Htag).
  assert (Har : block ≠ r).
  { intros ->. pose proof (rep_nodup _ _ HR' tag) as Hnd.
    assert (Hr' : r ∈ L' tag) by (unfold L'; rewrite fn_lookup_insert; set_solver).
    pose proof (rep_disjoint _ _ _ _ _ HR' Ha' Hr') as Heq.
    unfold L' in Hnd. rewrite fn_lookup_insert in Hnd.
    apply list.NoDup_app in Hnd as (_ & Hnd & _). rewrite Heq in Ha.
    apply (Hnd r Ha). left. }
  assert (Hsz : m_size b' = m_size b).
  { destruct (Hsurv block b') as (b0 & Hb0 & Hsz & _).
    { by rewrite lookup_delete_ne. }
    congruence. }
  assert (Hnew : r + HEADER_SIZE ≠ ptr) by (unfold ptr; lia).
  split; [exact Hnew|].
  destruct (Z_Realloc_moves s L block b n tag user _ s2 b' HR Hb ltac:(lia)
              Hmalloc Hb' Hsz Hmem)
    as (s' & Hrun & Hbytes & Hrest).
  exists s'. split; [exact Hrun|].
  destruct (Hbytes Hnew) as [Hcopy Hzero].
  destruct Hrest as (Hgone & Hothers & Htr & Hsl).
  split; [exact Hcopy|]. split; [exact Hzero|]. split.
  { destruct (rep_block_addr _ _ r HR') as (_ & -> & _); [eauto|].
    destruct (Hothers r b1 ltac:(done) Hb1) as (bn & Hbn & Hbsz).
    exists bn. rewrite Hbsz, Hsz1. split; [done|]. split; [done|].
    by destruct (request_fits n ltac:(lia)). }
  split; [exact Hgone|]. split; [exact Htr|exact Hsl].
Qed.

(** X10: with a non-zero product, [Z_Calloc n1 n2 tag user] is
    [Z_Malloc] of the product taken in [size_t], followed by a zero fill of
    that many bytes: the bytes of the payload are zero, no other byte is
    written, and the count fits the recorded size unless the rounding
    wrapped.  A product that overflows [size_t] is not detected. *)
Theorem calloc_zero_fills s L n1 n2 tag user p s' :
  rep s L → wrap64 (n1 * n2) ≠ 0 →
  Z_Calloc n1 n2 tag user s = Ret p s' →
  let n := wrap64 (n1 * n2) in
  ∃ s1 b,
    Z_Malloc n tag user s = Ret p s1 ∧
    p ≠ 0 ∧
    heap s' !! ptr_sub p HEADER_SIZE = Some b ∧
    m_tag b = tag ∧ m_size b = round_chunk n ∧
    (n <= 2 ^ 64 - CHUNK_SIZE → n <= m_size b) ∧
    (∀ i, 0 <= i < n → mem s' (p + i) = 0) ∧
    (∀ a, ¬ (p <= a < p + n) → mem s' a = mem s a) ∧
    heap s' = heap s1 ∧ slots s' = slots s1 ∧
    free_memory s' = free_memory s1 ∧ trace s' = trace s1.
Proof.
  intros HR Hn H n.
  apply Z_Calloc_inv in H as [(Hz & _)|(_ & s1 & Hm & ->)]; [done|].
  fold n in Hm, Hn |- *.
  destruct (decide (0 <= tag < PU_MAX)) as [Ht|Ht];
    [|by apply Z_Malloc_wild_tag in Hm].
  destruct (Z_Malloc_spec PT_ok s L n tag user HR Hn Ht)
    as [[sf Hf]|(r & b1 & s2 & L0 & Hr & HR' & Hb1 & Htag & Hsz & _ & _ & _
                 & Hmem & _)]; [congruence|].
  rewrite Hr in Hm. injection Hm as <- <-.
  destruct (rep_block_addr _ _ r HR') as (_ & Hsub & Hp0 & _); [eauto|].
  exists s2, b1. split; [done|]. split; [done|]. rewrite Hsub.
  split; [done|]. split; [done|]. split; [done|]. split.
  { intros Hle. rewrite Hsz.
    assert (0 <= n) by (unfold n, wrap64; apply Z.mod_pos_bound; lia).
    destruct (round_chunk_up n); lia. }
  split.
  { intros i Hi. simpl. by rewrite bool_decide_eq_true_2 by lia. }
  split; [|done].
  intros a Ha. simpl. by rewrite bool_decide_eq_false_2, Hmem.
Qed.

(** ** Z_Strdup *)

Lemma strlen_from_spec m str len : ∀ fuel n,
  0 <= n <= len → (Z.to_nat (len - n) < fuel)%nat →
  (∀ i, n <= i < len → m (str + i) ≠ 0) → m (str + len) = 0 →
  strlen_from fuel m str n = Some len.
Proof.
  induction fuel as [|fuel IH]; intros n Hn Hfuel Hnz Hz; [lia|].
  cbn [strlen_from]. destruct (decide (n = len)) as [->|Hne].
  - by rewrite bool_decide_eq_true_2.
  - rewrite bool_decide_eq_false_2 by (apply Hnz; lia).
    apply IH; [lia|lia| |done]. intros i Hi. apply Hnz. lia.
Qed.

Lemma strlen_cstring fuel str len s :
  str ≠ 0 → cstring (mem s) str len → (Z.to_nat len < fuel)%nat →
  strlen fuel str s = Ret len s.
Proof.
  intros Hs (Hlen & Hnz & Hz) Hfuel. unfold strlen.
  rewrite bool_decide_eq_false_2 by done.
  rewrite (strlen_from_spec (mem s) str len fuel 0); [done|lia| | |done].
  - by rewrite Z.sub_0_r.
  - intros i Hi. apply Hnz. lia.
Qed.

(** X11: [Z_Strdup] returns a copy of the string.  For a string of [len]
    bytes at [str], an allocation of [len + 1] bytes that returns [p],
    evicts no block (the string may live in one) and does not overlap the
    string, [Z_Strdup str tag user] returns [p]; the payload holds the same
    [len] bytes and the NUL, which fit the recorded size, and no byte
    elsewhere is written. *)
Theorem strdup_copies_string s L fuel str len tag user p s1 :
  rep s L → str ≠ 0 → cstring (mem s) str len →
  (Z.to_nat len < fuel)%nat → len + 1 <= 2 ^ 64 - CHUNK_SIZE →
  Z_Malloc (len + 1) tag user s = Ret p s1 →
  (∀ a, is_Some (heap s !! a) → is_Some (heap s1 !! a)) →
  p + len < str ∨ str + len < p →
  ∃ s' b,
    Z_Strdup fuel str tag user s = Ret p s' ∧
    cstring (mem s') p len ∧
    (∀ i, 0 <= i <= len → mem s' (p + i) = mem s (str + i)) ∧
    (∀ a, ¬ (p <= a <= p + len) → mem s' a = mem s a) ∧
    heap s' !! ptr_sub p HEADER_SIZE = Some b ∧ m_tag b = tag ∧
    len + 1 <= m_size b ∧
    heap s' = heap s1 ∧ slots s' = slots s1 ∧ trace s' = trace s1.
Proof.
  intros HR Hstr Hcs Hfuel Hlen Hm _ Hapart.
  pose proof Hcs as (Hlen0 & Hnz & Hz).
  assert (Hw : wrap64 (len + 1) = len + 1).
  { unfold wrap64, CHUNK_SIZE in *. rewrite Z.mod_small; lia. }
  destruct (decide (0 <= tag < PU_MAX)) as [Ht|Ht];
    [|apply Z_Malloc_wild_tag in Hm; [done|lia|done]].
  destruct (Z_Malloc_spec PT_ok s L (len + 1) tag user HR ltac:(lia) Ht)
    as [[sf Hf]|(r & b1 & s2 & L0 & Hr & HR' & Hb1 & Htag & Hsz & _ & _ & _
                 & Hmem & _)]; [congruence|].
  rewrite Hr in Hm. injection Hm as <- <-.
  destruct (rep_block_addr _ _ r HR') as (_ & Hsub & Hp0 & _); [eauto|].
  set (p := r + HEADER_SIZE) in *.
  assert (Hcs' : cstring (mem s2) str len) by (by rewrite Hmem).
  eexists _, b1. split.
  { unfold Z_Strdup.
    rewrite (bind_eq _ _ _ _ _ (strlen_cstring fuel str len s Hstr Hcs Hfuel)).
    rewrite Hw, (bind_eq _ _ _ _ _ Hr). unfold strcpy.
    rewrite (bind_eq _ _ _ _ _ (strlen_cstring fuel str len s2 Hstr Hcs' Hfuel)).
    rewrite (bool_decide_eq_false_2 (p = 0)) by done.
    rewrite bool_decide_eq_false_2 by lia. cbn [orb].
    unfold memcpy. rewrite bind_modify. reflexivity. }
  assert (Hcopy : ∀ i, 0 <= i <= len →
            mem (set_mem (λ m a, if bool_decide (p <= a < p + (len + 1))
                                 then m (str + (a - p)) else m a) s2) (p + i)
            = mem s (str + i)).
  { intros i Hi. simpl. rewrite bool_decide_eq_true_2 by lia.
    rewrite Hmem. f_equal. lia. }
  split.
  { split; [done|]. split.
    - intros i Hi. rewrite Hcopy by lia. by apply Hnz.
    - by rewrite Hcopy by lia. }
  split; [exact Hcopy|]. split.
  { intros a Ha. simpl. by rewrite bool_decide_eq_false_2, Hmem by lia. }
  rewrite Hsub. split; [done|]. split; [done|]. split; [|done].
  rewrite Hsz. destruct (round_chunk_up (len + 1)); lia.
Qed.

(** ** Z_Init and Z_Close *)

Lemma uint32_PU_MAX : uint32 PU_MAX = PU_MAX.
Proof.
  destruct PT_ok as (? & ? & ? & ?). unfold uint32. rewrite Z.mod_small; lia.
Qed.

Lemma init_loop ts : ∀ s,
  (∀ t, t ∈ ts → 0 <= t < PU_MAX) →
  ∃ f',
    for_tags ts (λ i, set_bucket i 0) s = Ret () (set_blockbytag (λ _, f') s) ∧
    ∀ t, f' t = if decide (t ∈ ts) then 0 else blockbytag s t.
Proof.
  induction ts as [|t ts IH]; intros s Hts.
  - exists (blockbytag s). split; [by destruct s|].
    intros t. rewrite decide_False; [done|]. apply not_elem_of_nil.
  - destruct (IH (set_blockbytag (<[t := 0]>) s)) as (f' & Hrun & Hf').
    { intros t' Ht'. apply Hts. by right. }
    exists f'. split.
    + cbn [for_tags].
      rewrite (bind_eq _ _ _ _ _ (set_bucket_eq t 0 s (Hts t ltac:(left)))).
      exact Hrun.
    + intros t'. rewrite Hf'. simpl.
      destruct (decide (t' ∈ ts)) as [Hin|Hin].
      * rewrite decide_True; [done|by right].
      * destruct (decide (t' = t)) as [->|Hne].
        -- rewrite fn_lookup_insert, decide_True; [done|left].
        -- rewrite fn_lookup_insert_ne by done.
           rewrite decide_False; [done|]. by intros [?|?]%elem_of_cons.
Qed.

Lemma Z_Init_spec s :
  ∃ f',
    Z_Init s = Ret true (set_blockbytag (λ _, f') s) ∧
    ∀ t, f' t = if decide (0 <= t < PU_MAX) then 0 else blockbytag s t.
Proof.
  destruct (init_loop (seqZ 0 PU_MAX) s) as (f' & Hrun & Hf').
  { intros t. rewrite elem_of_seqZ. lia. }
  exists f'. split.
  - unfold Z_Init. by rewrite uint32_PU_MAX, (bind_eq _ _ _ _ _ Hrun).
  - intros t. rewrite Hf'.
    destruct (decide (0 <= t < PU_MAX)) as [Ht|Ht].
    + rewrite decide_True; [done|]. rewrite elem_of_seqZ. lia.
    + rewrite decide_False; [done|]. rewrite elem_of_seqZ. lia.
Qed.

Lemma rep_empty s :
  heap s = ∅ → (∀ t, 0 <= t < PU_MAX → blockbytag s t = 0) → rep s (λ _, []).
Proof.
  intros Hh Hf. split; rewrite ?Hh.
  - intros a b. by rewrite lookup_empty.
  - intros a [b Hb]. by rewrite lookup_empty in Hb.
  - intros t a Ha. by apply elem_of_nil in Ha.
  - intros _. apply NoDup_nil_2.
  - intros _. apply cycle_nil.
  - done.
  - intros a b. by rewrite lookup_empty.
Qed.

Lemma live_count_pos s a b :
  heap s !! a = Some b → live_count s (m_tag b) ≠ 0%nat.
Proof.
  intros Hb. unfold live_count.
  assert (Hin : (a, b) ∈ filter (λ ab : Z * memblock_t, m_tag ab.2 = m_tag b)
                              (map_to_list (heap s))).
  { apply list_elem_of_filter. split; [done|]. by apply elem_of_map_to_list. }
  destruct (filter _ _); [by apply elem_of_nil in Hin|done].
Qed.

(** X12: [Z_Init] writes NULL into every bucket and nothing else: it
    releases no block and leaves both counters alone.  On a zone with no
    live block the result is the consistent empty zone; a block that was
    live is still live, and the bucket of its tag, now NULL, no longer
    accounts for it. *)
Theorem Z_Init_forgets_blocks s :
  ∃ s',
    Z_Init s = Ret true s' ∧
    (∀ t, 0 <= t < PU_MAX → blockbytag s' t = 0) ∧
    heap s' = heap s ∧ trace s' = trace s ∧
    free_memory s' = free_memory s ∧ memory_size s' = memory_size s ∧
    (heap s = ∅ → rep s' (λ _, [])) ∧
    (∀ a b, heap s !! a = Some b → 0 <= m_tag b < PU_MAX →
       ¬ bucket_valid s' (m_tag b)).
Proof.
  destruct (Z_Init_spec s) as (f' & Hrun & Hf').
  eexists. split; [exact Hrun|].
  assert (Hz : ∀ t, 0 <= t < PU_MAX → f' t = 0).
  { intros t Ht. by rewrite Hf', decide_True. }
  split; [exact Hz|]. repeat (split; [done|]). split.
  - intros Hh. by apply rep_empty.
  - intros a b Hb Ht [Hhead _]. cbn [blockbytag set_blockbytag] in Hhead.
    pose proof (live_count_pos (set_blockbytag (λ _, f') s) a b Hb) as Hpos.
    apply Hhead in Hpos. by apply Hpos, Hz.
Qed.

Lemma freed_range s L ts h' a b :
  rep s L → relinked (members L ts) (deletes (members L ts) (heap s)) h' →
  heap s !! a = Some b →
  h' !! a = if decide (m_tag b ∈ ts) then None else Some b.
Proof.
  intros HR Hrel Hb.
  assert (Hmem : a ∈ members L ts ↔ m_tag b ∈ ts).
  { rewrite elem_of_members. split.
    - intros (t & Ht & Ha).
      destruct (rep_tag _ _ HR t a Ha) as (_ & b0 & Hb0 & <-). congruence.
    - intros Ht. exists (m_tag b). split; [done|]. by apply (rep_live _ _ HR). }
  destruct (decide (m_tag b ∈ ts)) as [Ht|Ht].
  - specialize (Hrel a). rewrite lookup_deletes, decide_True in Hrel by by apply Hmem.
    by destruct (h' !! a).
  - rewrite (relinked_outside _ _ _ a Hrel) by by rewrite Hmem.
    rewrite lookup_deletes, decide_False; [done|]. by rewrite Hmem.
Qed.

Lemma close_range t : t ∈ tag_range PU_FREE PU_MAX ↔ PU_FREE < t <= PU_CACHE.
Proof.
  rewrite elem_of_tag_range. destruct PT_ok as (? & ? & ? & ?). lia.
Qed.

(** X13: where [_WIN32] is not defined, [Z_Close] on a consistent zone
    releases every block whose tag lies above [PU_FREE] and up to
    [PU_CACHE], bucket after bucket, empties those buckets and zeroes both
    counters.  A block tagged [PU_FREE] or above [PU_CACHE] is not
    released, and is no longer charged.  Where [_WIN32] is defined no
    block at all is released and only the counters change. *)
Theorem Z_Close_releases_purgeable s L :
  rep s L →
  (∃ s',
     Z_Close false s = Ret () s' ∧
     memory_size s' = 0 ∧ free_memory s' = 0 ∧
     (∀ a b, heap s !! a = Some b →
        heap s' !! a = if decide (PU_FREE < m_tag b <= PU_CACHE) then None
                       else Some b) ∧
     (∀ t, PU_FREE < t <= PU_CACHE → blockbytag s' t = 0) ∧
     trace s' = trace s ++ map EvFree (members L (tag_range PU_FREE PU_MAX)) ∧
     (∃ L', rep s' L')) ∧
  ∃ s',
    Z_Close true s = Ret () s' ∧
    memory_size s' = 0 ∧ free_memory s' = 0 ∧
    heap s' = heap s ∧ blockbytag s' = blockbytag s ∧ trace s' = trace s.
Proof.
  intros HR. split; [|by eexists].
  destruct (Z_Close_posix s L HR) as (f' & h' & Hrun & HR' & Hrel).
  cbv zeta in Hrun, HR'. eexists. split; [exact Hrun|].
  cbn [memory_size free_memory heap blockbytag trace].
  split; [done|]. split; [done|]. split; [|split; [|split; [done|eauto]]].
  - intros a b Hb. rewrite (freed_range s L _ h' a b HR Hrel Hb).
    destruct (decide (m_tag b ∈ _)) as [Hin|Hin].
    + rewrite decide_True; [done|]. by apply close_range.
    + rewrite decide_False; [done|]. by rewrite <- close_range.
  - intros t Ht. destruct PT_ok as (? & ? & ? & ?).
    pose proof (rep_head _ _ HR' t ltac:(lia)) as Hh. simpl in Hh.
    unfold emptied in Hh. rewrite decide_True in Hh by (by apply close_range).
    done.
Qed.

(** X14: closing and initialising again gives a fresh zone.  If every live
    block carries a tag above [PU_FREE] and up to [PU_CACHE], then after
    [Z_Close] (without [_WIN32]) and [Z_Init] no block is live, every
    bucket is NULL, both counters are zero, and the zone is consistent
    and has no ceiling. *)
Theorem close_then_init_is_fresh s L :
  rep s L →
  (∀ a b, heap s !! a = Some b → PU_FREE < m_tag b <= PU_CACHE) →
  ∃ s1 s2,
    Z_Close false s = Ret () s1 ∧ Z_Init s1 = Ret true s2 ∧
    heap s2 = ∅ ∧ (∀ t, 0 <= t < PU_MAX → blockbytag s2 t = 0) ∧
    memory_size s2 = 0 ∧ free_memory s2 = 0 ∧
    rep s2 (λ _, []) ∧ charged s2 ∧
    mem s2 = mem s ∧ slots s2 = slots s.
Proof.
  intros HR Hall.
  destruct (Z_Close_posix s L HR) as (f1 & h1 & Hrun1 & HR1 & Hrel).
  cbv zeta in Hrun1, HR1. set (s1 := Zone f1 _ _ h1 _ _ _ _) in *.
  destruct (Z_Init_spec s1) as (f2 & Hrun2 & Hf2).
  assert (Hh : h1 = ∅).
  { apply map_empty. intros a. destruct (h1 !! a) as [b1|] eqn:Hb1; [|done].
    destruct (relinked_Some_inv _ _ _ _ _ Hrel Hb1) as (b & Hb & _).
    rewrite lookup_deletes in Hb. destruct (decide (a ∈ _)); [done|].
    rewrite (freed_range s L _ h1 a b HR Hrel Hb) in Hb1.
    rewrite decide_True in Hb1; [done|]. apply close_range. by eapply Hall. }
  assert (Hz : ∀ t, 0 <= t < PU_MAX → f2 t = 0).
  { intros t Ht. by rewrite Hf2, decide_True. }
  exists s1, (set_blockbytag (λ _, f2) s1).
  split; [done|]. split; [done|]. split; [done|]. split; [exact Hz|].
  split; [done|]. split; [done|]. split; [by apply rep_empty|].
  split; [|done]. unfold charged. simpl. by rewrite Hh, total_empty.
Qed.

(** ** Z_SetPurgeLimit *)

(** X15: without [MEMORY_LOW], [Z_SetPurgeLimit] does nothing.  With
    [MEMORY_LOW], a size equal to the current ceiling is accepted as it
    is, whatever it is; any other size below 8 MiB ends in [I_Error] with
    the ceiling unchanged, and any other size becomes the ceiling.  No
    other part of the state is written, so a ceiling of at least 8 MiB is
    still one after the call, and the ceiling cannot be lifted (set to 0)
    by this function. *)
Theorem set_purge_limit_floor size s :
  Z_SetPurgeLimit false size s = Ret () s ∧
  (size = memory_size s → Z_SetPurgeLimit true size s = Ret () s) ∧
  (size ≠ memory_size s → size < MIN_MEMORY_SIZE →
     Z_SetPurgeLimit true size s = Fatal s) ∧
  (size ≠ memory_size s → MIN_MEMORY_SIZE <= size →
     Z_SetPurgeLimit true size s = Ret () (set_memory_size size s)) ∧
  (∀ memory_low s',
     Z_SetPurgeLimit memory_low size s = Ret () s' →
     (MIN_MEMORY_SIZE <= memory_size s → MIN_MEMORY_SIZE <= memory_size s') ∧
     (memory_size s ≠ 0 → memory_size s' ≠ 0) ∧
     blockbytag s' = blockbytag s ∧ free_memory s' = free_memory s ∧
     heap s' = heap s ∧ mem s' = mem s ∧ slots s' = slots s ∧
     trace s' = trace s).
Proof.
  split; [done|].
  split; [|split; [|split]].
  - intros ->. unfold Z_SetPurgeLimit. rewrite bind_gets.
    by rewrite bool_decide_eq_true_2.
  - intros Hne Hlt. unfold Z_SetPurgeLimit. rewrite bind_gets.
    by rewrite bool_decide_eq_false_2, bool_decide_eq_true_2.
  - intros Hne Hge. unfold Z_SetPurgeLimit. rewrite bind_gets.
    rewrite bool_decide_eq_false_2 by done.
    by rewrite bool_decide_eq_false_2 by lia.
  - intros ml s' H.
    apply Z_SetPurgeLimit_inv in H as [->|(_ & _ & Hge & ->)]; [done|].
    simpl. repeat split; try done. unfold MIN_MEMORY_SIZE in Hge. lia.
Qed.

(** ** Sessions *)

Lemma total_nonneg h :
  (∀ a b, h !! a = Some b → 0 <= m_size b) → 0 <= total h.
Proof.
  induction h as [|a b h Ha IH] using map_ind; intros Hsz.
  - by rewrite total_empty.
  - rewrite total_insert by done.
    pose proof (Hsz a b (lookup_insert_eq _ _ _)).
    assert (0 <= total h); [|lia].
    apply IH. intros a' b' Hb'. apply (Hsz a' b').
    rewrite lookup_insert_ne; [done|]. intros ->. congruence.
Qed.

(** X16: the bucket invariant holds for the whole interface.  After every
    sequence of calls to [Z_Malloc], [Z_Free], [Z_ChangeTag], [Z_FreeTags],
    [Z_Realloc], [Z_Calloc], [Z_Strdup], [Z_SetPurgeLimit] and [Z_Close]
    that returns, started on the empty zone, the bucket of every tag has a
    head exactly when the tag has live blocks, and following [next] from
    the head visits each of them once and comes back to the head. *)
Theorem session_buckets_valid cs ceiling m sl sc s t :
  session cs (zone_init ceiling m sl sc) = Ret () s →
  0 <= t < PU_MAX →
  bucket_valid s t.
Proof.
  intros Hrun Ht.
  destruct (session_rep cs _ _ _ (rep_init ceiling m sl sc) Hrun) as [L HR].
  by eapply rep_bucket_valid.
Qed.

(** X17: no link dangles.  After every such sequence of calls, every
    non-NULL bucket points to a live block of its tag, and the [next] and
    [prev] of every live block are live blocks of the same tag whose
    [prev] and [next] lead back to it. *)
Theorem session_links_closed cs ceiling m sl sc s :
  session cs (zone_init ceiling m sl sc) = Ret () s →
  well_linked s.
Proof.
  intros Hrun.
  destruct (session_rep cs _ _ _ (rep_init ceiling m sl sc) Hrun) as [L HR].
  by eapply rep_well_linked.
Qed.

(** X18: the books balance.  After every sequence of calls without
    [Z_Close] that returns, started on the empty zone, [free_memory] is the
    negated sum of the recorded sizes of the live blocks, reduced to an
    [int]; it is exactly that negated sum as long as the sum does not
    exceed 2^31. *)
Theorem session_books_balance cs ceiling m sl sc s :
  session cs (zone_init ceiling m sl sc) = Ret () s →
  forallb (λ c, negb (is_close c)) cs = true →
  free_memory s = sint32 (- total (heap s)) ∧
  0 <= total (heap s) ∧
  (total (heap s) <= 2 ^ 31 → free_memory s = - total (heap s)).
Proof.
  intros Hrun Hcs.
  destruct (session_rep cs _ _ _ (rep_init ceiling m sl sc) Hrun) as [L HR].
  assert (HC : charged s).
  { apply (session_charged cs _ _ _ (rep_init ceiling m sl sc)); [|done..].
    unfold charged. simpl. by rewrite total_empty. }
  assert (Hpos : 0 <= total (heap s)).
  { apply total_nonneg. intros a b Hb.
    destruct (rep_size _ _ HR _ _ Hb) as [[? _] _]. done. }
  split; [exact HC|]. split; [exact Hpos|].
  intros Hle. rewrite HC. apply sint32_small. lia.
Qed.


(** ** Failure and misuse *)

Lemma register_wild_tag size tag user block s :
  ¬ (0 <= tag < PU_MAX) → register size tag user block s = Undef.
Proof.
  intros Ht. unfold register, link. rewrite !bind_assoc.
  unfold bind at 1, get_bucket. by rewrite bool_decide_eq_false_2.
Qed.

(** X20: the ceiling is advisory.  Whatever [memory_size] and
    [free_memory] are, [Z_Malloc] ends in [I_Error] only when the external
    allocator has just refused the request and the CACHE bucket is empty:
    the last call recorded is that refusal.  Running over the ceiling is
    never an error. *)
Theorem malloc_dies_only_on_refusal s L size tag user s' :
  rep s L → Z_Malloc size tag user s = Fatal s' →
  size ≠ 0 ∧
  blockbytag s' PU_CACHE = 0 ∧
  ∃ tr, trace s' = tr ++ [EvMalloc (wrap64 (round_chunk size + HEADER_SIZE)) 0].
Proof.
  intros HR H.
  destruct (decide (size = 0)) as [->|Hs]; [by rewrite Z_Malloc_zero in H|].
  split; [done|].
  destruct (Z_Malloc_outcomes PT_ok s L size tag user HR Hs)
    as (s1 & L1 & HR1 & _ & [[Ho Hr]|[Hf Hl]]).
  - exfalso. rewrite Hr in H.
    destruct (decide (0 <= tag < PU_MAX)) as [Ht|Ht];
      [|by rewrite register_wild_tag in H].
    destruct (offer_fresh _ Ho) as (Hr0 & Hr1 & Hfresh).
    destruct (register_spec PT_ok s1
                (granted (wrap64 (round_chunk size + HEADER_SIZE)) (offer s1) s1)
                L1 (offer s1)
                (round_chunk size) tag user HR1 Hfresh (conj Hr0 Hr1)
                eq_refl eq_refl Ht (round_chunk_ok size))
      as (f' & h' & b' & Hreg & _).
    cbv zeta in Hreg. congruence.
  - rewrite Hf in H. injection H as <-. split.
    + simpl. by rewrite (rep_head _ _ HR1 _ (cache_valid PT_ok)), Hl.
    + by eexists.
Qed.

(** X21: tags are not range-checked.  With a tag that does not index
    [blockbytag], [Z_ChangeTag] on a live block reads [blockbytag[tag]]
    outside the table once it has unlinked the block, and [Z_Malloc] of a
    non-zero size does so once it has evicted and allocated, unless the
    allocator refused and the call ended in [I_Error].  That read is
    undefined behaviour ([Undef]): nothing is said of what the call does
    from there on, whether it returns or not. *)
Theorem tags_are_not_checked s L block b size tag user :
  rep s L → heap s !! block = Some b → ¬ (0 <= tag < PU_MAX) → size ≠ 0 →
  Z_ChangeTag (block + HEADER_SIZE) tag s = Undef ∧
  (Z_Malloc size tag user s = Undef ∨ ∃ s', Z_Malloc size tag user s = Fatal s').
Proof.
  intros HR Hb Ht Hs. split.
  - destruct (rep_block_addr _ _ block HR) as (_ & Hsub & Hp0 & _); [eauto|].
    pose proof (rep_live _ _ HR _ _ Hb) as Hin.
    pose proof Hin as (l1 & l2 & HL)%list_elem_of_split.
    destruct (rep_tag _ _ HR _ _ Hin) as [Hv _].
    destruct (unlink_rep s L block b l1 l2 HR Hb HL) as (f' & h1 & Hun & _).
    unfold Z_ChangeTag. rewrite Hsub, bool_decide_eq_false_2 by done.
    rewrite (bind_eq _ _ _ _ _ (load_Some _ _ _ Hb)).
    rewrite bool_decide_eq_false_2 by (intros ->; done).
    rewrite (bind_eq _ _ _ _ _ Hun). unfold link. rewrite !bind_assoc.
    unfold bind at 1, get_bucket. by rewrite bool_decide_eq_false_2.
  - destruct (Z_Malloc_outcomes PT_ok s L size tag user HR Hs)
      as (s1 & L1 & _ & _ & [[_ ->]|[-> _]]).
    + left. by apply register_wild_tag.
    + right. by eexists.
Qed.

End Api.

(** * The concrete runs *)

Section RunFacts.
#[local] Existing Instance doom_tags.

Lemma doom_tags_ok : tags_ok.
Proof. unfold tags_ok. simpl. lia. Qed.

Example mixed_state_buckets :
  map (blockbytag mixed_state) (seqZ 0 7) = [0; 12288; 0; 0; 0; 0; 16384] ∧
  heap mixed_state !! 4096 = None ∧
  heap mixed_state !! 8192 = Some (Memblock 12288 12288 32 1) ∧
  heap mixed_state !! 12288 = Some (Memblock 8192 8192 64 1) ∧
  heap mixed_state !! 16384 = Some (Memblock 16384 16384 128 6) ∧
  slots mixed_state !! 77 = Some (12288 + 32) ∧
  free_memory mixed_state = - 224 ∧
  trace mixed_state =
    [EvMalloc 64 4096; EvMalloc 96 12288; EvMalloc 64 8192;
     EvMalloc 160 16384; EvFree 4096].
Proof. vm_compute. done. Qed.

Lemma buckets_stay_valid_witness :
  run mixed_ops mixed_init = Ret () mixed_state ∧
  0 <= 1 < PU_MAX ∧
  bucket_valid mixed_state 1.
Proof.
  assert (Hrun : run mixed_ops mixed_init = Ret () mixed_state)
    by (vm_compute; reflexivity).
  assert (Ht : 0 <= 1 < PU_MAX) by (simpl; lia).
  split; [exact Hrun|]. split; [exact Ht|].
  exact (buckets_stay_valid doom_tags_ok mixed_ops 0 no_bytes ∅
           [4096; 12288; 8192; 16384] mixed_state 1 Hrun Ht).
Defined.

(** Every state a run from the initial state ends in is consistent. *)
Lemma final_rep ops ceiling m sl sc s :
  run ops (zone_init ceiling m sl sc) = Ret () s → ∃ L, rep s L.
Proof. apply (run_rep doom_tags_ok ops _ (λ _, [])), rep_init. Qed.

(** ** Allocation failure *)

Lemma cache_state_run : run cache_ops cache_init = Ret () cache_state.
Proof. vm_compute. reflexivity. Qed.

Example refused_then_granted :
  Z_Malloc 10 1 0 cache_state
    = Ret (12288 + 32) (final [OpMalloc 10 1 0] cache_state) ∧
  trace (final [OpMalloc 10 1 0] cache_state) =
    trace cache_state ++
    [EvMalloc 64 0; EvFree 4096; EvFree 8192; EvMalloc 64 12288] ∧
  blockbytag (final [OpMalloc 10 1 0] cache_state) PU_CACHE = 0.
Proof. vm_compute. done. Qed.

Example refused_with_empty_cache :
  ∃ s', Z_Malloc 10 1 0 (zone_init 0 no_bytes ∅ [0]) = Fatal s'.
Proof. eexists. vm_compute. reflexivity. Qed.

Lemma malloc_retries_or_dies_witness :
  0 < 10 <= MAX_REQUEST ∧ 0 <= 1 < PU_MAX ∧
  returns_or_dies (Z_Malloc 10 1 0 cache_state) 1 10.
Proof.
  assert (Hs : 0 < 10 <= MAX_REQUEST)
    by (unfold MAX_REQUEST, CHUNK_SIZE, HEADER_SIZE; lia).
  assert (Ht : 0 <= 1 < PU_MAX) by (simpl; lia).
  split; [exact Hs|]. split; [exact Ht|].
  destruct (final_rep _ _ _ _ _ _ cache_state_run) as [L HR].
  exact (proj2 (proj2 (proj2 (malloc_retries_or_dies doom_tags_ok cache_state L
                                10 1 0 HR Hs Ht)))).
Defined.

(** A request of [SIZE_MAX - 31] bytes: with the header added the byte
    count wraps to 0.  The allocator is asked for no bytes at all, a
    header is written to what it gave, and the address 32 bytes further
    on is returned as a payload of [SIZE_MAX - 31] bytes.  A request of
    [SIZE_MAX] bytes is rounded to 0: the payload returned is that of a
    block of recorded size 0, obtained with a request for the 32 bytes of
    the header. *)
Lemma malloc_retries_or_dies_counterexample :
  let size := 2 ^ 64 - 32 in
  let s' := final [OpMalloc size 1 0] roomy_init in
  let s'' := final [OpMalloc (2 ^ 64 - 1) 1 0] roomy_init in
  (0 < size ∧ 0 <= 1 < PU_MAX) ∧
  Z_Malloc size 1 0 roomy_init = Ret (4096 + 32) s' ∧
  heap s' !! 4096 = Some (Memblock 4096 4096 size 1) ∧
  trace s' = [EvMalloc 0 4096] ∧
  ¬ usable s' (4096 + 32) 1 size ∧
  Z_Malloc (2 ^ 64 - 1) 1 0 roomy_init = Ret (4096 + 32) s'' ∧
  heap s'' !! 4096 = Some (Memblock 4096 4096 0 1) ∧
  trace s'' = [EvMalloc 32 4096] ∧
  ¬ usable s'' (4096 + 32) 1 (2 ^ 64 - 1).
Proof.
  cbv zeta. split; [by vm_compute|].
  split; [by vm_compute|]. split; [by vm_compute|]. split; [by vm_compute|].
  split.
  { intros (_ & b & Hb & _ & _ & _ & Hlast). vm_compute in Hb.
    injection Hb as <-. vm_compute in Hlast. discriminate Hlast. }
  split; [by vm_compute|]. split; [by vm_compute|]. split; [by vm_compute|].
  intros (_ & b & Hb & _ & Hsz & Hle & _). vm_compute in Hb.
  injection Hb as <-. simpl in Hle. lia.
Qed.

(** ** The proactive pass *)

Lemma budget_state_run :
  run [OpMalloc 10 PU_CACHE 0] budget_init = Ret () budget_state.
Proof. vm_compute. reflexivity. Qed.

(** A request of 2 GiB exceeds the headroom by far, yet nothing is evicted:
    converted to [int], [size + HEADER_SIZE] is negative. *)
Lemma proactive_eviction_counterexample :
  let s := budget_state in
  let size := 2 ^ 31 in
  size > 0 ∧ memory_size s > 0 ∧
  free_memory s + memory_size s < round_chunk size + HEADER_SIZE ∧
  blockbytag s PU_CACHE = 4096 ∧
  purge_pass (round_chunk size) s = Ret () s ∧
  ∃ p s', Z_Malloc size 1 0 s = Ret p s' ∧
          trace s' = trace s ++ [EvMalloc (2 ^ 31 + 32) 8192].
Proof.
  cbv zeta. repeat (split; [by vm_compute|]).
  exists (8192 + 32), (final [OpMalloc (2 ^ 31) 1 0] budget_state).
  by vm_compute.
Qed.

Lemma tight_state_run : run tight_ops tight_init = Ret () tight_state.
Proof. vm_compute. reflexivity. Qed.

(** Under a ceiling of 256 bytes with three CACHE blocks of 64, a request
    of 100 evicts the two oldest, after which the headroom suffices. *)
Example oldest_first :
  free_memory tight_state = - 192 ∧
  trace (final [OpMalloc 100 1 0] tight_state) =
    trace tight_state ++ [EvFree 4096; EvFree 8192; EvMalloc 160 16384] ∧
  blockbytag (final [OpMalloc 100 1 0] tight_state) PU_CACHE = 12288.
Proof. vm_compute. done. Qed.

Lemma proactive_eviction_witness :
  100 ≠ 0 ∧ memory_size tight_state > 0 ∧
  short_of (free_memory tight_state) (memory_size tight_state) (round_chunk 100)
    = true ∧
  ∃ s', purge_pass (round_chunk 100) tight_state = Ret () s' ∧
        memory_size s' = memory_size tight_state ∧
        Z_Malloc 100 1 0 tight_state =
          (let* fuel := gets fuel_of in
           let* block := alloc_retry fuel (round_chunk 100) in
           register (round_chunk 100) 1 0 block)%zone s'.
Proof.
  assert (Hs : 100 ≠ 0) by lia.
  assert (Hms : memory_size tight_state > 0) by (vm_compute; reflexivity).
  assert (Hshort : short_of (free_memory tight_state) (memory_size tight_state)
                     (round_chunk 100) = true) by (vm_compute; reflexivity).
  split; [exact Hs|]. split; [exact Hms|]. split; [exact Hshort|].
  destruct (final_rep _ _ _ _ _ _ tight_state_run) as [L HR].
  destruct (proactive_eviction doom_tags_ok tight_state L 100 1 0 HR Hs Hms Hshort)
    as (k & s' & Hrun & _ & _ & _ & Hm & _ & _ & _ & _ & Hrest).
  exists s'. split; [exact Hrun|]. split; [exact Hm|exact Hrest].
Defined.

(** ** No ceiling *)

(** With no ceiling, a refused request still evicts the CACHE bucket. *)
Lemma unlimited_eviction_counterexample :
  memory_size cache_state = 0 ∧
  heap cache_state !! 4096 = Some (Memblock 8192 8192 32 6) ∧
  heap cache_state !! 8192 = Some (Memblock 4096 4096 32 6) ∧
  ∃ p s', Z_Malloc 10 1 0 cache_state = Ret p s' ∧
          heap s' !! 4096 = None ∧ heap s' !! 8192 = None.
Proof.
  repeat (split; [by vm_compute|]).
  exists (12288 + 32), (final [OpMalloc 10 1 0] cache_state). by vm_compute.
Qed.

Lemma roomy_state_run :
  run [OpMalloc 10 PU_CACHE 0] roomy_init = Ret () roomy_state.
Proof. vm_compute. reflexivity. Qed.

Lemma unlimited_no_proactive_eviction_witness :
  10 ≠ 0 ∧ 0 <= 1 < PU_MAX ∧ memory_size roomy_state = 0 ∧
  offer roomy_state ≠ 0 ∧
  purge_pass (round_chunk 10) roomy_state = Ret () roomy_state ∧
  ∃ p s',
    Z_Malloc 10 1 0 roomy_state = Ret p s' ∧
    ∀ a b, heap roomy_state !! a = Some b →
      ∃ b', heap s' !! a = Some b' ∧ m_size b' = m_size b ∧ m_tag b' = m_tag b.
Proof.
  assert (Hs : 10 ≠ 0) by lia.
  assert (Ht : 0 <= 1 < PU_MAX) by (simpl; lia).
  assert (Hms : memory_size roomy_state = 0) by (vm_compute; reflexivity).
  assert (Ho : offer roomy_state ≠ 0) by (vm_compute; discriminate).
  repeat (split; [assumption|]).
  destruct (final_rep _ _ _ _ _ _ roomy_state_run) as [L HR].
  destruct (unlimited_no_proactive_eviction doom_tags_ok roomy_state L 10 1 0
              HR Hs Ht Hms) as [Hpass Hcall].
  split; [exact Hpass|].
  destruct (Hcall Ho) as (p & s' & Hrun & _ & Hlive).
  exists p, s'. split; [exact Hrun|exact Hlive].
Defined.

(** ** Z_Realloc *)

(** An 8 MiB CACHE block under the 16 MiB ceiling, grown to 12 MiB: the
    proactive pass of the allocation evicts the very block that is being
    reallocated, and the copy reads a header that is gone. *)
Lemma realloc_moves_payload_counterexample :
  heap grow_state !! 4096 = Some (Memblock 4096 4096 (8 * MiB) PU_CACHE) ∧
  (∃ s1, Z_Malloc (12 * MiB) PU_CACHE 0 grow_state
           = Ret (4096 + 16 * MiB + 32) s1 ∧
         heap s1 !! 4096 = None) ∧
  Z_Realloc (4096 + 32) (12 * MiB) PU_CACHE 0 grow_state = Undef.
Proof.
  split; [by vm_compute|]. split; [|by vm_compute].
  exists (final [OpMalloc (12 * MiB) PU_CACHE 0] grow_state). by vm_compute.
Qed.

Lemma static_state_run : run [OpMalloc 40 1 0] static_init = Ret () static_state.
Proof. vm_compute. reflexivity. Qed.

Lemma realloc_moves_payload_witness :
  let s := static_state in
  let s1 := final [OpMalloc 100 1 77] static_state in
  heap s !! 4096 = Some (Memblock 4096 4096 64 1) ∧
  Z_Malloc 100 1 77 s = Ret (8192 + 32) s1 ∧
  heap s1 !! 4096 = Some (Memblock 8192 8192 64 1) ∧
  0 <= 100 <= MAX_REQUEST ∧
  ∃ s',
    Z_Realloc (4096 + 32) 100 1 77 s = Ret (8192 + 32) s' ∧
    (∀ i, 0 <= i < 64 → mem s' (8192 + 32 + i) = mem s (4096 + 32 + i)) ∧
    (∀ i, 64 <= i < 100 → mem s' (8192 + 32 + i) = 0) ∧
    (∃ bn, heap s' !! ptr_sub (8192 + 32) HEADER_SIZE = Some bn ∧
           100 <= m_size bn) ∧
    heap s' !! 4096 = None ∧
    slots s' !! 77 = Some (8192 + 32).
Proof.
  cbv zeta.
  assert (Hn : 0 <= 100 <= MAX_REQUEST)
    by (unfold MAX_REQUEST, CHUNK_SIZE, HEADER_SIZE; lia).
  assert (Hb : heap static_state !! 4096 = Some (Memblock 4096 4096 64 1))
    by (vm_compute; reflexivity).
  assert (Hm : Z_Malloc 100 1 77 static_state
                 = Ret (8192 + 32) (final [OpMalloc 100 1 77] static_state))
    by (vm_compute; reflexivity).
  assert (Hb1 : heap (final [OpMalloc 100 1 77] static_state) !! 4096
                  = Some (Memblock 8192 8192 64 1))
    by (vm_compute; reflexivity).
  repeat (split; [assumption|]).
  destruct (final_rep _ _ _ _ _ _ static_state_run) as [L HR].
  destruct (realloc_moves_payload doom_tags_ok static_state L 4096 _ 100 1 77
              (8192 + 32) _ _ HR Hb Hn Hm Hb1
              ltac:(unfold HEADER_SIZE; lia))
    as (_ & _ & s' & Hrun & Hcopy & Hzero & Hfit & Hgone & _ & _ & Hslot).
  exists s'. split; [exact Hrun|]. split; [exact Hcopy|]. split; [exact Hzero|].
  split.
  { destruct (Hfit ltac:(lia)) as (bn & Hbn & _ & Hle). by exists bn. }
  split; [exact Hgone|]. rewrite Hslot. apply lookup_insert_eq.
Defined.

(** ** Z_FreeTags *)

Lemma three_state_run : run three_ops three_init = Ret () three_state.
Proof. vm_compute. reflexivity. Qed.

Example free_cache_bucket :
  blockbytag three_state PU_CACHE = 4096 ∧
  live_count three_state PU_CACHE = 3%nat ∧
  Z_FreeTags PU_CACHE PU_CACHE three_state
    = Ret () (final [OpFreeTags PU_CACHE PU_CACHE] three_state) ∧
  trace (final [OpFreeTags PU_CACHE PU_CACHE] three_state) =
    trace three_state ++ [EvFree 4096; EvFree 8192; EvFree 16384] ∧
  live_count (final [OpFreeTags PU_CACHE PU_CACHE] three_state) PU_CACHE
    = 0%nat ∧
  blockbytag (final [OpFreeTags PU_CACHE PU_CACHE] three_state) PU_CACHE = 0.
Proof. vm_compute. done. Qed.

Lemma free_tags_empties_range_witness :
  ∃ s',
    Z_FreeTags PU_FREE PU_MAX three_state = Ret () s' ∧
    (∀ t, 1 <= t <= 6 → blockbytag s' t = 0) ∧
    (∀ a b, heap three_state !! a = Some b → 1 <= m_tag b <= 6 →
            heap s' !! a = None).
Proof.
  destruct (final_rep _ _ _ _ _ _ three_state_run) as [L HR].
  destruct (free_tags_empties_range doom_tags_ok three_state L PU_FREE PU_MAX HR)
    as (s' & Hrun & _ & _ & Hhead & Hgone & _).
  exists s'. split; [exact Hrun|]. split; [exact Hhead|exact Hgone].
Defined.

(** ** Z_ChangeTag *)

Lemma mixed_state_run : run mixed_ops mixed_init = Ret () mixed_state.
Proof. vm_compute. reflexivity. Qed.

Lemma change_tag_moves_block_witness :
  let s := mixed_state in
  heap s !! 12288 = Some (Memblock 8192 8192 64 1) ∧
  0 <= PU_CACHE < PU_MAX ∧
  ∃ s' b',
    Z_ChangeTag (12288 + 32) PU_CACHE s = Ret () s' ∧
    heap s' !! 12288 = Some b' ∧ m_tag b' = PU_CACHE ∧ m_size b' = 64 ∧
    free_memory s' = free_memory s ∧ mem s' = mem s ∧
    ∃ s'', Z_FreeTags 1 1 s' = Ret () s'' ∧ heap s'' !! 12288 = Some b'.
Proof.
  cbv zeta.
  assert (Hb : heap mixed_state !! 12288 = Some (Memblock 8192 8192 64 1))
    by (vm_compute; reflexivity).
  assert (Ht : 0 <= PU_CACHE < PU_MAX) by (simpl; lia).
  split; [exact Hb|]. split; [exact Ht|].
  destruct (final_rep _ _ _ _ _ _ mixed_state_run) as [L HR].
  pose proof (rep_live _ _ HR _ _ Hb) as (l1 & l2 & HL)%list_elem_of_split.
  destruct (change_tag_moves_block doom_tags_ok mixed_state L 12288 _ l1 l2
              PU_CACHE HR Hb HL Ht) as (_ & _ & Hmove).
  destruct Hmove as (s' & b' & Hrun & _ & Hb' & Htag & Hsz & Hfm & _ & Hmem & _
                     & _ & s'' & Hfree & Hb'' & _).
  { simpl. discriminate. }
  exists s', b'. repeat (split; [assumption|]).
  exists s''. split; [exact Hfree|exact Hb''].
Defined.

(** ** Sizes *)

Example round_chunk_10 : round_chunk 10 = 32.
Proof. reflexivity. Qed.

Example round_chunk_40 : round_chunk 40 = 64.
Proof. reflexivity. Qed.

(** A request of [SIZE_MAX] bytes wraps to a recorded size of 0. *)
Lemma recorded_size_rounded_up_counterexample :
  let size := 2 ^ 64 - 1 in
  let s' := final [OpMalloc size 1 0] roomy_init in
  size > 0 ∧
  Z_Malloc size 1 0 roomy_init = Ret (4096 + 32) s' ∧
  heap s' !! 4096 = Some (Memblock 4096 4096 0 1) ∧
  ¬ (m_size (Memblock 4096 4096 0 1) >= size).
Proof. cbv zeta. repeat (split; [by vm_compute|]). vm_compute. by intros H; apply H. Qed.

Lemma recorded_size_rounded_up_witness :
  let s' := final [OpMalloc 10 1 0] roomy_init in
  0 < 10 <= 2 ^ 64 - CHUNK_SIZE ∧ 0 <= 1 < PU_MAX ∧
  Z_Malloc 10 1 0 roomy_init = Ret (4096 + 32) s' ∧
  ∃ b, heap s' !! ptr_sub (4096 + 32) HEADER_SIZE = Some b ∧
       m_size b = CHUNK_SIZE * ((10 + (CHUNK_SIZE - 1)) / CHUNK_SIZE) ∧
       10 <= m_size b < 10 + CHUNK_SIZE ∧
       m_size b mod CHUNK_SIZE = 0.
Proof.
  cbv zeta.
  assert (Hs : 0 < 10 <= 2 ^ 64 - CHUNK_SIZE) by (unfold CHUNK_SIZE; lia).
  assert (Ht : 0 <= 1 < PU_MAX) by (simpl; lia).
  assert (Hrun : Z_Malloc 10 1 0 roomy_init
                   = Ret (4096 + 32) (final [OpMalloc 10 1 0] roomy_init))
    by (vm_compute; reflexivity).
  repeat (split; [assumption|]).
  exact (recorded_size_rounded_up doom_tags_ok roomy_init (λ _, []) 10 1 0 _ _
           (rep_init _ _ _ _) Hs Ht Hrun).
Defined.

(** ** Zero-size requests *)

Lemma calloc_zero_keeps_slot_witness :
  let s := zone_init 0 no_bytes {[ 77 := 4128 ]} [] in
  wrap64 (0 * 5) = 0 ∧
  Z_Calloc 0 5 1 77 s = Ret 0 s ∧
  slots s !! 77 = Some 4128 ∧
  ∃ s', Z_Malloc 0 1 77 s = Ret 0 s' ∧ slots s' !! 77 = Some 0.
Proof.
  cbv zeta.
  assert (Hz : wrap64 (0 * 5) = 0) by reflexivity.
  split; [exact Hz|].
  destruct (calloc_zero_keeps_slot (zone_init 0 no_bytes {[ 77 := 4128 ]} [])
              0 5 1 77 Hz) as [Hcalloc Hmalloc].
  split; [exact Hcalloc|]. split; [reflexivity|].
  apply Hmalloc. lia.
Defined.

(** ** The rest of the interface *)

Lemma final_session_run cs s :
  returned (session cs s) = true → session cs s = Ret () (final_session cs s).
Proof. unfold final_session. by destruct (session cs s) as [[] s'| | |]. Qed.

Lemma session_final_rep cs ceiling m sl sc s :
  session cs (zone_init ceiling m sl sc) = Ret () s → ∃ L, rep s L.
Proof. apply (session_rep doom_tags_ok cs _ (λ _, [])), rep_init. Qed.

Lemma api_state_run : session api_calls api_init = Ret () api_state.
Proof. apply final_session_run. vm_compute. reflexivity. Qed.

Example api_state_facts :
  heap api_state !! 4096 = Some (Memblock 12288 16384 32 1) ∧
  heap api_state !! 8192 = None ∧
  heap api_state !! 12288 = Some (Memblock 16384 4096 128 1) ∧
  heap api_state !! 16384 = Some (Memblock 4096 12288 32 1) ∧
  slots api_state !! 77 = Some (12288 + 32) ∧
  map (mem api_state) [16384 + 32; 16384 + 33; 16384 + 34] = [104; 105; 0] ∧
  memory_size api_state = 16 * MiB ∧
  free_memory api_state = - 192 ∧
  trace api_state =
    [EvMalloc 64 4096; EvMalloc 64 8192; EvMalloc 160 12288; EvFree 8192;
     EvMalloc 64 16384].
Proof. vm_compute. done. Qed.

Lemma malloc_spares_other_tags_witness :
  let s := static_state in
  let s' := final [OpMalloc 10 PU_CACHE 0] static_state in
  Z_Malloc 10 PU_CACHE 0 s = Ret (8192 + 32) s' ∧
  heap s !! 4096 = Some (Memblock 4096 4096 64 1) ∧
  m_tag (Memblock 4096 4096 64 1) ≠ PU_CACHE ∧
  ∃ b', heap s' !! 4096 = Some b' ∧ m_size b' = 64 ∧ m_tag b' = 1.
Proof.
  cbv zeta.
  assert (Hm : Z_Malloc 10 PU_CACHE 0 static_state
                 = Ret (8192 + 32) (final [OpMalloc 10 PU_CACHE 0] static_state))
    by (vm_compute; reflexivity).
  assert (Hb : heap static_state !! 4096 = Some (Memblock 4096 4096 64 1))
    by (vm_compute; reflexivity).
  assert (Hne : m_tag (Memblock 4096 4096 64 1) ≠ PU_CACHE) by (simpl; lia).
  repeat (split; [assumption|]).
  destruct (final_rep _ _ _ _ _ _ static_state_run) as [L HR].
  exact (malloc_spares_other_tags doom_tags_ok static_state L 10 PU_CACHE 0 _ _
           4096 _ HR Hm Hb Hne).
Defined.

Lemma freed_block_unreferenced_witness :
  heap static_state !! 4096 = Some (Memblock 4096 4096 64 1) ∧
  ∃ s',
    Z_Free (4096 + 32) static_state = Ret () s' ∧
    heap s' !! 4096 = None ∧ unreferenced s' 4096 ∧
    Z_Free (4096 + 32) s' = Undef.
Proof.
  assert (Hb : heap static_state !! 4096 = Some (Memblock 4096 4096 64 1))
    by (vm_compute; reflexivity).
  split; [exact Hb|].
  destruct (final_rep _ _ _ _ _ _ static_state_run) as [L HR].
  destruct (freed_block_unreferenced doom_tags_ok static_state L 4096 _ HR Hb)
    as (s' & Hrun & Hgone & Hun & _ & _ & _ & Hdouble).
  exists s'. split; [exact Hrun|]. split; [exact Hgone|].
  split; [exact Hun|exact Hdouble].
Defined.

Lemma free_leaves_slot_dangling_witness :
  let s1 := final [OpMalloc 10 1 77] static_state in
  10 ≠ 0 ∧ 77 ≠ 0 ∧
  Z_Malloc 10 1 77 static_state = Ret (8192 + 32) s1 ∧
  slots s1 !! 77 = Some (8192 + 32) ∧
  ∃ s2,
    Z_Free (8192 + 32) s1 = Ret () s2 ∧ slots s2 = slots s1 ∧
    heap s2 !! ptr_sub (8192 + 32) HEADER_SIZE = None.
Proof.
  cbv zeta.
  assert (Hs : 10 ≠ 0) by lia.
  assert (Hu : 77 ≠ 0) by lia.
  assert (Hm : Z_Malloc 10 1 77 static_state
                 = Ret (8192 + 32) (final [OpMalloc 10 1 77] static_state))
    by (vm_compute; reflexivity).
  repeat (split; [assumption|]).
  destruct (final_rep _ _ _ _ _ _ static_state_run) as [L HR].
  exact (free_leaves_slot_dangling doom_tags_ok static_state L 10 1 77 _ _
           HR Hs Hu Hm).
Defined.

Lemma malloc_free_round_trip_witness :
  10 ≠ 0 ∧ 0 <= 1 < PU_MAX ∧ memory_size static_state = 0 ∧
  offer static_state ≠ 0 ∧
  ∃ p s1 s2,
    Z_Malloc 10 1 0 static_state = Ret p s1 ∧ Z_Free p s1 = Ret () s2 ∧
    heap s2 = heap static_state ∧
    free_memory s2 = sint32 (free_memory static_state).
Proof.
  assert (Hs : 10 ≠ 0) by lia.
  assert (Ht : 0 <= 1 < PU_MAX) by (simpl; lia).
  assert (Hms : memory_size static_state = 0) by (vm_compute; reflexivity).
  assert (Ho : offer static_state ≠ 0) by (vm_compute; discriminate).
  repeat (split; [assumption|]).
  destruct (final_rep _ _ _ _ _ _ static_state_run) as [L HR].
  destruct (malloc_free_round_trip doom_tags_ok static_state L 10 1 0
              HR Hs Ht Hms Ho)
    as (p & s1 & s2 & Hm & Hf & Hh & _ & Hfm & _).
  exists p, s1, s2. split; [exact Hm|]. split; [exact Hf|].
  split; [exact Hh|exact Hfm].
Defined.

Lemma change_tag_round_trip_witness :
  let s := mixed_state in
  heap s !! 8192 = Some (Memblock 12288 12288 32 1) ∧
  0 <= PU_CACHE < PU_MAX ∧
  PU_CACHE ≠ m_tag (Memblock 12288 12288 32 1) ∧
  ∃ s1 s2,
    Z_ChangeTag (8192 + 32) PU_CACHE s = Ret () s1 ∧
    Z_ChangeTag (8192 + 32) 1 s1 = Ret () s2 ∧
    free_memory s2 = free_memory s ∧ trace s2 = trace s ∧ mem s2 = mem s.
Proof.
  cbv zeta.
  assert (Hb : heap mixed_state !! 8192 = Some (Memblock 12288 12288 32 1))
    by (vm_compute; reflexivity).
  assert (Ht : 0 <= PU_CACHE < PU_MAX) by (simpl; lia).
  assert (Hne : PU_CACHE ≠ m_tag (Memblock 12288 12288 32 1)) by (simpl; lia).
  repeat (split; [assumption|]).
  destruct (final_rep _ _ _ _ _ _ mixed_state_run) as [L HR].
  pose proof (rep_live _ _ HR _ _ Hb) as (l1 & l2 & HL)%list_elem_of_split.
  destruct (change_tag_round_trip doom_tags_ok mixed_state L 8192 _ l1 l2
              PU_CACHE HR Hb HL Ht Hne)
    as (s1 & s2 & H1 & H2 & _ & _ & Hrest).
  exists s1, s2. split; [exact H1|]. split; [exact H2|exact Hrest].
Defined.

(** Retagged and tagged back, the head of the STATIC bucket is its tail. *)
Example change_tag_round_trip_order :
  blockbytag mixed_state 1 = 12288 ∧
  heap mixed_state !! 12288 = Some (Memblock 8192 8192 64 1) ∧
  let s2 := final [OpChangeTag (12288 + 32) PU_CACHE; OpChangeTag (12288 + 32) 1]
                  mixed_state in
  blockbytag s2 1 = 8192 ∧
  heap s2 !! 8192 = Some (Memblock 12288 12288 32 1).
Proof. vm_compute. done. Qed.

Lemma free_tags_twice_witness :
  let s1 := final [OpFreeTags PU_CACHE PU_CACHE] three_state in
  Z_FreeTags PU_CACHE PU_CACHE three_state = Ret () s1 ∧
  Z_FreeTags PU_CACHE PU_CACHE s1 = Ret () s1.
Proof.
  cbv zeta.
  assert (H1 : Z_FreeTags PU_CACHE PU_CACHE three_state
                 = Ret () (final [OpFreeTags PU_CACHE PU_CACHE] three_state))
    by (vm_compute; reflexivity).
  split; [exact H1|].
  destruct (final_rep _ _ _ _ _ _ three_state_run) as [L HR].
  exact (free_tags_twice doom_tags_ok three_state L PU_CACHE PU_CACHE _ HR H1).
Defined.

Lemma newest_is_purged_last_witness :
  let s1 := final [OpMalloc 10 PU_CACHE 0] roomy_state in
  10 ≠ 0 ∧
  Z_Malloc 10 PU_CACHE 0 roomy_state = Ret (8192 + 32) s1 ∧
  ∃ l s2,
    Z_FreeTags PU_CACHE PU_CACHE s1 = Ret () s2 ∧
    trace s2 = trace s1 ++ map EvFree l ++ [EvFree 8192] ∧
    blockbytag s2 PU_CACHE = 0.
Proof.
  cbv zeta.
  assert (Hs : 10 ≠ 0) by lia.
  assert (Hm : Z_Malloc 10 PU_CACHE 0 roomy_state
                 = Ret (8192 + 32) (final [OpMalloc 10 PU_CACHE 0] roomy_state))
    by (vm_compute; reflexivity).
  repeat (split; [assumption|]).
  destruct (final_rep _ _ _ _ _ _ roomy_state_run) as [L HR].
  destruct (newest_is_purged_last doom_tags_ok roomy_state L 10 0 _ _ HR Hs Hm)
    as (k & s2 & Hrun & Htr & Hh).
  exists (drop k (L PU_CACHE)), s2. split; [exact Hrun|].
  split; [exact Htr|exact Hh].
Defined.

Lemma realloc_to_zero_frees_witness :
  heap static_state !! 4096 = Some (Memblock 4096 4096 64 1) ∧
  ∃ s',
    Z_Realloc (4096 + 32) 0 1 77 static_state = Ret 0 s' ∧
    heap s' !! 4096 = None ∧
    trace s' = trace static_state ++ [EvFree 4096] ∧
    slots s' !! 77 = Some 0.
Proof.
  assert (Hb : heap static_state !! 4096 = Some (Memblock 4096 4096 64 1))
    by (vm_compute; reflexivity).
  split; [exact Hb|].
  destruct (final_rep _ _ _ _ _ _ static_state_run) as [L HR].
  destruct (realloc_to_zero_frees static_state L 4096 _ 1 77 HR Hb)
    as (s' & Hrun & Hgone & Htr & _ & _ & Hsl).
  exists s'. split; [exact Hrun|]. split; [exact Hgone|]. split; [exact Htr|].
  rewrite Hsl. apply lookup_insert_eq.
Defined.

Lemma realloc_of_unpurgeable_block_witness :
  let s1 := final [OpMalloc 100 1 77] static_state in
  heap static_state !! 4096 = Some (Memblock 4096 4096 64 1) ∧
  m_tag (Memblock 4096 4096 64 1) ≠ PU_CACHE ∧ 0 < 100 <= MAX_REQUEST ∧
  Z_Malloc 100 1 77 static_state = Ret (8192 + 32) s1 ∧
  8192 + 32 ≠ 4096 + HEADER_SIZE ∧
  ∃ s',
    Z_Realloc (4096 + HEADER_SIZE) 100 1 77 static_state = Ret (8192 + 32) s' ∧
    (∀ i, 0 <= i < 64 →
       mem s' (8192 + 32 + i) = mem static_state (4096 + HEADER_SIZE + i)) ∧
    (∀ i, 64 <= i < 100 → mem s' (8192 + 32 + i) = 0) ∧
    (∃ bn, heap s' !! ptr_sub (8192 + 32) HEADER_SIZE = Some bn ∧
           m_size bn = round_chunk 100 ∧ 100 <= m_size bn) ∧
    heap s' !! 4096 = None.
Proof.
  cbv zeta.
  assert (Hb : heap static_state !! 4096 = Some (Memblock 4096 4096 64 1))
    by (vm_compute; reflexivity).
  assert (Hnc : m_tag (Memblock 4096 4096 64 1) ≠ PU_CACHE) by (simpl; lia).
  assert (Hn : 0 < 100 <= MAX_REQUEST)
    by (unfold MAX_REQUEST, CHUNK_SIZE, HEADER_SIZE; lia).
  assert (Hm : Z_Malloc 100 1 77 static_state
                 = Ret (8192 + 32) (final [OpMalloc 100 1 77] static_state))
    by (vm_compute; reflexivity).
  repeat (split; [assumption|]).
  destruct (final_rep _ _ _ _ _ _ static_state_run) as [L HR].
  destruct (realloc_of_unpurgeable_block doom_tags_ok static_state L 4096 _ 100
              1 77 _ _ HR Hb Hnc Hn Hm)
    as (Hnew & s' & Hrun & Hcopy & Hzero & Hfit & Hgone & _).
  split; [exact Hnew|].
  exists s'. split; [exact Hrun|]. split; [exact Hcopy|].
  split; [exact Hzero|]. split; [exact Hfit|exact Hgone].
Defined.

(** A product of 2^64 + 2^32 bytes is served with a block of 2^32. *)
Example calloc_overflow :
  let s' := final_session [CallCalloc (2 ^ 32) (2 ^ 32 + 1) 1 0] roomy_init in
  returned (Z_Calloc (2 ^ 32) (2 ^ 32 + 1) 1 0 roomy_init) = true ∧
  heap s' !! 4096 = Some (Memblock 4096 4096 (2 ^ 32) 1) ∧
  trace s' = [EvMalloc (2 ^ 32 + 32) 4096].
Proof. vm_compute. done. Qed.

Lemma calloc_zero_fills_witness :
  let s' := final_session [CallCalloc 3 5 1 77] roomy_init in
  wrap64 (3 * 5) ≠ 0 ∧
  Z_Calloc 3 5 1 77 roomy_init = Ret (4096 + 32) s' ∧
  ∃ b,
    heap s' !! ptr_sub (4096 + 32) HEADER_SIZE = Some b ∧
    m_size b = round_chunk (wrap64 (3 * 5)) ∧
    (∀ i, 0 <= i < wrap64 (3 * 5) → mem s' (4096 + 32 + i) = 0).
Proof.
  cbv zeta.
  assert (Hn : wrap64 (3 * 5) ≠ 0) by (vm_compute; discriminate).
  assert (Hc : Z_Calloc 3 5 1 77 roomy_init
                 = Ret (4096 + 32) (final_session [CallCalloc 3 5 1 77] roomy_init))
    by (vm_compute; reflexivity).
  repeat (split; [assumption|]).
  destruct (calloc_zero_fills doom_tags_ok roomy_init (λ _, []) 3 5 1 77 _ _
              (rep_init _ _ _ _) Hn Hc)
    as (s1 & b & _ & _ & Hb & _ & Hsz & _ & Hzero & _).
  exists b. split; [exact Hb|]. split; [exact Hsz|exact Hzero].
Defined.

Lemma hi_bytes_cstring : cstring (mem hi_init) 100 2.
Proof.
  split; [lia|]. split; [|reflexivity].
  intros i Hi. assert (i = 0 ∨ i = 1) as [-> | ->] by lia; by vm_compute.
Qed.

Lemma strdup_copies_string_witness :
  let s1 := final [OpMalloc (2 + 1) 1 0] hi_init in
  100 ≠ 0 ∧ cstring (mem hi_init) 100 2 ∧ (Z.to_nat 2 < 10)%nat ∧
  2 + 1 <= 2 ^ 64 - CHUNK_SIZE ∧
  Z_Malloc (2 + 1) 1 0 hi_init = Ret (4096 + 32) s1 ∧
  (4096 + 32 + 2 < 100 ∨ 100 + 2 < 4096 + 32) ∧
  ∃ s',
    Z_Strdup 10 100 1 0 hi_init = Ret (4096 + 32) s' ∧
    cstring (mem s') (4096 + 32) 2 ∧
    (∀ i, 0 <= i <= 2 → mem s' (4096 + 32 + i) = mem hi_init (100 + i)).
Proof.
  cbv zeta.
  assert (Hstr : 100 ≠ 0) by lia.
  assert (Hfuel : (Z.to_nat 2 < 10)%nat) by (vm_compute; lia).
  assert (Hlen : 2 + 1 <= 2 ^ 64 - CHUNK_SIZE) by (unfold CHUNK_SIZE; lia).
  assert (Hm : Z_Malloc (2 + 1) 1 0 hi_init
                 = Ret (4096 + 32) (final [OpMalloc (2 + 1) 1 0] hi_init))
    by (vm_compute; reflexivity).
  assert (Hkeep : ∀ a, is_Some (heap hi_init !! a) →
            is_Some (heap (final [OpMalloc (2 + 1) 1 0] hi_init) !! a)).
  { intros a [b Hb]. simpl in Hb. by rewrite lookup_empty in Hb. }
  assert (Hapart : 4096 + 32 + 2 < 100 ∨ 100 + 2 < 4096 + 32) by lia.
  split; [exact Hstr|]. split; [exact hi_bytes_cstring|].
  split; [exact Hfuel|]. split; [exact Hlen|]. split; [exact Hm|].
  split; [exact Hapart|].
  destruct (strdup_copies_string doom_tags_ok hi_init (λ _, []) 10 100 2 1 0 _ _
              (rep_init _ _ _ _) Hstr hi_bytes_cstring Hfuel Hlen Hm Hkeep Hapart)
    as (s' & b & Hrun & Hcs & Hcopy & _).
  exists s'. split; [exact Hrun|]. split; [exact Hcs|exact Hcopy].
Defined.

Lemma Z_Init_forgets_blocks_witness :
  heap mixed_state !! 16384 = Some (Memblock 16384 16384 128 6) ∧
  ∃ s',
    Z_Init mixed_state = Ret true s' ∧
    (∀ t, 0 <= t < PU_MAX → blockbytag s' t = 0) ∧
    heap s' = heap mixed_state ∧
    ¬ bucket_valid s' 6.
Proof.
  assert (Hb : heap mixed_state !! 16384 = Some (Memblock 16384 16384 128 6))
    by (vm_compute; reflexivity).
  split; [exact Hb|].
  destruct (Z_Init_forgets_blocks doom_tags_ok mixed_state)
    as (s' & Hrun & Hz & Hh & _ & _ & _ & _ & Horphan).
  exists s'. split; [exact Hrun|]. split; [exact Hz|]. split; [exact Hh|].
  apply (Horphan 16384 _ Hb). simpl. lia.
Defined.

Lemma Z_Close_releases_purgeable_witness :
  ∃ s',
    Z_Close false three_state = Ret () s' ∧
    memory_size s' = 0 ∧ free_memory s' = 0 ∧
    (∀ t, PU_FREE < t <= PU_CACHE → blockbytag s' t = 0).
Proof.
  destruct (final_rep _ _ _ _ _ _ three_state_run) as [L HR].
  destruct (Z_Close_releases_purgeable doom_tags_ok three_state L HR)
    as [(s' & Hrun & Hms & Hfm & _ & Hz & _) _].
  exists s'. split; [exact Hrun|]. split; [exact Hms|].
  split; [exact Hfm|exact Hz].
Defined.

Lemma three_state_tags :
  ∀ a b, heap three_state !! a = Some b → PU_FREE < m_tag b <= PU_CACHE.
Proof.
  apply map_Forall_lookup.
  apply (bool_decide_unpack _). by vm_compute.
Qed.

Lemma close_then_init_is_fresh_witness :
  (∀ a b, heap three_state !! a = Some b → PU_FREE < m_tag b <= PU_CACHE) ∧
  ∃ s1 s2,
    Z_Close false three_state = Ret () s1 ∧ Z_Init s1 = Ret true s2 ∧
    heap s2 = ∅ ∧ memory_size s2 = 0 ∧ free_memory s2 = 0 ∧
    rep s2 (λ _, []).
Proof.
  split; [exact three_state_tags|].
  destruct (final_rep _ _ _ _ _ _ three_state_run) as [L HR].
  destruct (close_then_init_is_fresh doom_tags_ok three_state L HR three_state_tags)
    as (s1 & s2 & H1 & H2 & Hh & _ & Hms & Hfm & HR2 & _).
  exists s1, s2. split; [exact H1|]. split; [exact H2|]. split; [exact Hh|].
  split; [exact Hms|]. split; [exact Hfm|exact HR2].
Defined.

Lemma session_buckets_valid_witness :
  session (api_calls ++ [CallClose false]) api_init
    = Ret () (final_session (api_calls ++ [CallClose false]) api_init) ∧
  0 <= 1 < PU_MAX ∧
  bucket_valid (final_session (api_calls ++ [CallClose false]) api_init) 1.
Proof.
  assert (Hrun : session (api_calls ++ [CallClose false]) api_init
                 = Ret () (final_session (api_calls ++ [CallClose false]) api_init))
    by (apply final_session_run; vm_compute; reflexivity).
  assert (Ht : 0 <= 1 < PU_MAX) by (simpl; lia).
  split; [exact Hrun|]. split; [exact Ht|].
  exact (session_buckets_valid doom_tags_ok _ _ _ _ _ _ 1 Hrun Ht).
Defined.

Lemma session_links_closed_witness :
  session api_calls api_init = Ret () api_state ∧ well_linked api_state.
Proof.
  split; [exact api_state_run|].
  exact (session_links_closed doom_tags_ok _ _ _ _ _ _ api_state_run).
Defined.

Lemma session_books_balance_witness :
  session api_calls api_init = Ret () api_state ∧
  forallb (λ c, negb (is_close c)) api_calls = true ∧
  free_memory api_state = sint32 (- total (heap api_state)) ∧
  (total (heap api_state) <= 2 ^ 31 →
   free_memory api_state = - total (heap api_state)).
Proof.
  assert (Hcs : forallb (λ c, negb (is_close c)) api_calls = true)
    by reflexivity.
  split; [exact api_state_run|]. split; [exact Hcs|].
  destruct (session_books_balance doom_tags_ok _ _ _ _ _ _ api_state_run Hcs)
    as (HC & _ & Hex).
  split; [exact HC|exact Hex].
Defined.


Lemma dry_state_run : Z_Malloc 10 1 0 dry_init = Fatal dry_state.
Proof. vm_compute. reflexivity. Qed.

Lemma malloc_dies_only_on_refusal_witness :
  Z_Malloc 10 1 0 dry_init = Fatal dry_state ∧
  blockbytag dry_state PU_CACHE = 0 ∧
  ∃ tr, trace dry_state = tr ++ [EvMalloc (wrap64 (round_chunk 10 + HEADER_SIZE)) 0].
Proof.
  split; [exact dry_state_run|].
  exact (proj2 (malloc_dies_only_on_refusal doom_tags_ok dry_init (λ _, []) 10 1 0
                  dry_state (rep_init _ _ _ _) dry_state_run)).
Defined.

Lemma tags_are_not_checked_witness :
  heap static_state !! 4096 = Some (Memblock 4096 4096 64 1) ∧
  ¬ (0 <= 9 < PU_MAX) ∧ 10 ≠ 0 ∧
  Z_ChangeTag (4096 + 32) 9 static_state = Undef ∧
  (Z_Malloc 10 9 0 static_state = Undef ∨
   ∃ s', Z_Malloc 10 9 0 static_state = Fatal s').
Proof.
  assert (Hb : heap static_state !! 4096 = Some (Memblock 4096 4096 64 1))
    by (vm_compute; reflexivity).
  assert (Ht : ¬ (0 <= 9 < PU_MAX)) by (simpl; lia).
  assert (Hs : 10 ≠ 0) by lia.
  repeat (split; [assumption|]).
  destruct (final_rep _ _ _ _ _ _ static_state_run) as [L HR].
  exact (tags_are_not_checked doom_tags_ok static_state L 4096 _ 10 9 0
           HR Hb Ht Hs).
Defined.

End RunFacts.
